(** * Zoom transform engine of ScreenArc ([src/lib/transform.ts])

    A shallow embedding of the camera-transform engine: the temporal index
    ([findLastMetadataIndex]), the cursor smoother
    ([getSmoothedMousePosition]), the bounded-pan solver
    ([calculateBoundedPan]) and the phase state machine
    ([calculateZoomTransform]) with its module-level carryover state made
    explicit.

    Conventions of the embedding.
    - A TypeScript [number] that holds a measurement (time, pixels, scale)
      is a real number [R]: IEEE-754 rounding, infinities and NaN are not
      represented.  The statements below are either equations between
      expressions of the code, which hold whatever value a quotient has, or
      are made where the divisors on the path are non-zero; none rests on
      the value Rocq gives to [x / 0].
    - Where a statement turns on rounding or on a division by zero, the
      code is run in binary64 instead: module [Binary64] embeds the same
      functions over Rocq's primitive floating-point numbers.
    - A [number] that holds an array index is an integer [Z].
    - Reading a property of [metadata[i]] with [i] outside the array raises
      a [TypeError] in JavaScript; the embedding keeps that outcome
      ([completion]), and totality is then a theorem, not an assumption.
    - [EASING_MAP] (./easing) and [DEFAULTS] (./constants) are imported by
      transform.ts and defined elsewhere; here they are parameters
      ([Externals]).  The easing table is a partial map from names to
      numeric functions: what a lookup of a member inherited from
      [Object.prototype] would find is outside the embedding. *)

From Stdlib Require Import Reals Lra Lia ZArith List String Bool.
From Stdlib Require PrimFloat.
From Equations Require Import Equations.
Import ListNotations.

Local Open Scope R_scope.

(* ===================================================================== *)
(** ** Numbers and comparisons *)
(* ===================================================================== *)

Module Num.

Definition leb (a b : R) : bool := if Rle_dec a b then true else false.
Definition ltb (a b : R) : bool := if Rlt_dec a b then true else false.
Definition geb (a b : R) : bool := leb b a.
Definition gtb (a b : R) : bool := ltb b a.

End Num.

(* ===================================================================== *)
(** ** Abrupt completion: a thrown TypeError *)
(* ===================================================================== *)

Inductive completion (A : Type) : Type :=
| Normal (a : A)
| TypeError.

Arguments Normal {A} a.
Arguments TypeError {A}.

Definition bind {A B : Type} (c : completion A) (k : A -> completion B)
  : completion B :=
  match c with
  | Normal a => k a
  | TypeError => TypeError
  end.

Notation "x <- c ;; k" := (bind c (fun x => k))
  (at level 61, c at next level, right associativity).

(* ===================================================================== *)
(** ** Data model ([../types], as far as the engine reads it) *)
(* ===================================================================== *)

Module MetaDataItem.
Record t : Type := mk { timestamp : R; x : R; y : R }.
End MetaDataItem.

Module Point.
Record t : Type := mk { x : R; y : R }.
End Point.

Module Size.
Record t : Type := mk { width : R; height : R }.
End Size.

Module Pan.
Record t : Type := mk { tx : R; ty : R }.
End Pan.

Record ZoomRegion : Type := mkZoomRegion {
  startTime : R;
  duration : R;
  zoomLevel : R;
  targetX : R;
  targetY : R;
  mode : string;
  easing : string;
  transitionDuration : R
}.

(** The template string [`${ox * 100}% ${oy * 100}%`]: the two numbers are
    kept, the decimal rendering is not modelled. *)
Inductive OriginString : Type :=
| Percent (px py : R).

Record TransformResult : Type := mkTransform {
  scale : R;
  translateX : R;
  translateY : R;
  transformOrigin : OriginString
}.

(** The three module-level [let] variables of transform.ts. *)
Record EngineState : Type := mkState {
  previousPanX : R;
  previousPanY : R;
  lastPanUpdateTime : R
}.

Definition initialState : EngineState := mkState 0 0 0.

(** What the engine imports from ./constants and ./easing. *)
Class Externals : Type := {
  SMOOTHING_FACTOR : R;
  DEAD_ZONE : R;
  SMOOTHING_WINDOW : R;
  EASING_MAP : string -> option (R -> R);
  EASING_Balanced : R -> R
}.

(* ===================================================================== *)
(** ** Helper functions *)
(* ===================================================================== *)

Definition lerp (start end_ t : R) : R := start * (1 - t) + end_ * t.

(** [metadata[i]] followed by a property read. *)
Definition at_index (metadata : list MetaDataItem.t) (i : Z)
  : completion MetaDataItem.t :=
  if (i <? 0)%Z then TypeError
  else match nth_error metadata (Z.to_nat i) with
       | Some m => Normal m
       | None => TypeError
       end.

Definition array_length (metadata : list MetaDataItem.t) : Z :=
  Z.of_nat (List.length metadata).

(** The [while (left <= right)] loop of [findLastMetadataIndex]. *)
Equations? search_loop (metadata : list MetaDataItem.t) (currentTime : R)
  (left_ right_ result : Z) : completion Z
  by wf (Z.to_nat (right_ - left_ + 1)) lt :=
search_loop metadata currentTime left_ right_ result :=
  match Z_le_gt_dec left_ right_ with
  | right _ => Normal result
  | left Hle =>
      let mid := ((left_ + right_) / 2)%Z in
      match at_index metadata mid with
      | TypeError => TypeError
      | Normal m =>
          if Rle_dec (MetaDataItem.timestamp m) currentTime
          then search_loop metadata currentTime (mid + 1)%Z right_ mid
          else search_loop metadata currentTime left_ (mid - 1)%Z result
      end
  end.
Proof.
  - assert (left_ <= (left_ + right_) / 2 <= right_)%Z
      by (split; [apply Z.div_le_lower_bound | apply Z.div_le_upper_bound]; lia).
    lia.
  - assert (left_ <= (left_ + right_) / 2 <= right_)%Z
      by (split; [apply Z.div_le_lower_bound | apply Z.div_le_upper_bound]; lia).
    lia.
Qed.

Definition findLastMetadataIndex (metadata : list MetaDataItem.t)
  (currentTime : R) : completion Z :=
  if (array_length metadata =? 0)%Z then Normal (-1)%Z
  else search_loop metadata currentTime 0 (array_length metadata - 1) (-1).

(** The [for (let i = startIndex + 1; i <= endIndex; i++)] loop of
    [getSmoothedMousePosition]; [i] is the loop counter. *)
Equations? smoothing_loop (metadata : list MetaDataItem.t)
  (smoothingFactor deadZone : R) (endIndex i : Z) (smoothedX smoothedY : R)
  : completion (R * R)
  by wf (Z.to_nat (endIndex + 1 - i)) lt :=
smoothing_loop metadata smoothingFactor deadZone endIndex i smoothedX smoothedY :=
  match Z_le_gt_dec i endIndex with
  | right _ => Normal (smoothedX, smoothedY)
  | left Hle =>
      match at_index metadata i with
      | TypeError => TypeError
      | Normal item =>
          let currentX := MetaDataItem.x item in
          let currentY := MetaDataItem.y item in
          let deltaX := currentX - smoothedX in
          let deltaY := currentY - smoothedY in
          let movementDistance := sqrt (deltaX * deltaX + deltaY * deltaY) in
          let effectiveSmoothingFactor :=
            if Num.gtb movementDistance deadZone
            then smoothingFactor else smoothingFactor * 0.3 in
          smoothing_loop metadata smoothingFactor deadZone endIndex (i + 1)%Z
            (lerp smoothedX currentX effectiveSmoothingFactor)
            (lerp smoothedY currentY effectiveSmoothingFactor)
      end
  end.
Proof. lia. Qed.

Section Engine.

Context {ext : Externals}.

Definition getSmoothedMousePosition (metadata : list MetaDataItem.t)
  (targetTime smoothingFactor deadZone : R) : completion (option Point.t) :=
  endIndex <- findLastMetadataIndex metadata targetTime ;;
  if (endIndex <? 0)%Z then Normal None
  else
    let startTime := Rmax 0 (targetTime - SMOOTHING_WINDOW) in
    startIndex <- findLastMetadataIndex metadata startTime ;;
    let startIndex := if (startIndex <? 0)%Z then 0%Z else startIndex in
    if (startIndex >=? array_length metadata)%Z then Normal None
    else
      anchor <- at_index metadata startIndex ;;
      smoothed <- smoothing_loop metadata smoothingFactor deadZone endIndex
                    (startIndex + 1)%Z
                    (MetaDataItem.x anchor) (MetaDataItem.y anchor) ;;
      let '(smoothedX, smoothedY) := smoothed in
      if (endIndex + 1 <? array_length metadata)%Z
      then
        nextEvent <- at_index metadata (endIndex + 1)%Z ;;
        lastEvent <- at_index metadata endIndex ;;
        let timeDiff :=
          MetaDataItem.timestamp nextEvent - MetaDataItem.timestamp lastEvent in
        if Num.gtb timeDiff 0
        then
          let progress :=
            (targetTime - MetaDataItem.timestamp lastEvent) / timeDiff in
          let finalX := lerp smoothedX (MetaDataItem.x nextEvent) smoothingFactor in
          let finalY := lerp smoothedY (MetaDataItem.y nextEvent) smoothingFactor in
          Normal (Some (Point.mk (lerp smoothedX finalX progress)
                                 (lerp smoothedY finalY progress)))
        else Normal (Some (Point.mk smoothedX smoothedY))
      else Normal (Some (Point.mk smoothedX smoothedY)).

Definition calculateBoundedPan (mousePos : option Point.t) (origin : Point.t)
  (zoomLevel : R) (recordingGeometry frameContentDimensions : Size.t) : Pan.t :=
  match mousePos with
  | None => Pan.mk 0 0
  | Some mousePos =>
      let nsmx := Point.x mousePos / Size.width recordingGeometry in
      let nsmy := Point.y mousePos / Size.height recordingGeometry in
      let targetFinalPanX :=
        (0.5 - ((nsmx - Point.x origin) * zoomLevel + Point.x origin))
        * Size.width frameContentDimensions in
      let targetFinalPanY :=
        (0.5 - ((nsmy - Point.y origin) * zoomLevel + Point.y origin))
        * Size.height frameContentDimensions in
      let targetTranslateX := targetFinalPanX / zoomLevel in
      let targetTranslateY := targetFinalPanY / zoomLevel in
      let maxTx :=
        (Point.x origin * Size.width frameContentDimensions * (zoomLevel - 1))
        / zoomLevel in
      let minTx :=
        - ((1 - Point.x origin) * Size.width frameContentDimensions
           * (zoomLevel - 1)) / zoomLevel in
      let maxTy :=
        (Point.y origin * Size.height frameContentDimensions * (zoomLevel - 1))
        / zoomLevel in
      let minTy :=
        - ((1 - Point.y origin) * Size.height frameContentDimensions
           * (zoomLevel - 1)) / zoomLevel in
      let tx := Rmax minTx (Rmin maxTx targetTranslateX) in
      let ty := Rmax minTy (Rmin maxTy targetTranslateY) in
      Pan.mk tx ty
  end.

Definition getTransformOrigin (targetX targetY : R) : Point.t :=
  Point.mk (targetX + 0.5) (targetY + 0.5).

Definition PAN_SMOOTHING_FACTOR : R := 0.1.

(** [EASING_MAP[easing as keyof typeof EASING_MAP] || EASING_MAP.Balanced] *)
Definition easingFn (easing : string) : R -> R :=
  match EASING_MAP easing with
  | Some f => f
  | None => EASING_Balanced
  end.

(** [Object.values(zoomRegions)]: the mapping is given by its entries in
    enumeration order. *)
Definition Object_values (zoomRegions : list (string * ZoomRegion))
  : list ZoomRegion := List.map snd zoomRegions.

Definition inRegion (currentTime : R) (r : ZoomRegion) : bool :=
  Num.geb currentTime (startTime r)
  && Num.ltb currentTime (startTime r + duration r).

Definition findActiveRegion (currentTime : R)
  (zoomRegions : list (string * ZoomRegion)) : option ZoomRegion :=
  List.find (inRegion currentTime) (Object_values zoomRegions).

Definition defaultTransform : TransformResult :=
  mkTransform 1 0 0 (Percent 50 50).

Definition isSome {A : Type} (o : option A) : bool :=
  match o with Some _ => true | None => false end.

(** "If no region or big time jump, reset tracking" (the first [if]). *)
Definition resetTracking (activeRegion : option ZoomRegion)
  (currentTime : R) (st : EngineState) : EngineState :=
  if negb (isSome activeRegion)
     || Num.gtb (Rabs (currentTime - lastPanUpdateTime st)) 0.5
  then
    if isSome activeRegion
    then mkState 0 0 (lastPanUpdateTime st)
    else st
  else st.

(** The guard [mode === 'auto' && metadata.length > 0 &&
    recordingGeometry.width > 0], used twice. *)
Definition autoPan (r : ZoomRegion) (metadata : list MetaDataItem.t)
  (recordingGeometry : Size.t) : bool :=
  String.eqb (mode r) "auto"
  && (array_length metadata >? 0)%Z
  && Num.gtb (Size.width recordingGeometry) 0.

(** "Calculate Pan Targets": [initialPan], [livePan], [finalPan]. *)
Definition panTargets (r : ZoomRegion) (currentTime : R)
  (metadata : list MetaDataItem.t)
  (recordingGeometry frameContentDimensions : Size.t)
  : completion (Pan.t * Pan.t * Pan.t) :=
  let zoomOutStartTime := startTime r + duration r - transitionDuration r in
  let zoomInEndTime := startTime r + transitionDuration r in
  let fixedOrigin := getTransformOrigin (targetX r) (targetY r) in
  if autoPan r metadata recordingGeometry
  then
    zoomInEndMousePos <-
      getSmoothedMousePosition metadata zoomInEndTime
        SMOOTHING_FACTOR DEAD_ZONE ;;
    let zoomInEndPan :=
      calculateBoundedPan zoomInEndMousePos fixedOrigin (zoomLevel r)
        recordingGeometry frameContentDimensions in
    liveMousePos <-
      getSmoothedMousePosition metadata currentTime
        SMOOTHING_FACTOR DEAD_ZONE ;;
    let livePan :=
      calculateBoundedPan liveMousePos fixedOrigin (zoomLevel r)
        recordingGeometry frameContentDimensions in
    finalMousePos <-
      getSmoothedMousePosition metadata zoomOutStartTime
        SMOOTHING_FACTOR DEAD_ZONE ;;
    let finalPan :=
      calculateBoundedPan finalMousePos fixedOrigin (zoomLevel r)
        recordingGeometry frameContentDimensions in
    Normal (zoomInEndPan, livePan, finalPan)
  else Normal (Pan.mk 0 0, Pan.mk 0 0, Pan.mk 0 0).

(** [timeDelta > 0 ? (timeDelta / 0.016) * PAN_SMOOTHING_FACTOR : 0] *)
Definition frameAlpha (currentTime : R) (st : EngineState) : R :=
  let timeDelta := currentTime - lastPanUpdateTime st in
  if Num.gtb timeDelta 0
  then (timeDelta / 0.016) * PAN_SMOOTHING_FACTOR
  else 0.

(** [cursorInfluence] of phase 3. *)
Definition cursorInfluence (t : R) : R :=
  if Num.leb t 0.05 then 1 - (t / 0.05) else 0.

(** Phase 3, the pan target [(targetTx, targetTy)]; [t] is the eased
    progress and [currentScale] the scale already interpolated with it. *)
Definition zoomOutTarget (r : ZoomRegion) (currentTime t currentScale : R)
  (metadata : list MetaDataItem.t)
  (recordingGeometry frameContentDimensions : Size.t) (finalPan : Pan.t)
  : completion (R * R) :=
  let fixedOrigin := getTransformOrigin (targetX r) (targetY r) in
  if autoPan r metadata recordingGeometry
  then
    liveMousePos <-
      getSmoothedMousePosition metadata currentTime
        SMOOTHING_FACTOR DEAD_ZONE ;;
    let dynamicPan :=
      calculateBoundedPan liveMousePos fixedOrigin currentScale
        recordingGeometry frameContentDimensions in
    Normal (Pan.tx dynamicPan * cursorInfluence t,
            Pan.ty dynamicPan * cursorInfluence t)
  else Normal (lerp (Pan.tx finalPan) 0 t, lerp (Pan.ty finalPan) 0 t).

(** [fluidAlpha] of phase 3. *)
Definition fluidAlpha (currentTime t : R) (st : EngineState) : R :=
  let baseAlpha := frameAlpha currentTime st in
  let convergence := t ^ 4 in
  lerp (Rmax 0 (Rmin 1 baseAlpha)) 1 convergence.

(** Everything after [if (!activeRegion) return defaultTransform]; [st]
    is the carryover state as the reset left it. *)
Definition transformInRegion (r : ZoomRegion) (currentTime : R)
  (metadata : list MetaDataItem.t)
  (recordingGeometry frameContentDimensions : Size.t) (st : EngineState)
  : completion (TransformResult * EngineState) :=
  let zoomOutStartTime := startTime r + duration r - transitionDuration r in
  let zoomInEndTime := startTime r + transitionDuration r in
  let fixedOrigin := getTransformOrigin (targetX r) (targetY r) in
  let transformOrigin :=
    Percent (Point.x fixedOrigin * 100) (Point.y fixedOrigin * 100) in
  pans <- panTargets r currentTime metadata recordingGeometry
            frameContentDimensions ;;
  let '(initialPan, livePan, finalPan) := pans in
  if Num.geb currentTime (startTime r) && Num.ltb currentTime zoomInEndTime
  then
    (* Phase 1: zoom-in *)
    let t := easingFn (easing r)
               ((currentTime - startTime r) / transitionDuration r) in
    let currentScale := lerp 1 (zoomLevel r) t in
    let currentTranslateX := lerp 0 (Pan.tx initialPan) t in
    let currentTranslateY := lerp 0 (Pan.ty initialPan) t in
    Normal (mkTransform currentScale currentTranslateX currentTranslateY
              transformOrigin,
            mkState currentTranslateX currentTranslateY currentTime)
  else if Num.geb currentTime zoomInEndTime
          && Num.ltb currentTime zoomOutStartTime
  then
    (* Phase 2: pan/hold *)
    let currentScale := zoomLevel r in
    let alpha := frameAlpha currentTime st in
    let safeAlpha := Rmax 0 (Rmin 1 alpha) in
    let currentTranslateX := lerp (previousPanX st) (Pan.tx livePan) safeAlpha in
    let currentTranslateY := lerp (previousPanY st) (Pan.ty livePan) safeAlpha in
    Normal (mkTransform currentScale currentTranslateX currentTranslateY
              transformOrigin,
            mkState currentTranslateX currentTranslateY currentTime)
  else if Num.geb currentTime zoomOutStartTime
          && Num.leb currentTime (startTime r + duration r)
  then
    (* Phase 3: zoom-out *)
    let t := easingFn (easing r)
               ((currentTime - zoomOutStartTime) / transitionDuration r) in
    let currentScale := lerp (zoomLevel r) 1 t in
    target <- zoomOutTarget r currentTime t currentScale metadata
                recordingGeometry frameContentDimensions finalPan ;;
    let '(targetTx, targetTy) := target in
    let alpha := fluidAlpha currentTime t st in
    let currentTranslateX := lerp (previousPanX st) targetTx alpha in
    let currentTranslateY := lerp (previousPanY st) targetTy alpha in
    Normal (mkTransform currentScale currentTranslateX currentTranslateY
              transformOrigin,
            mkState currentTranslateX currentTranslateY currentTime)
  else
    Normal (mkTransform 1 0 0 transformOrigin,
            mkState (previousPanX st) (previousPanY st) currentTime).

(** The exported function; the carryover state goes in and comes out. *)
Definition calculateZoomTransform (currentTime : R)
  (zoomRegions : list (string * ZoomRegion))
  (metadata : list MetaDataItem.t)
  (recordingGeometry frameContentDimensions : Size.t) (st : EngineState)
  : completion (TransformResult * EngineState) :=
  let activeRegion := findActiveRegion currentTime zoomRegions in
  let st := resetTracking activeRegion currentTime st in
  match activeRegion with
  | None => Normal (defaultTransform, st)
  | Some r =>
      transformInRegion r currentTime metadata recordingGeometry
        frameContentDimensions st
  end.

End Engine.

(* ===================================================================== *)
(** ** Vocabulary of the statements *)
(* ===================================================================== *)

(** Timestamps never decrease along the array. *)
Definition nondecreasing (metadata : list MetaDataItem.t) : Prop :=
  forall i j a b,
    (i <= j)%Z ->
    at_index metadata i = Normal a ->
    at_index metadata j = Normal b ->
    MetaDataItem.timestamp a <= MetaDataItem.timestamp b.

(** Adjacent samples are in time order (a check that runs down the list). *)
Fixpoint ordered (metadata : list MetaDataItem.t) : Prop :=
  match metadata with
  | [] => True
  | a :: rest =>
      match rest with
      | [] => True
      | b :: _ => MetaDataItem.timestamp a <= MetaDataItem.timestamp b
      end /\ ordered rest
  end.

(** The pivot string of a region. *)
Definition regionOrigin (r : ZoomRegion) : OriginString :=
  Percent ((targetX r + 0.5) * 100) ((targetY r + 0.5) * 100).

(* ===================================================================== *)
(** ** The legal translation envelope, as the specification words it *)
(* ===================================================================== *)

(** [maxT = pivot * dim * (zoom - 1) / zoom] *)
Definition maxT (pivot dim zoom : R) : R :=
  (pivot * dim * (zoom - 1)) / zoom.

(** [minT = -(1 - pivot) * dim * (zoom - 1) / zoom] *)
Definition minT (pivot dim zoom : R) : R :=
  - ((1 - pivot) * dim * (zoom - 1)) / zoom.

(** The pan that would centre the normalised cursor coordinate [n], in the
    pre-scale convention ([targetTranslateX], [targetTranslateY]). *)
Definition desiredT (n pivot dim zoom : R) : R :=
  ((0.5 - ((n - pivot) * zoom + pivot)) * dim) / zoom.

(** The legal envelope of a region on a frame: both axes of a pan between
    [minT] and [maxT] for the region's pivot and zoom level. *)
Definition in_envelope (r : ZoomRegion) (frame : Size.t) (px py : R) : Prop :=
  (minT (targetX r + 0.5) (Size.width frame) (zoomLevel r) <= px
   <= maxT (targetX r + 0.5) (Size.width frame) (zoomLevel r)) /\
  (minT (targetY r + 0.5) (Size.height frame) (zoomLevel r) <= py
   <= maxT (targetY r + 0.5) (Size.height frame) (zoomLevel r)).


(** Successive calls of the engine at the given query times, with the same
    other arguments: the module-level variables persist from each call to
    the next, so the state a call leaves is the state the next one sees. *)
Fixpoint successiveCalls {ext : Externals} (times : list R)
  (zoomRegions : list (string * ZoomRegion)) (metadata : list MetaDataItem.t)
  (recordingGeometry frameContentDimensions : Size.t) (st : EngineState)
  : completion (list TransformResult * EngineState) :=
  match times with
  | [] => Normal ([], st)
  | t :: rest =>
      first <- calculateZoomTransform t zoomRegions metadata
                 recordingGeometry frameContentDimensions st ;;
      let '(res, st1) := first in
      others <- successiveCalls rest zoomRegions metadata
                  recordingGeometry frameContentDimensions st1 ;;
      let '(results, st2) := others in
      Normal (res :: results, st2)
  end.

(* ===================================================================== *)
(** ** The renderer ([src/lib/renderer-gl.ts]): what [render] computes *)
(* ===================================================================== *)

(** [PixiRenderer.render] paints a scene graph; the numbers it writes into
    that graph are computed by the blocks below, each a function of the
    fields of [RenderableState] it reads.  The scene graph itself (pixi.js)
    is not modelled.  The module-local [lerp] of renderer-gl.ts has the
    body of the one in transform.ts and is the same [lerp] here. *)

(** JavaScript's [!x] on a number: true for 0 (NaN is not represented). *)
Definition falsy (v : R) : bool := if Req_dec_T v 0 then true else false.

Record FrameLayout : Type := mkLayout {
  frameContentWidth : R;
  frameContentHeight : R;
  frameX : R;
  frameY : R
}.

(** "3. Dimensions & Layout", behind the early return on a video without
    width or height. *)
Definition frameLayout (padding outputWidth outputHeight : R)
  (videoDimensions : Size.t) : option FrameLayout :=
  if falsy (Size.width videoDimensions) || falsy (Size.height videoDimensions)
  then None
  else
    let paddingPercent := padding / 100 in
    let availableWidth := outputWidth * (1 - 2 * paddingPercent) in
    let availableHeight := outputHeight * (1 - 2 * paddingPercent) in
    let videoAspectRatio :=
      Size.width videoDimensions / Size.height videoDimensions in
    let '(frameContentWidth, frameContentHeight) :=
      if Num.gtb (availableWidth / availableHeight) videoAspectRatio
      then (availableHeight * videoAspectRatio, availableHeight)
      else (availableWidth, availableWidth / videoAspectRatio) in
    let frameX := (outputWidth - frameContentWidth) / 2 in
    let frameY := (outputHeight - frameContentHeight) / 2 in
    Some (mkLayout frameContentWidth frameContentHeight frameX frameY).

(** The fields of [state.webcamStyles] that size the webcam box. *)
Record WebcamStyles : Type := mkWebcamStyles {
  size : R;
  sizeOnZoom : R;
  scaleOnZoom : bool;
  shape : string
}.

(** "Calculate Interpolated Size": [lerp(startSize, targetSize, t)]. *)
Definition webcamSizePercent {ext : Externals} (webcamStyles : WebcamStyles)
  (currentTime : R) (zoomRegions : list (string * ZoomRegion)) : R :=
  let '(startSize, targetSize, t) :=
    if scaleOnZoom webcamStyles
    then
      match findActiveRegion currentTime zoomRegions with
      | Some activeZoomRegion =>
          let zoomInEndTime :=
            startTime activeZoomRegion + transitionDuration activeZoomRegion in
          let zoomOutStartTime :=
            startTime activeZoomRegion + duration activeZoomRegion
            - transitionDuration activeZoomRegion in
          if Num.ltb currentTime zoomInEndTime
          then (size webcamStyles, sizeOnZoom webcamStyles,
                easingFn (easing activeZoomRegion)
                  ((currentTime - startTime activeZoomRegion)
                   / transitionDuration activeZoomRegion))
          else if Num.geb currentTime zoomOutStartTime
          then (sizeOnZoom webcamStyles, size webcamStyles,
                easingFn (easing activeZoomRegion)
                  ((currentTime - zoomOutStartTime)
                   / transitionDuration activeZoomRegion))
          else (sizeOnZoom webcamStyles, sizeOnZoom webcamStyles, 1)
      | None => (size webcamStyles, sizeOnZoom webcamStyles, 0)
      end
    else (size webcamStyles, sizeOnZoom webcamStyles, 0) in
  lerp startSize targetSize t.

(** [(webcamW, webcamH)] from [baseSize = Math.min(outputWidth, outputHeight)]. *)
Definition webcamBox {ext : Externals} (webcamStyles : WebcamStyles)
  (currentTime : R) (zoomRegions : list (string * ZoomRegion))
  (outputWidth outputHeight : R) : R * R :=
  let baseSize := Rmin outputWidth outputHeight in
  let webcamW :=
    baseSize * (webcamSizePercent webcamStyles currentTime zoomRegions / 100) in
  if String.eqb (shape webcamStyles) "rectangle"
  then (webcamW, webcamW * (9 / 16))
  else (webcamW, webcamW).

Record SpriteBox : Type := mkSpriteBox {
  spriteWidth : R;
  spriteHeight : R;
  spriteX : R;
  spriteY : R
}.

(** "Scale sprite to Cover": the webcam sprite inside the rectangle
    [rect.width x rect.height] returned by [getWebcamRectForPosition]. *)
Definition webcamCover (wWidth wHeight rectWidth rectHeight : R) : SpriteBox :=
  let webcamAR := wWidth / wHeight in
  let targetAR := rectWidth / rectHeight in
  if Num.gtb webcamAR targetAR
  then
    let spriteHeight := rectHeight in
    let spriteWidth := rectHeight * webcamAR in
    mkSpriteBox spriteWidth spriteHeight (- (spriteWidth - rectWidth) / 2) 0
  else
    let spriteWidth := rectWidth in
    let spriteHeight := rectWidth / webcamAR in
    mkSpriteBox spriteWidth spriteHeight 0 (- (spriteHeight - rectHeight) / 2).

(** A sample as the renderer reads it: the engine's fields and the optional
    [type], [pressed] and [cursorImageKey]. *)
Module InputEvent.
Record t : Type := mk {
  item : MetaDataItem.t;
  type : option string;
  pressed : bool;
  cursorImageKey : option string
}.
End InputEvent.

(** The fields of [state.cursorStyles] read by [render]. *)
Record CursorStyles : Type := mkCursorStyles {
  showCursor : bool;
  clickRippleEffect : bool;
  clickRippleDuration : R;
  clickRippleSize : R;
  clickScaleEffect : bool;
  clickScaleDuration : R;
  clickScaleAmount : R;
  clickScaleEasing : string
}.

Definition isPressedClick (event : InputEvent.t) : bool :=
  match InputEvent.type event with
  | Some ty => String.eqb ty "click"
  | None => false
  end && InputEvent.pressed event.

Record Ripple : Type := mkRipple {
  rippleX : R;
  rippleY : R;
  rippleRadius : R;
  rippleOpacity : R
}.

(** "7. Clicks": one circle per recent pressed click. *)
Definition clickRipples {ext : Externals} (cursorStyles : CursorStyles)
  (recordingGeometry : option Size.t) (metadata : list InputEvent.t)
  (currentTime frameContentWidth frameContentHeight : R) : list Ripple :=
  match clickRippleEffect cursorStyles, recordingGeometry with
  | true, Some recordingGeometry =>
      let rippleEasing := EASING_Balanced in
      let recentRippleClicks :=
        List.filter
          (fun event =>
             isPressedClick event
             && Num.geb currentTime
                  (MetaDataItem.timestamp (InputEvent.item event))
             && Num.ltb currentTime
                  (MetaDataItem.timestamp (InputEvent.item event)
                   + clickRippleDuration cursorStyles))
          metadata in
      List.map
        (fun click =>
           let progress :=
             (currentTime - MetaDataItem.timestamp (InputEvent.item click))
             / clickRippleDuration cursorStyles in
           let easedProgress := rippleEasing progress in
           let currentRadius := easedProgress * clickRippleSize cursorStyles in
           let currentOpacity := 1 - easedProgress in
           let cursorX :=
             (MetaDataItem.x (InputEvent.item click)
              / Size.width recordingGeometry) * frameContentWidth in
           let cursorY :=
             (MetaDataItem.y (InputEvent.item click)
              / Size.height recordingGeometry) * frameContentHeight in
           mkRipple cursorX cursorY currentRadius currentOpacity)
        recentRippleClicks
  | _, _ => []
  end.

(** [array.pop()] on a fresh array: its last element, if any. *)
Definition pop {A : Type} (l : list A) : option A := List.hd_error (List.rev l).

(** [cursorScale] of "8. Cursor". *)
Definition cursorClickScale {ext : Externals} (cursorStyles : CursorStyles)
  (metadata : list InputEvent.t) (currentTime : R) : R :=
  if clickScaleEffect cursorStyles
  then
    let mostRecentClick :=
      pop (List.filter
             (fun e =>
                isPressedClick e
                && Num.leb (MetaDataItem.timestamp (InputEvent.item e))
                     currentTime
                && Num.gtb (MetaDataItem.timestamp (InputEvent.item e))
                     (currentTime - clickScaleDuration cursorStyles))
             metadata) in
    match mostRecentClick with
    | Some mostRecentClick =>
        let progress :=
          (currentTime
           - MetaDataItem.timestamp (InputEvent.item mostRecentClick))
          / clickScaleDuration cursorStyles in
        let easedProgress :=
          easingFn (clickScaleEasing cursorStyles) progress in
        1 - (1 - clickScaleAmount cursorStyles) * sin (easedProgress * PI)
    | None => 1
    end
  else 1.

(** An entry of [state.cursorBitmapsToRender]. *)
Record CursorData : Type := mkCursorData {
  imageBitmap : bool;
  cursorWidth : R;
  xhot : R;
  yhot : R
}.

(** What "8. Cursor" leaves in the cursor sprite when it is visible: the
    position (the second [position.set], which overrides the rounded one),
    the pivot and the scale. *)
Record CursorDraw : Type := mkCursorDraw {
  cursorPositionX : R;
  cursorPositionY : R;
  cursorPivotX : R;
  cursorPivotY : R;
  cursorScale : R
}.

(** "8. Cursor"; [None] is [cursorSprite.visible = false]. *)
Definition cursorSprite {ext : Externals} (cursorStyles : CursorStyles)
  (recordingGeometry : option Size.t)
  (cursorBitmapsToRender : string -> option CursorData)
  (metadata : list InputEvent.t)
  (currentTime frameContentWidth frameContentHeight : R)
  : completion (option CursorDraw) :=
  lastEventIndex <-
    findLastMetadataIndex (List.map InputEvent.item metadata) currentTime ;;
  match showCursor cursorStyles && (lastEventIndex >? -1)%Z,
        recordingGeometry with
  | true, Some recordingGeometry =>
      match List.nth_error metadata (Z.to_nat lastEventIndex) with
      | Some event =>
          if Num.ltb
               (currentTime - MetaDataItem.timestamp (InputEvent.item event))
               0.1
          then
            match match InputEvent.cursorImageKey event with
                  | Some key => cursorBitmapsToRender key
                  | None => None
                  end with
            | Some cursorData =>
                if imageBitmap cursorData
                   && Num.gtb (cursorWidth cursorData) 0
                then
                  let cursorX :=
                    (MetaDataItem.x (InputEvent.item event)
                     / Size.width recordingGeometry) * frameContentWidth in
                  let cursorY :=
                    (MetaDataItem.y (InputEvent.item event)
                     / Size.height recordingGeometry) * frameContentHeight in
                  Normal
                    (Some (mkCursorDraw cursorX cursorY
                             (xhot cursorData) (yhot cursorData)
                             (cursorClickScale cursorStyles metadata
                                currentTime)))
                else Normal None
            | None => Normal None
            end
          else Normal None
      | None => Normal None
      end
  | _, _ => Normal None
  end.

(* ===================================================================== *)
(** ** Sample data used by the examples *)
(* ===================================================================== *)

(** Four samples, two of them at timestamp 1. *)
Definition tie_samples : list MetaDataItem.t :=
  [ MetaDataItem.mk 0 10 10; MetaDataItem.mk 1 20 20;
    MetaDataItem.mk 1 30 30; MetaDataItem.mk 2 40 40 ].

(** A cursor that rests at (7, 7). *)
Definition resting_samples : list MetaDataItem.t :=
  [ MetaDataItem.mk 0 7 7; MetaDataItem.mk 1 7 7; MetaDataItem.mk 2 7 7 ].

(** A centred 2x region over [0, 10) with one-second transitions. *)
Definition demo_region (mode easing : string) : ZoomRegion :=
  mkZoomRegion 0 10 2 0 0 mode easing 1.

(** One possible content of ./easing, to run the engine on concrete
    inputs: three named curves and the fallback. *)
Definition example_easing (name : string) : option (R -> R) :=
  if String.eqb name "Linear" then Some (fun p => p)
  else if String.eqb name "Quadratic" then Some (fun p => p * p)
  else if String.eqb name "Early" then Some (fun p => Rmin 1 (2 * p))
  else None.

(** One possible content of ./constants together with [example_easing]. *)
Definition example_externals : Externals :=
  {| SMOOTHING_FACTOR := 0.5;
     DEAD_ZONE := 5;
     SMOOTHING_WINDOW := 0.3;
     EASING_MAP := example_easing;
     EASING_Balanced := fun p => p * p * (3 - 2 * p) |}.

(** A click at (960, 540) pressed at time 1 between two moves, with the
    arrow bitmap. *)
Definition click_events : list InputEvent.t :=
  [ InputEvent.mk (MetaDataItem.mk 0 100 100) (Some "move"%string) false
      (Some "arrow"%string);
    InputEvent.mk (MetaDataItem.mk 1 960 540) (Some "click"%string) true
      (Some "arrow"%string);
    InputEvent.mk (MetaDataItem.mk 2 970 540) (Some "move"%string) false
      (Some "arrow"%string) ].

Definition demo_cursorStyles : CursorStyles :=
  mkCursorStyles true true 0.5 20 true 0.4 0.8 "Linear".

Definition demo_bitmaps (key : string) : option CursorData :=
  if String.eqb key "arrow" then Some (mkCursorData true 32 4 4) else None.

(* ===================================================================== *)
(** ** The engine over IEEE-754 binary64 *)
(* ===================================================================== *)

(** The functions of transform.ts once more, over Rocq's primitive
    floating-point numbers: the binary64 arithmetic of a JavaScript
    [number], with rounding to nearest, signed zeros, infinities and NaN.
    A decimal literal of the source ([0.3], [0.016], ...) denotes the
    nearest double, here as in JavaScript.  The definitions compute, and
    serve to run the code where a statement turns on what the real numbers
    leave out: rounding, and division by zero.

    - Array indices stay integers ([Z]).
    - The two loops run on a step budget; the array length bounds the number
      of iterations, so the budget is never exhausted ([OutOfSteps] is
      never returned, see [binary64_search_loop_steps] and
      [binary64_smoothing_loop_steps]).
    - [Math.sqrt], [Math.abs], [Math.max] and [Math.min] are exact in
      ECMAScript; [Math.pow] is implementation-approximated and is a
      parameter, like the easing table and the constants. *)

Module Binary64.

Import PrimFloat.
Local Open Scope float_scope.

Inductive outcome (A : Type) : Type :=
| Returns (a : A)
| Throws
| OutOfSteps.

Arguments Returns {A} a.
Arguments Throws {A}.
Arguments OutOfSteps {A}.

Definition bind {A B : Type} (c : outcome A) (k : A -> outcome B)
  : outcome B :=
  match c with
  | Returns a => k a
  | Throws => Throws
  | OutOfSteps => OutOfSteps
  end.

Local Notation "x <~ c ;; k" := (bind c (fun x => k))
  (at level 61, c at next level, right associativity).

(** [a > b] and [a >= b]; like [<] and [<=], false when an operand is NaN. *)
Definition gtb (a b : float) : bool := b <? a.
Definition geb (a b : float) : bool := b <=? a.

(** [Math.max(a, b)]: NaN if an operand is NaN, and [+0] above [-0]. *)
Definition Math_max (a b : float) : float :=
  if is_nan a || is_nan b then nan
  else if a <? b then b
  else if b <? a then a
  else match classify a with
       | FloatClass.NZero => b
       | _ => a
       end.

(** [Math.min(a, b)]: NaN if an operand is NaN, and [-0] below [+0]. *)
Definition Math_min (a b : float) : float :=
  if is_nan a || is_nan b then nan
  else if a <? b then a
  else if b <? a then b
  else match classify a with
       | FloatClass.PZero => b
       | _ => a
       end.

Module MetaDataItem.
Record t : Type := mk { timestamp : float; x : float; y : float }.
End MetaDataItem.

Module Point.
Record t : Type := mk { x : float; y : float }.
End Point.

Module Size.
Record t : Type := mk { width : float; height : float }.
End Size.

Module Pan.
Record t : Type := mk { tx : float; ty : float }.
End Pan.

Record ZoomRegion : Type := mkZoomRegion {
  startTime : float;
  duration : float;
  zoomLevel : float;
  targetX : float;
  targetY : float;
  mode : string;
  easing : string;
  transitionDuration : float
}.

Inductive OriginString : Type :=
| Percent (px py : float).

Record TransformResult : Type := mkTransform {
  scale : float;
  translateX : float;
  translateY : float;
  transformOrigin : OriginString
}.

Record EngineState : Type := mkState {
  previousPanX : float;
  previousPanY : float;
  lastPanUpdateTime : float
}.

Definition initialState : EngineState := mkState 0 0 0.

Class Externals : Type := {
  SMOOTHING_FACTOR : float;
  DEAD_ZONE : float;
  SMOOTHING_WINDOW : float;
  EASING_MAP : string -> option (float -> float);
  EASING_Balanced : float -> float;
  Math_pow : float -> float -> float
}.

Definition lerp (start end_ t : float) : float := start * (1 - t) + end_ * t.

Definition at_index (metadata : list MetaDataItem.t) (i : Z)
  : outcome MetaDataItem.t :=
  if (i <? 0)%Z then Throws
  else match nth_error metadata (Z.to_nat i) with
       | Some m => Returns m
       | None => Throws
       end.

Definition array_length (metadata : list MetaDataItem.t) : Z :=
  Z.of_nat (List.length metadata).

(** The [while (left <= right)] loop of [findLastMetadataIndex]. *)
Fixpoint search_loop (steps : nat) (metadata : list MetaDataItem.t)
  (currentTime : float) (left_ right_ result : Z) {struct steps}
  : outcome Z :=
  if (left_ <=? right_)%Z
  then
    match steps with
    | O => OutOfSteps
    | S steps =>
        let mid := ((left_ + right_) / 2)%Z in
        match at_index metadata mid with
        | Returns m =>
            if MetaDataItem.timestamp m <=? currentTime
            then search_loop steps metadata currentTime (mid + 1)%Z right_ mid
            else search_loop steps metadata currentTime left_ (mid - 1)%Z result
        | Throws => Throws
        | OutOfSteps => OutOfSteps
        end
    end
  else Returns result.

Definition findLastMetadataIndex (metadata : list MetaDataItem.t)
  (currentTime : float) : outcome Z :=
  if (array_length metadata =? 0)%Z then Returns (-1)%Z
  else search_loop (List.length metadata) metadata currentTime
         0 (array_length metadata - 1) (-1).

(** The [for (let i = startIndex + 1; i <= endIndex; i++)] loop of
    [getSmoothedMousePosition]. *)
Fixpoint smoothing_loop (steps : nat) (metadata : list MetaDataItem.t)
  (smoothingFactor deadZone : float) (endIndex i : Z)
  (smoothedX smoothedY : float) {struct steps} : outcome (float * float) :=
  if (i <=? endIndex)%Z
  then
    match steps with
    | O => OutOfSteps
    | S steps =>
        match at_index metadata i with
        | Returns item =>
            let currentX := MetaDataItem.x item in
            let currentY := MetaDataItem.y item in
            let deltaX := currentX - smoothedX in
            let deltaY := currentY - smoothedY in
            let movementDistance := sqrt (deltaX * deltaX + deltaY * deltaY) in
            let effectiveSmoothingFactor :=
              if gtb movementDistance deadZone
              then smoothingFactor else smoothingFactor * 0.3 in
            smoothing_loop steps metadata smoothingFactor deadZone endIndex
              (i + 1)%Z
              (lerp smoothedX currentX effectiveSmoothingFactor)
              (lerp smoothedY currentY effectiveSmoothingFactor)
        | Throws => Throws
        | OutOfSteps => OutOfSteps
        end
    end
  else Returns (smoothedX, smoothedY).

Section Engine.

Context {ext : Externals}.

Definition getSmoothedMousePosition (metadata : list MetaDataItem.t)
  (targetTime smoothingFactor deadZone : float) : outcome (option Point.t) :=
  endIndex <~ findLastMetadataIndex metadata targetTime ;;
  if (endIndex <? 0)%Z then Returns None
  else
    let startTime := Math_max 0 (targetTime - SMOOTHING_WINDOW) in
    startIndex <~ findLastMetadataIndex metadata startTime ;;
    let startIndex := if (startIndex <? 0)%Z then 0%Z else startIndex in
    if (startIndex >=? array_length metadata)%Z then Returns None
    else
      anchor <~ at_index metadata startIndex ;;
      smoothed <~ smoothing_loop (List.length metadata) metadata
                    smoothingFactor deadZone endIndex (startIndex + 1)%Z
                    (MetaDataItem.x anchor) (MetaDataItem.y anchor) ;;
      let '(smoothedX, smoothedY) := smoothed in
      if (endIndex + 1 <? array_length metadata)%Z
      then
        nextEvent <~ at_index metadata (endIndex + 1)%Z ;;
        lastEvent <~ at_index metadata endIndex ;;
        let timeDiff :=
          MetaDataItem.timestamp nextEvent - MetaDataItem.timestamp lastEvent in
        if gtb timeDiff 0
        then
          let progress :=
            (targetTime - MetaDataItem.timestamp lastEvent) / timeDiff in
          let finalX := lerp smoothedX (MetaDataItem.x nextEvent) smoothingFactor in
          let finalY := lerp smoothedY (MetaDataItem.y nextEvent) smoothingFactor in
          Returns (Some (Point.mk (lerp smoothedX finalX progress)
                                  (lerp smoothedY finalY progress)))
        else Returns (Some (Point.mk smoothedX smoothedY))
      else Returns (Some (Point.mk smoothedX smoothedY)).

Definition calculateBoundedPan (mousePos : option Point.t) (origin : Point.t)
  (zoomLevel : float) (recordingGeometry frameContentDimensions : Size.t)
  : Pan.t :=
  match mousePos with
  | None => Pan.mk 0 0
  | Some mousePos =>
      let nsmx := Point.x mousePos / Size.width recordingGeometry in
      let nsmy := Point.y mousePos / Size.height recordingGeometry in
      let targetFinalPanX :=
        (0.5 - ((nsmx - Point.x origin) * zoomLevel + Point.x origin))
        * Size.width frameContentDimensions in
      let targetFinalPanY :=
        (0.5 - ((nsmy - Point.y origin) * zoomLevel + Point.y origin))
        * Size.height frameContentDimensions in
      let targetTranslateX := targetFinalPanX / zoomLevel in
      let targetTranslateY := targetFinalPanY / zoomLevel in
      let maxTx :=
        (Point.x origin * Size.width frameContentDimensions * (zoomLevel - 1))
        / zoomLevel in
      let minTx :=
        - ((1 - Point.x origin) * Size.width frameContentDimensions
           * (zoomLevel - 1)) / zoomLevel in
      let maxTy :=
        (Point.y origin * Size.height frameContentDimensions * (zoomLevel - 1))
        / zoomLevel in
      let minTy :=
        - ((1 - Point.y origin) * Size.height frameContentDimensions
           * (zoomLevel - 1)) / zoomLevel in
      let tx := Math_max minTx (Math_min maxTx targetTranslateX) in
      let ty := Math_max minTy (Math_min maxTy targetTranslateY) in
      Pan.mk tx ty
  end.

Definition getTransformOrigin (targetX targetY : float) : Point.t :=
  Point.mk (targetX + 0.5) (targetY + 0.5).

Definition PAN_SMOOTHING_FACTOR : float := 0.1.

Definition easingFn (easing : string) : float -> float :=
  match EASING_MAP easing with
  | Some f => f
  | None => EASING_Balanced
  end.

Definition Object_values (zoomRegions : list (string * ZoomRegion))
  : list ZoomRegion := List.map snd zoomRegions.

Definition inRegion (currentTime : float) (r : ZoomRegion) : bool :=
  geb currentTime (startTime r)
  && (currentTime <? startTime r + duration r).

Definition findActiveRegion (currentTime : float)
  (zoomRegions : list (string * ZoomRegion)) : option ZoomRegion :=
  List.find (inRegion currentTime) (Object_values zoomRegions).

Definition defaultTransform : TransformResult :=
  mkTransform 1 0 0 (Percent 50 50).

Definition isSome {A : Type} (o : option A) : bool :=
  match o with Some _ => true | None => false end.

Definition resetTracking (activeRegion : option ZoomRegion)
  (currentTime : float) (st : EngineState) : EngineState :=
  if negb (isSome activeRegion)
     || gtb (abs (currentTime - lastPanUpdateTime st)) 0.5
  then
    if isSome activeRegion
    then mkState 0 0 (lastPanUpdateTime st)
    else st
  else st.

Definition autoPan (r : ZoomRegion) (metadata : list MetaDataItem.t)
  (recordingGeometry : Size.t) : bool :=
  String.eqb (mode r) "auto"
  && (array_length metadata >? 0)%Z
  && gtb (Size.width recordingGeometry) 0.

Definition panTargets (r : ZoomRegion) (currentTime : float)
  (metadata : list MetaDataItem.t)
  (recordingGeometry frameContentDimensions : Size.t)
  : outcome (Pan.t * Pan.t * Pan.t) :=
  let zoomOutStartTime := startTime r + duration r - transitionDuration r in
  let zoomInEndTime := startTime r + transitionDuration r in
  let fixedOrigin := getTransformOrigin (targetX r) (targetY r) in
  if autoPan r metadata recordingGeometry
  then
    zoomInEndMousePos <~
      getSmoothedMousePosition metadata zoomInEndTime
        SMOOTHING_FACTOR DEAD_ZONE ;;
    let zoomInEndPan :=
      calculateBoundedPan zoomInEndMousePos fixedOrigin (zoomLevel r)
        recordingGeometry frameContentDimensions in
    liveMousePos <~
      getSmoothedMousePosition metadata currentTime
        SMOOTHING_FACTOR DEAD_ZONE ;;
    let livePan :=
      calculateBoundedPan liveMousePos fixedOrigin (zoomLevel r)
        recordingGeometry frameContentDimensions in
    finalMousePos <~
      getSmoothedMousePosition metadata zoomOutStartTime
        SMOOTHING_FACTOR DEAD_ZONE ;;
    let finalPan :=
      calculateBoundedPan finalMousePos fixedOrigin (zoomLevel r)
        recordingGeometry frameContentDimensions in
    Returns (zoomInEndPan, livePan, finalPan)
  else Returns (Pan.mk 0 0, Pan.mk 0 0, Pan.mk 0 0).

Definition frameAlpha (currentTime : float) (st : EngineState) : float :=
  let timeDelta := currentTime - lastPanUpdateTime st in
  if gtb timeDelta 0
  then (timeDelta / 0.016) * PAN_SMOOTHING_FACTOR
  else 0.

Definition cursorInfluence (t : float) : float :=
  if t <=? 0.05 then 1 - (t / 0.05) else 0.

Definition zoomOutTarget (r : ZoomRegion) (currentTime t currentScale : float)
  (metadata : list MetaDataItem.t)
  (recordingGeometry frameContentDimensions : Size.t) (finalPan : Pan.t)
  : outcome (float * float) :=
  let fixedOrigin := getTransformOrigin (targetX r) (targetY r) in
  if autoPan r metadata recordingGeometry
  then
    liveMousePos <~
      getSmoothedMousePosition metadata currentTime
        SMOOTHING_FACTOR DEAD_ZONE ;;
    let dynamicPan :=
      calculateBoundedPan liveMousePos fixedOrigin currentScale
        recordingGeometry frameContentDimensions in
    Returns (Pan.tx dynamicPan * cursorInfluence t,
             Pan.ty dynamicPan * cursorInfluence t)
  else Returns (lerp (Pan.tx finalPan) 0 t, lerp (Pan.ty finalPan) 0 t).

Definition fluidAlpha (currentTime t : float) (st : EngineState) : float :=
  let baseAlpha := frameAlpha currentTime st in
  let convergence := Math_pow t 4 in
  lerp (Math_max 0 (Math_min 1 baseAlpha)) 1 convergence.

Definition transformInRegion (r : ZoomRegion) (currentTime : float)
  (metadata : list MetaDataItem.t)
  (recordingGeometry frameContentDimensions : Size.t) (st : EngineState)
  : outcome (TransformResult * EngineState) :=
  let zoomOutStartTime := startTime r + duration r - transitionDuration r in
  let zoomInEndTime := startTime r + transitionDuration r in
  let fixedOrigin := getTransformOrigin (targetX r) (targetY r) in
  let transformOrigin :=
    Percent (Point.x fixedOrigin * 100) (Point.y fixedOrigin * 100) in
  pans <~ panTargets r currentTime metadata recordingGeometry
            frameContentDimensions ;;
  let '(initialPan, livePan, finalPan) := pans in
  if geb currentTime (startTime r) && (currentTime <? zoomInEndTime)
  then
    (* Phase 1: zoom-in *)
    let t := easingFn (easing r)
               ((currentTime - startTime r) / transitionDuration r) in
    let currentScale := lerp 1 (zoomLevel r) t in
    let currentTranslateX := lerp 0 (Pan.tx initialPan) t in
    let currentTranslateY := lerp 0 (Pan.ty initialPan) t in
    Returns (mkTransform currentScale currentTranslateX currentTranslateY
               transformOrigin,
             mkState currentTranslateX currentTranslateY currentTime)
  else if geb currentTime zoomInEndTime && (currentTime <? zoomOutStartTime)
  then
    (* Phase 2: pan/hold *)
    let currentScale := zoomLevel r in
    let alpha := frameAlpha currentTime st in
    let safeAlpha := Math_max 0 (Math_min 1 alpha) in
    let currentTranslateX := lerp (previousPanX st) (Pan.tx livePan) safeAlpha in
    let currentTranslateY := lerp (previousPanY st) (Pan.ty livePan) safeAlpha in
    Returns (mkTransform currentScale currentTranslateX currentTranslateY
               transformOrigin,
             mkState currentTranslateX currentTranslateY currentTime)
  else if geb currentTime zoomOutStartTime
          && (currentTime <=? startTime r + duration r)
  then
    (* Phase 3: zoom-out *)
    let t := easingFn (easing r)
               ((currentTime - zoomOutStartTime) / transitionDuration r) in
    let currentScale := lerp (zoomLevel r) 1 t in
    target <~ zoomOutTarget r currentTime t currentScale metadata
                recordingGeometry frameContentDimensions finalPan ;;
    let '(targetTx, targetTy) := target in
    let alpha := fluidAlpha currentTime t st in
    let currentTranslateX := lerp (previousPanX st) targetTx alpha in
    let currentTranslateY := lerp (previousPanY st) targetTy alpha in
    Returns (mkTransform currentScale currentTranslateX currentTranslateY
               transformOrigin,
             mkState currentTranslateX currentTranslateY currentTime)
  else
    Returns (mkTransform 1 0 0 transformOrigin,
             mkState (previousPanX st) (previousPanY st) currentTime).

Definition calculateZoomTransform (currentTime : float)
  (zoomRegions : list (string * ZoomRegion))
  (metadata : list MetaDataItem.t)
  (recordingGeometry frameContentDimensions : Size.t) (st : EngineState)
  : outcome (TransformResult * EngineState) :=
  let activeRegion := findActiveRegion currentTime zoomRegions in
  let st := resetTracking activeRegion currentTime st in
  match activeRegion with
  | None => Returns (defaultTransform, st)
  | Some r =>
      transformInRegion r currentTime metadata recordingGeometry
        frameContentDimensions st
  end.

End Engine.

(** Sample data: a cursor resting at (13, 13) from time 0 on, the same
    recorded from time 1 on, the demo region, and one possible content of
    ./easing and ./constants (the [Math.pow] given is repeated
    multiplication, for the one exponent the engine passes). *)
Definition steady_samples : list MetaDataItem.t :=
  [ MetaDataItem.mk 0 13 13; MetaDataItem.mk 1 13 13; MetaDataItem.mk 2 13 13 ].

Definition late_samples : list MetaDataItem.t :=
  [ MetaDataItem.mk 1 13 13; MetaDataItem.mk 2 13 13 ].

Definition demo_region (mode easing : string) : ZoomRegion :=
  mkZoomRegion 0 10 2 0 0 mode easing 1.

Definition example_easing (name : string) : option (float -> float) :=
  if String.eqb name "Linear" then Some (fun p => p) else None.

Definition example_externals : Externals :=
  {| SMOOTHING_FACTOR := 0.5;
     DEAD_ZONE := 5;
     SMOOTHING_WINDOW := 0.3;
     EASING_MAP := example_easing;
     EASING_Balanced := fun p => p * p * (3 - 2 * p);
     Math_pow := fun base _ => base * base * base * base |}.

End Binary64.

(* ===================================================================== *)
(** ** Basic facts: comparisons, interpolation, array reads *)
(* ===================================================================== *)

Lemma leb_true (a b : R) : a <= b -> Num.leb a b = true.
Proof. intros H. unfold Num.leb. destruct (Rle_dec a b); [reflexivity | contradiction]. Qed.

Lemma leb_false (a b : R) : b < a -> Num.leb a b = false.
Proof. intros H. unfold Num.leb. destruct (Rle_dec a b); [lra | reflexivity]. Qed.

Lemma ltb_true (a b : R) : a < b -> Num.ltb a b = true.
Proof. intros H. unfold Num.ltb. destruct (Rlt_dec a b); [reflexivity | contradiction]. Qed.

Lemma ltb_false (a b : R) : b <= a -> Num.ltb a b = false.
Proof. intros H. unfold Num.ltb. destruct (Rlt_dec a b); [lra | reflexivity]. Qed.

Lemma leb_spec (a b : R) : Num.leb a b = true <-> a <= b.
Proof.
  unfold Num.leb. destruct (Rle_dec a b); split; intros; try assumption;
    try reflexivity; try discriminate; contradiction.
Qed.

Lemma ltb_spec (a b : R) : Num.ltb a b = true <-> a < b.
Proof.
  unfold Num.ltb. destruct (Rlt_dec a b); split; intros; try assumption;
    try reflexivity; try discriminate; contradiction.
Qed.

Lemma geb_spec (a b : R) : Num.geb a b = true <-> b <= a.
Proof. apply leb_spec. Qed.

Lemma gtb_spec (a b : R) : Num.gtb a b = true <-> b < a.
Proof. apply ltb_spec. Qed.

Lemma lerp_0 (a b : R) : lerp a b 0 = a.
Proof. unfold lerp. ring. Qed.

Lemma lerp_1 (a b : R) : lerp a b 1 = b.
Proof. unfold lerp. ring. Qed.

Lemma lerp_same (a t : R) : lerp a a t = a.
Proof. unfold lerp. ring. Qed.

Lemma at_index_Normal (metadata : list MetaDataItem.t) (i : Z) (m : MetaDataItem.t) :
  at_index metadata i = Normal m ->
  (0 <= i < array_length metadata)%Z.
Proof.
  unfold at_index, array_length. intros H.
  destruct (Z.ltb_spec i 0); [discriminate |].
  destruct (nth_error metadata (Z.to_nat i)) eqn:E; [| discriminate].
  assert (Z.to_nat i < List.length metadata)%nat
    by (apply nth_error_Some; congruence).
  lia.
Qed.

Lemma at_index_in_bounds (metadata : list MetaDataItem.t) (i : Z) :
  (0 <= i < array_length metadata)%Z ->
  exists m, at_index metadata i = Normal m.
Proof.
  unfold at_index, array_length. intros H.
  destruct (Z.ltb_spec i 0); [lia |].
  destruct (nth_error metadata (Z.to_nat i)) eqn:E; [eauto |].
  apply nth_error_None in E. lia.
Qed.

Lemma array_length_nonneg (metadata : list MetaDataItem.t) :
  (0 <= array_length metadata)%Z.
Proof. unfold array_length. lia. Qed.

Lemma midpoint_between (lo hi : Z) :
  (lo <= hi)%Z -> (lo <= (lo + hi) / 2 <= hi)%Z.
Proof.
  intros H. split; [apply Z.div_le_lower_bound | apply Z.div_le_upper_bound]; lia.
Qed.

(* ===================================================================== *)
(** ** Temporal index *)
(* ===================================================================== *)

(** Whatever the order of the samples, the loop reads inside the array and
    ends on its initial [result] or on an index it has visited. *)
Lemma search_loop_range (metadata : list MetaDataItem.t) (T : R) :
  forall (n : nat) (lo hi res : Z),
    (Z.to_nat (hi - lo + 1) <= n)%nat ->
    (0 <= lo)%Z -> (hi < array_length metadata)%Z ->
    exists i,
      search_loop metadata T lo hi res = Normal i /\
      (i = res \/
       ((lo <= i <= hi)%Z /\
        exists m, at_index metadata i = Normal m /\ MetaDataItem.timestamp m <= T)).
Proof.
  induction n as [| n IH]; intros lo hi res Hn Hlo Hhi;
    rewrite search_loop_equation_1;
    destruct (Z_le_gt_dec lo hi) as [Hle | Hgt]; try (eexists; split; [reflexivity | now left]).
  - lia.
  - pose proof (midpoint_between lo hi Hle) as Hmid. cbv zeta.
    destruct (at_index_in_bounds metadata ((lo + hi) / 2)) as [m Hm]; [lia |].
    rewrite Hm.
    destruct (Rle_dec (MetaDataItem.timestamp m) T) as [Hts | Hts].
    + destruct (IH ((lo + hi) / 2 + 1)%Z hi ((lo + hi) / 2)%Z) as [i [Hi Hcase]];
        try lia.
      exists i. split; [exact Hi |]. right.
      destruct Hcase as [-> | [Hrange Hex]].
      * split; [lia | eauto].
      * split; [lia | exact Hex].
    + destruct (IH lo ((lo + hi) / 2 - 1)%Z res) as [i [Hi Hcase]]; try lia.
      exists i. split; [exact Hi |].
      destruct Hcase as [-> | [Hrange Hex]]; [now left | right].
      split; [lia | exact Hex].
Qed.

(** On a time-ordered array the loop keeps [result = left - 1], everything
    left of [left] at or before [T] and everything right of [right] after
    [T]; it ends on the boundary between the two. *)
Lemma search_loop_sorted (metadata : list MetaDataItem.t) (T : R) :
  nondecreasing metadata ->
  forall (n : nat) (lo hi : Z),
    (Z.to_nat (hi - lo + 1) <= n)%nat ->
    (0 <= lo)%Z -> (hi < array_length metadata)%Z -> (lo <= hi + 1)%Z ->
    (forall j m, (j < lo)%Z -> at_index metadata j = Normal m ->
                 MetaDataItem.timestamp m <= T) ->
    (forall j m, (hi < j)%Z -> at_index metadata j = Normal m ->
                 T < MetaDataItem.timestamp m) ->
    exists i,
      search_loop metadata T lo hi (lo - 1) = Normal i /\
      (lo - 1 <= i <= hi)%Z /\
      (forall j m, (j <= i)%Z -> at_index metadata j = Normal m ->
                   MetaDataItem.timestamp m <= T) /\
      (forall j m, (i < j)%Z -> at_index metadata j = Normal m ->
                   T < MetaDataItem.timestamp m).
Proof.
  intros Hsorted.
  induction n as [| n IH]; intros lo hi Hn Hlo Hhi Hlh Hbelow Habove;
    rewrite search_loop_equation_1;
    destruct (Z_le_gt_dec lo hi) as [Hle | Hgt].
  - lia.
  - exists (lo - 1)%Z. repeat split; try lia.
    + intros j m Hj. apply Hbelow. lia.
    + intros j m Hj. apply Habove. lia.
  - pose proof (midpoint_between lo hi Hle) as Hmid. cbv zeta.
    destruct (at_index_in_bounds metadata ((lo + hi) / 2)) as [m Hm]; [lia |].
    rewrite Hm.
    destruct (Rle_dec (MetaDataItem.timestamp m) T) as [Hts | Hts].
    + destruct (IH ((lo + hi) / 2 + 1)%Z hi) as [i [Hi [Hr [Hb Ha]]]]; try lia.
      * intros j a Hj Hja.
        apply Rle_trans with (MetaDataItem.timestamp m); [| exact Hts].
        apply (Hsorted j ((lo + hi) / 2)%Z); [lia | assumption | assumption].
      * exact Habove.
      * replace ((lo + hi) / 2 + 1 - 1)%Z with ((lo + hi) / 2)%Z in Hi by lia.
        exists i. repeat split; try lia; assumption.
    + destruct (IH lo ((lo + hi) / 2 - 1)%Z) as [i [Hi [Hr [Hb Ha]]]]; try lia.
      * exact Hbelow.
      * intros j a Hj Hja.
        apply Rlt_le_trans with (MetaDataItem.timestamp m); [lra |].
        apply (Hsorted ((lo + hi) / 2)%Z j); [lia | assumption | assumption].
      * exists i. repeat split; try lia; assumption.
  - exists (lo - 1)%Z. repeat split; try lia.
    + intros j m Hj. apply Hbelow. lia.
    + intros j m Hj. apply Habove. lia.
Qed.

(** The index is [-1] or inside the array, for any array. *)
Lemma findLastMetadataIndex_range (metadata : list MetaDataItem.t) (T : R) :
  exists i,
    findLastMetadataIndex metadata T = Normal i /\
    (i = (-1)%Z \/
     ((0 <= i < array_length metadata)%Z /\
      exists m, at_index metadata i = Normal m /\ MetaDataItem.timestamp m <= T)).
Proof.
  unfold findLastMetadataIndex.
  pose proof (array_length_nonneg metadata) as Hlen.
  destruct (Z.eqb_spec (array_length metadata) 0) as [E | E].
  - exists (-1)%Z. split; [reflexivity | now left].
  - destruct (search_loop_range metadata T
                (Z.to_nat (array_length metadata - 1 - 0 + 1))
                0 (array_length metadata - 1) (-1)) as [i [Hi Hcase]]; try lia.
    exists i. split; [exact Hi |].
    destruct Hcase as [-> | [Hr Hex]]; [now left | right].
    split; [lia | exact Hex].
Qed.

Lemma findLastMetadataIndex_sorted (metadata : list MetaDataItem.t) (T : R) :
  nondecreasing metadata ->
  exists i,
    findLastMetadataIndex metadata T = Normal i /\
    (-1 <= i < array_length metadata)%Z /\
    (forall j m, (j <= i)%Z -> at_index metadata j = Normal m ->
                 MetaDataItem.timestamp m <= T) /\
    (forall j m, (i < j)%Z -> at_index metadata j = Normal m ->
                 T < MetaDataItem.timestamp m).
Proof.
  intros Hsorted. unfold findLastMetadataIndex.
  pose proof (array_length_nonneg metadata) as Hlen.
  destruct (Z.eqb_spec (array_length metadata) 0) as [E | E].
  - exists (-1)%Z. repeat split; try lia.
    + intros j m Hj Hm. apply at_index_Normal in Hm. lia.
    + intros j m Hj Hm. apply at_index_Normal in Hm. lia.
  - destruct (search_loop_sorted metadata T Hsorted
                (Z.to_nat (array_length metadata - 1 - 0 + 1))
                0 (array_length metadata - 1)) as [i [Hi [Hr [Hb Ha]]]];
      try lia.
    + intros j m Hj Hm. apply at_index_Normal in Hm. lia.
    + intros j m Hj Hm. apply at_index_Normal in Hm. lia.
    + exists i. repeat split; try lia; assumption.
Qed.

(* ===================================================================== *)
(** ** Cursor position smoother *)
(* ===================================================================== *)

(** The loop reads [metadata[i]] for [i] up to [endIndex] only, so it ends
    normally as soon as [endIndex] is inside the array. *)
Lemma smoothing_loop_total (metadata : list MetaDataItem.t) (sf dz : R) (e : Z) :
  (e < array_length metadata)%Z ->
  forall (n : nat) (i : Z) (sx sy : R),
    (Z.to_nat (e + 1 - i) <= n)%nat -> (0 <= i)%Z ->
    exists p, smoothing_loop metadata sf dz e i sx sy = Normal p.
Proof.
  intros He.
  induction n as [| n IH]; intros i sx sy Hn Hi;
    rewrite smoothing_loop_equation_1;
    destruct (Z_le_gt_dec i e) as [Hle | Hgt]; try (eexists; reflexivity).
  - lia.
  - destruct (at_index_in_bounds metadata i) as [m Hm]; [lia |].
    rewrite Hm. cbv zeta. apply IH; lia.
Qed.

(** A run of samples that all sit at [(px, py)] leaves a smoothed value that
    already is [(px, py)] where it is. *)
Lemma smoothing_loop_constant (metadata : list MetaDataItem.t) (sf dz : R)
  (e : Z) (px py : R) :
  (e < array_length metadata)%Z ->
  forall (n : nat) (i : Z),
    (Z.to_nat (e + 1 - i) <= n)%nat -> (0 <= i)%Z ->
    (forall j m, (i <= j <= e)%Z -> at_index metadata j = Normal m ->
                 MetaDataItem.x m = px /\ MetaDataItem.y m = py) ->
    smoothing_loop metadata sf dz e i px py = Normal (px, py).
Proof.
  intros He.
  induction n as [| n IH]; intros i Hn Hi Hconst;
    rewrite smoothing_loop_equation_1;
    destruct (Z_le_gt_dec i e) as [Hle | Hgt]; try reflexivity.
  - lia.
  - destruct (at_index_in_bounds metadata i) as [m Hm]; [lia |].
    rewrite Hm. cbv zeta.
    destruct (Hconst i m) as [Hx Hy]; [lia | exact Hm |].
    rewrite Hx, Hy, !lerp_same.
    apply IH; try lia.
    intros j a Hj. apply Hconst. lia.
Qed.

Section SmootherFacts.

Context {ext : Externals}.

(** [getSmoothedMousePosition] never throws; it answers [null] exactly when
    the temporal index finds no sample at or before the target time. *)
Lemma getSmoothedMousePosition_total (metadata : list MetaDataItem.t)
  (T sf dz : R) :
  exists e,
    findLastMetadataIndex metadata T = Normal e /\
    ((e = (-1)%Z /\ getSmoothedMousePosition metadata T sf dz = Normal None) \/
     ((0 <= e < array_length metadata)%Z /\
      exists p, getSmoothedMousePosition metadata T sf dz = Normal (Some p))).
Proof.
  destruct (findLastMetadataIndex_range metadata T) as [e [He Hcase]].
  exists e. split; [exact He |].
  unfold getSmoothedMousePosition. rewrite He. cbn [bind].
  destruct Hcase as [-> | [Hr _]]; [left; split; reflexivity | right].
  split; [exact Hr |].
  destruct (Z.ltb_spec e 0) as [Hneg | _]; [lia |].
  destruct (findLastMetadataIndex_range metadata (Rmax 0 (T - SMOOTHING_WINDOW)))
    as [s [Hs Hscase]].
  rewrite Hs. cbn [bind].
  set (s' := if (s <? 0)%Z then 0%Z else s).
  assert (Hs' : (0 <= s' < array_length metadata)%Z).
  { subst s'. destruct Hscase as [-> | [Hsr _]].
    - cbn. lia.
    - destruct (Z.ltb_spec s 0); lia. }
  rewrite Z.geb_leb.
  destruct (Z.leb_spec (array_length metadata) s') as [Hbad | _]; [lia |].
  destruct (at_index_in_bounds metadata s') as [anchor Hanchor]; [lia |].
  rewrite Hanchor. cbn [bind].
  destruct (smoothing_loop_total metadata sf dz e (proj2 Hr)
              (Z.to_nat (e + 1 - (s' + 1))) (s' + 1)%Z
              (MetaDataItem.x anchor) (MetaDataItem.y anchor))
    as [[sx sy] Hloop]; try lia.
  rewrite Hloop. cbn [bind].
  destruct (Z.ltb_spec (e + 1) (array_length metadata)) as [Hnext | Hlast];
    [| eexists; reflexivity].
  destruct (at_index_in_bounds metadata (e + 1)) as [next Hnextm]; [lia |].
  destruct (at_index_in_bounds metadata e) as [last Hlastm]; [lia |].
  rewrite Hnextm, Hlastm. cbn [bind].
  destruct (Num.gtb _ 0); eexists; reflexivity.
Qed.

Lemma getSmoothedMousePosition_Normal (metadata : list MetaDataItem.t)
  (T sf dz : R) :
  exists o, getSmoothedMousePosition metadata T sf dz = Normal o.
Proof.
  destruct (getSmoothedMousePosition_total metadata T sf dz)
    as [e [_ [[_ H] | [_ [p H]]]]]; eauto.
Qed.

End SmootherFacts.

Lemma at_index_head (a : MetaDataItem.t) (rest : list MetaDataItem.t) :
  at_index (a :: rest) 0 = Normal a.
Proof. reflexivity. Qed.

Lemma at_index_tail (a : MetaDataItem.t) (rest : list MetaDataItem.t) (j : Z) :
  (0 < j)%Z -> at_index (a :: rest) j = at_index rest (j - 1).
Proof.
  intros Hj. unfold at_index.
  destruct (Z.ltb_spec j 0); [lia |].
  destruct (Z.ltb_spec (j - 1) 0); [lia |].
  replace (Z.to_nat j) with (S (Z.to_nat (j - 1))) by lia.
  reflexivity.
Qed.

Lemma ordered_head_le (rest : list MetaDataItem.t) :
  forall a, ordered (a :: rest) ->
  forall j b, at_index rest j = Normal b ->
  MetaDataItem.timestamp a <= MetaDataItem.timestamp b.
Proof.
  induction rest as [| c rest IH]; intros a Hord j b Hb.
  - apply at_index_Normal in Hb. unfold array_length in Hb. cbn in Hb. lia.
  - destruct Hord as [Hac Hrest].
    pose proof (at_index_Normal _ _ _ Hb) as Hj.
    destruct (Z.eq_dec j 0) as [-> | Hnz].
    + rewrite at_index_head in Hb. injection Hb as <-. exact Hac.
    + rewrite at_index_tail in Hb by lia.
      apply Rle_trans with (MetaDataItem.timestamp c); [exact Hac |].
      apply (IH c Hrest (j - 1)%Z b Hb).
Qed.

Lemma ordered_nondecreasing (metadata : list MetaDataItem.t) :
  ordered metadata -> nondecreasing metadata.
Proof.
  induction metadata as [| a rest IH]; intros Hord i j u v Hij Hu Hv.
  - apply at_index_Normal in Hu. unfold array_length in Hu. cbn in Hu. lia.
  - pose proof (at_index_Normal _ _ _ Hu) as Hi.
    pose proof (at_index_Normal _ _ _ Hv) as Hj.
    destruct (Z.eq_dec i 0) as [-> | Hinz].
    + rewrite at_index_head in Hu. injection Hu as <-.
      destruct (Z.eq_dec j 0) as [-> | Hjnz].
      * rewrite at_index_head in Hv. injection Hv as <-. apply Rle_refl.
      * rewrite at_index_tail in Hv by lia.
        apply (ordered_head_le rest a Hord (j - 1)%Z v Hv).
    + rewrite at_index_tail in Hu by lia.
      rewrite at_index_tail in Hv by lia.
      apply (IH (proj2 Hord) (i - 1)%Z (j - 1)%Z u v); [lia | assumption | assumption].
Qed.

(* ===================================================================== *)
(** ** C3 and C10: the temporal index and the reads of the smoother *)
(* ===================================================================== *)

(** C3.  On a sample sequence with non-decreasing timestamps and for every
    query time [T], [findLastMetadataIndex] returns normally an index [i]
    such that: [i = -1] exactly when no sample has a timestamp at or before
    [T]; otherwise [samples[i].timestamp <= T], and [i] is the last index or
    [samples[i+1].timestamp > T]; and no sample at or before [T] sits at a
    higher index (ties go to the highest index). *)
Theorem findLastMetadataIndex_temporal_index
  (metadata : list MetaDataItem.t) (T : R) :
  nondecreasing metadata ->
  exists i,
    findLastMetadataIndex metadata T = Normal i /\
    (i = (-1)%Z <->
     ~ exists j m, at_index metadata j = Normal m /\ MetaDataItem.timestamp m <= T) /\
    (i <> (-1)%Z ->
     (exists m, at_index metadata i = Normal m /\ MetaDataItem.timestamp m <= T) /\
     (i = (array_length metadata - 1)%Z \/
      exists m', at_index metadata (i + 1) = Normal m' /\
                 T < MetaDataItem.timestamp m') /\
     (forall j m, at_index metadata j = Normal m ->
                  MetaDataItem.timestamp m <= T -> (j <= i)%Z)).
Proof.
  intros Hsorted.
  destruct (findLastMetadataIndex_sorted metadata T Hsorted)
    as [i [Hi [Hr [Hb Ha]]]].
  exists i. split; [exact Hi |]. split; [split |].
  - intros -> [j [m [Hm Hts]]].
    pose proof (at_index_Normal _ _ _ Hm) as Hj.
    specialize (Ha j m ltac:(lia) Hm). lra.
  - intros Hnone.
    destruct (Z.eq_dec i (-1)) as [E | E]; [exact E | exfalso].
    destruct (at_index_in_bounds metadata i) as [m Hm]; [lia |].
    apply Hnone. exists i, m. split; [exact Hm |].
    apply (Hb i m); [lia | exact Hm].
  - intros Hne. split; [| split].
    + destruct (at_index_in_bounds metadata i) as [m Hm]; [lia |].
      exists m. split; [exact Hm |]. apply (Hb i m); [lia | exact Hm].
    + destruct (Z.eq_dec i (array_length metadata - 1)) as [E | E];
        [now left | right].
      destruct (at_index_in_bounds metadata (i + 1)) as [m' Hm']; [lia |].
      exists m'. split; [exact Hm' |]. apply (Ha (i + 1)%Z m'); [lia | exact Hm'].
    + intros j m Hm Hts.
      destruct (Z_le_gt_dec j i) as [Hle | Hgt]; [exact Hle | exfalso].
      specialize (Ha j m ltac:(lia) Hm). lra.
Qed.

(** C3 at a four-sample stream with a tie at timestamp 1, queried at 1. *)
Lemma findLastMetadataIndex_temporal_index_witness :
  exists i,
    findLastMetadataIndex tie_samples 1 = Normal i /\
    (i = (-1)%Z <->
     ~ exists j m, at_index tie_samples j = Normal m /\ MetaDataItem.timestamp m <= 1) /\
    (i <> (-1)%Z ->
     (exists m, at_index tie_samples i = Normal m /\ MetaDataItem.timestamp m <= 1) /\
     (i = (array_length tie_samples - 1)%Z \/
      exists m', at_index tie_samples (i + 1) = Normal m' /\
                 1 < MetaDataItem.timestamp m') /\
     (forall j m, at_index tie_samples j = Normal m ->
                  MetaDataItem.timestamp m <= 1 -> (j <= i)%Z)).
Proof.
  apply (findLastMetadataIndex_temporal_index tie_samples 1).
  apply ordered_nondecreasing. cbn. repeat split; lra.
Defined.

Section ReadsInBounds.

Context {ext : Externals}.

(** C10.  For every sample sequence (ordered or not) and query time:
    [findLastMetadataIndex] returns normally [-1] or an index inside the
    array; [getSmoothedMousePosition] completes without a TypeError, that
    is, the reads of the anchor [startIndex], of the loop indices
    [startIndex+1 .. endIndex], of [endIndex] and of the lookahead
    [endIndex+1] are all inside the array; the anchor index is below the
    length whenever [endIndex >= 0], so the early return guarded by
    [startIndex >= metadata.length] is never taken and the result is a
    position. *)
Theorem smoother_reads_in_bounds (metadata : list MetaDataItem.t)
  (T sf dz : R) :
  (exists i, findLastMetadataIndex metadata T = Normal i /\
             (i = (-1)%Z \/ (0 <= i < array_length metadata)%Z)) /\
  (exists o, getSmoothedMousePosition metadata T sf dz = Normal o) /\
  (forall e s,
     findLastMetadataIndex metadata T = Normal e -> (0 <= e)%Z ->
     findLastMetadataIndex metadata (Rmax 0 (T - SMOOTHING_WINDOW)) = Normal s ->
     ((if (s <? 0)%Z then 0 else s) < array_length metadata)%Z /\
     exists p, getSmoothedMousePosition metadata T sf dz = Normal (Some p)).
Proof.
  split; [| split].
  - destruct (findLastMetadataIndex_range metadata T) as [i [Hi Hcase]].
    exists i. split; [exact Hi |].
    destruct Hcase as [-> | [Hr _]]; [now left | now right].
  - apply getSmoothedMousePosition_Normal.
  - intros e s He Hpos Hs.
    destruct (getSmoothedMousePosition_total metadata T sf dz)
      as [e' [He' Hcase]].
    rewrite He in He'. injection He' as <-.
    destruct Hcase as [[-> _] | [Hr Hp]]; [lia |].
    split; [| exact Hp].
    destruct (findLastMetadataIndex_range metadata (Rmax 0 (T - SMOOTHING_WINDOW)))
      as [s' [Hs' Hscase]].
    rewrite Hs in Hs'. injection Hs' as <-.
    destruct Hscase as [-> | [Hsr _]].
    + cbn. lia.
    + destruct (Z.ltb_spec s 0); lia.
Qed.

End ReadsInBounds.

(* ===================================================================== *)
(** ** C4: bounded pan *)
(* ===================================================================== *)

Lemma clamp_between (lo hi v : R) :
  lo <= hi -> lo <= Rmax lo (Rmin hi v) <= hi.
Proof.
  intros H. split.
  - apply Rmax_l.
  - apply Rmax_lub; [exact H | apply Rmin_l].
Qed.

Lemma clamp01_range (a : R) : 0 <= Rmax 0 (Rmin 1 a) <= 1.
Proof. apply clamp_between. lra. Qed.

Lemma pow4_range (e : R) : 0 <= e <= 1 -> 0 <= e ^ 4 <= 1.
Proof.
  intros [H0 H1]. split.
  - apply pow_le. exact H0.
  - replace 1 with (1 ^ 4) by ring. apply pow_incr. lra.
Qed.

Lemma lerp_between (lo hi a b t : R) :
  0 <= t <= 1 -> lo <= a <= hi -> lo <= b <= hi -> lo <= lerp a b t <= hi.
Proof. intros Ht Ha Hb. unfold lerp. split; nra. Qed.

Lemma maxT_nonneg (pivot dim zoom : R) :
  0 <= pivot -> 0 <= dim -> 1 <= zoom -> 0 <= maxT pivot dim zoom.
Proof.
  intros Hp Hd Hz. unfold maxT, Rdiv.
  assert (0 < / zoom) by (apply Rinv_0_lt_compat; lra).
  apply Rmult_le_pos; [| lra].
  apply Rmult_le_pos; [| lra].
  apply Rmult_le_pos; assumption.
Qed.

Lemma minT_nonpos (pivot dim zoom : R) :
  pivot <= 1 -> 0 <= dim -> 1 <= zoom -> minT pivot dim zoom <= 0.
Proof.
  intros Hp Hd Hz. unfold minT.
  replace (- ((1 - pivot) * dim * (zoom - 1)) / zoom)
    with (- maxT (1 - pivot) dim zoom) by (unfold maxT, Rdiv; ring).
  pose proof (maxT_nonneg (1 - pivot) dim zoom). lra.
Qed.

Lemma calculateBoundedPan_Some (pos origin : Point.t) (zoom : R)
  (rec frame : Size.t) :
  calculateBoundedPan (Some pos) origin zoom rec frame =
  Pan.mk
    (Rmax (minT (Point.x origin) (Size.width frame) zoom)
       (Rmin (maxT (Point.x origin) (Size.width frame) zoom)
          (desiredT (Point.x pos / Size.width rec) (Point.x origin)
             (Size.width frame) zoom)))
    (Rmax (minT (Point.y origin) (Size.height frame) zoom)
       (Rmin (maxT (Point.y origin) (Size.height frame) zoom)
          (desiredT (Point.y pos / Size.height rec) (Point.y origin)
             (Size.height frame) zoom))).
Proof. reflexivity. Qed.

(** C4.  With the pivot in the unit square, positive geometries and a zoom
    level of at least 1, the pan returned by [calculateBoundedPan] for any
    cursor position (present or absent) lies per axis between
    [minT = -(1-pivot)*dim*(zoom-1)/zoom] and
    [maxT = pivot*dim*(zoom-1)/zoom]; at zoom level 1 both bounds are 0 and
    the pan is (0,0). *)
Theorem calculateBoundedPan_within_bounds
  (mousePos : option Point.t) (origin : Point.t) (zoom : R)
  (rec frame : Size.t) :
  0 <= Point.x origin <= 1 -> 0 <= Point.y origin <= 1 ->
  1 <= zoom ->
  0 < Size.width rec -> 0 < Size.height rec ->
  0 < Size.width frame -> 0 < Size.height frame ->
  let pan := calculateBoundedPan mousePos origin zoom rec frame in
  (minT (Point.x origin) (Size.width frame) zoom <= Pan.tx pan
   <= maxT (Point.x origin) (Size.width frame) zoom) /\
  (minT (Point.y origin) (Size.height frame) zoom <= Pan.ty pan
   <= maxT (Point.y origin) (Size.height frame) zoom) /\
  (zoom = 1 ->
   maxT (Point.x origin) (Size.width frame) zoom = 0 /\
   minT (Point.x origin) (Size.width frame) zoom = 0 /\
   maxT (Point.y origin) (Size.height frame) zoom = 0 /\
   minT (Point.y origin) (Size.height frame) zoom = 0 /\
   pan = Pan.mk 0 0).
Proof.
  intros [Hx0 Hx1] [Hy0 Hy1] Hz Hrw Hrh Hfw Hfh pan.
  pose proof (maxT_nonneg (Point.x origin) (Size.width frame) zoom Hx0
                (Rlt_le _ _ Hfw) Hz) as HMx.
  pose proof (minT_nonpos (Point.x origin) (Size.width frame) zoom Hx1
                (Rlt_le _ _ Hfw) Hz) as Hmx.
  pose proof (maxT_nonneg (Point.y origin) (Size.height frame) zoom Hy0
                (Rlt_le _ _ Hfh) Hz) as HMy.
  pose proof (minT_nonpos (Point.y origin) (Size.height frame) zoom Hy1
                (Rlt_le _ _ Hfh) Hz) as Hmy.
  assert (Hbx : minT (Point.x origin) (Size.width frame) zoom <= Pan.tx pan
                <= maxT (Point.x origin) (Size.width frame) zoom).
  { subst pan. destruct mousePos as [pos |].
    - rewrite calculateBoundedPan_Some. cbn [Pan.tx]. apply clamp_between. lra.
    - cbn. lra. }
  assert (Hby : minT (Point.y origin) (Size.height frame) zoom <= Pan.ty pan
                <= maxT (Point.y origin) (Size.height frame) zoom).
  { subst pan. destruct mousePos as [pos |].
    - rewrite calculateBoundedPan_Some. cbn [Pan.ty]. apply clamp_between. lra.
    - cbn. lra. }
  split; [exact Hbx |]. split; [exact Hby |].
  intros ->.
  assert (E : forall p d, maxT p d 1 = 0 /\ minT p d 1 = 0).
  { intros p d. unfold maxT, minT. split; field. }
  destruct (E (Point.x origin) (Size.width frame)) as [E1 E2].
  destruct (E (Point.y origin) (Size.height frame)) as [E3 E4].
  repeat split; try assumption.
  rewrite E1, E2 in Hbx. rewrite E3, E4 in Hby.
  destruct pan as [tx ty]. cbn in Hbx, Hby. f_equal; lra.
Qed.

(** C4 at a cursor in the top-left corner, zoom 2, centred pivot. *)
Lemma calculateBoundedPan_within_bounds_witness :
  let pan := calculateBoundedPan (Some (Point.mk 100 100)) (Point.mk 0.5 0.5) 2
               (Size.mk 1920 1080) (Size.mk 1280 720) in
  (minT 0.5 1280 2 <= Pan.tx pan <= maxT 0.5 1280 2) /\
  (minT 0.5 720 2 <= Pan.ty pan <= maxT 0.5 720 2) /\
  (2 = 1 ->
   maxT 0.5 1280 2 = 0 /\ minT 0.5 1280 2 = 0 /\
   maxT 0.5 720 2 = 0 /\ minT 0.5 720 2 = 0 /\
   pan = Pan.mk 0 0).
Proof.
  apply (calculateBoundedPan_within_bounds (Some (Point.mk 100 100))
           (Point.mk 0.5 0.5) 2 (Size.mk 1920 1080) (Size.mk 1280 720));
    cbn; lra.
Defined.

(* ===================================================================== *)
(** ** The state machine: region selection, guard, phases *)
(* ===================================================================== *)

Section StateMachine.

Context {ext : Externals}.

Lemma findActiveRegion_Some (t : R) (zoomRegions : list (string * ZoomRegion))
  (r : ZoomRegion) :
  findActiveRegion t zoomRegions = Some r ->
  startTime r <= t < startTime r + duration r.
Proof.
  unfold findActiveRegion. intros H. apply find_some in H.
  destruct H as [_ H]. unfold inRegion in H.
  apply andb_prop in H. destruct H as [H1 H2].
  apply geb_spec in H1. apply ltb_spec in H2. lra.
Qed.

Lemma autoPan_true (r : ZoomRegion) (metadata : list MetaDataItem.t)
  (rec : Size.t) :
  mode r = "auto"%string -> metadata <> [] -> 0 < Size.width rec ->
  autoPan r metadata rec = true.
Proof.
  intros Hm Hmd Hw. unfold autoPan. rewrite Hm, String.eqb_refl.
  unfold Num.gtb. rewrite (ltb_true 0 (Size.width rec) Hw).
  destruct metadata as [| a rest]; [contradiction |].
  unfold array_length. cbn [List.length].
  destruct (Z.gtb_spec (Z.of_nat (S (List.length rest))) 0) as [_ | Hbad];
    [reflexivity | lia].
Qed.

Lemma autoPan_no_width (r : ZoomRegion) (metadata : list MetaDataItem.t)
  (rec : Size.t) :
  Size.width rec <= 0 -> autoPan r metadata rec = false.
Proof.
  intros Hw. unfold autoPan, Num.gtb. rewrite (ltb_false 0 (Size.width rec) Hw).
  apply andb_false_r.
Qed.

Lemma autoPan_no_samples (r : ZoomRegion) (rec : Size.t) :
  autoPan r [] rec = false.
Proof. unfold autoPan. cbn. rewrite andb_false_r. reflexivity. Qed.

Lemma panTargets_auto (r : ZoomRegion) (t : R)
  (metadata : list MetaDataItem.t) (rec frame : Size.t) :
  autoPan r metadata rec = true ->
  exists pIn pLive pOut,
    getSmoothedMousePosition metadata (startTime r + transitionDuration r)
      SMOOTHING_FACTOR DEAD_ZONE = Normal pIn /\
    getSmoothedMousePosition metadata t SMOOTHING_FACTOR DEAD_ZONE
      = Normal pLive /\
    getSmoothedMousePosition metadata
      (startTime r + duration r - transitionDuration r)
      SMOOTHING_FACTOR DEAD_ZONE = Normal pOut /\
    panTargets r t metadata rec frame =
    Normal
      (calculateBoundedPan pIn (getTransformOrigin (targetX r) (targetY r))
         (zoomLevel r) rec frame,
       calculateBoundedPan pLive (getTransformOrigin (targetX r) (targetY r))
         (zoomLevel r) rec frame,
       calculateBoundedPan pOut (getTransformOrigin (targetX r) (targetY r))
         (zoomLevel r) rec frame).
Proof.
  intros Hauto.
  destruct (getSmoothedMousePosition_Normal metadata
              (startTime r + transitionDuration r) SMOOTHING_FACTOR DEAD_ZONE)
    as [pIn HIn].
  destruct (getSmoothedMousePosition_Normal metadata t
              SMOOTHING_FACTOR DEAD_ZONE) as [pLive HLive].
  destruct (getSmoothedMousePosition_Normal metadata
              (startTime r + duration r - transitionDuration r)
              SMOOTHING_FACTOR DEAD_ZONE) as [pOut HOut].
  exists pIn, pLive, pOut. repeat split; try assumption.
  unfold panTargets. rewrite Hauto, HIn. cbn [bind].
  rewrite HLive. cbn [bind]. rewrite HOut. reflexivity.
Qed.

Lemma panTargets_off (r : ZoomRegion) (t : R)
  (metadata : list MetaDataItem.t) (rec frame : Size.t) :
  autoPan r metadata rec = false ->
  panTargets r t metadata rec frame
  = Normal (Pan.mk 0 0, Pan.mk 0 0, Pan.mk 0 0).
Proof. intros H. unfold panTargets. rewrite H. reflexivity. Qed.

Lemma panTargets_total (r : ZoomRegion) (t : R)
  (metadata : list MetaDataItem.t) (rec frame : Size.t) :
  exists pans, panTargets r t metadata rec frame = Normal pans.
Proof.
  destruct (autoPan r metadata rec) eqn:E.
  - destruct (panTargets_auto r t metadata rec frame E)
      as [a [b [c [_ [_ [_ H]]]]]]. eauto.
  - rewrite (panTargets_off r t metadata rec frame E). eauto.
Qed.

Lemma zoomOutTarget_auto (r : ZoomRegion) (t e cs : R)
  (metadata : list MetaDataItem.t) (rec frame : Size.t) (finalPan : Pan.t) :
  autoPan r metadata rec = true ->
  exists pLive,
    getSmoothedMousePosition metadata t SMOOTHING_FACTOR DEAD_ZONE
      = Normal pLive /\
    zoomOutTarget r t e cs metadata rec frame finalPan =
    Normal
      (Pan.tx (calculateBoundedPan pLive
                 (getTransformOrigin (targetX r) (targetY r)) cs rec frame)
       * cursorInfluence e,
       Pan.ty (calculateBoundedPan pLive
                 (getTransformOrigin (targetX r) (targetY r)) cs rec frame)
       * cursorInfluence e).
Proof.
  intros Hauto.
  destruct (getSmoothedMousePosition_Normal metadata t
              SMOOTHING_FACTOR DEAD_ZONE) as [pLive HLive].
  exists pLive. split; [exact HLive |].
  unfold zoomOutTarget. rewrite Hauto, HLive. reflexivity.
Qed.

Lemma zoomOutTarget_off (r : ZoomRegion) (t e cs : R)
  (metadata : list MetaDataItem.t) (rec frame : Size.t) (finalPan : Pan.t) :
  autoPan r metadata rec = false ->
  zoomOutTarget r t e cs metadata rec frame finalPan
  = Normal (lerp (Pan.tx finalPan) 0 e, lerp (Pan.ty finalPan) 0 e).
Proof. intros H. unfold zoomOutTarget. rewrite H. reflexivity. Qed.

Lemma zoomOutTarget_total (r : ZoomRegion) (t e cs : R)
  (metadata : list MetaDataItem.t) (rec frame : Size.t) (finalPan : Pan.t) :
  exists target,
    zoomOutTarget r t e cs metadata rec frame finalPan = Normal target.
Proof.
  destruct (autoPan r metadata rec) eqn:E.
  - destruct (zoomOutTarget_auto r t e cs metadata rec frame finalPan E)
      as [p [_ H]]. eauto.
  - rewrite (zoomOutTarget_off r t e cs metadata rec frame finalPan E). eauto.
Qed.

(** Phase 1 is taken when [startTime <= t < startTime + transitionDuration]. *)
Lemma transformInRegion_zoomIn (r : ZoomRegion) (t : R)
  (metadata : list MetaDataItem.t) (rec frame : Size.t) (st : EngineState)
  (initialPan livePan finalPan : Pan.t) :
  panTargets r t metadata rec frame = Normal (initialPan, livePan, finalPan) ->
  startTime r <= t -> t < startTime r + transitionDuration r ->
  let e := easingFn (easing r) ((t - startTime r) / transitionDuration r) in
  transformInRegion r t metadata rec frame st =
  Normal (mkTransform (lerp 1 (zoomLevel r) e)
            (lerp 0 (Pan.tx initialPan) e) (lerp 0 (Pan.ty initialPan) e)
            (regionOrigin r),
          mkState (lerp 0 (Pan.tx initialPan) e) (lerp 0 (Pan.ty initialPan) e) t).
Proof.
  intros Hpans H1 H2 e. unfold transformInRegion. rewrite Hpans. cbn [bind].
  unfold Num.geb. rewrite (leb_true _ _ H1), (ltb_true _ _ H2).
  reflexivity.
Qed.

(** Phase 2 is taken when
    [startTime + transitionDuration <= t < startTime + duration - transitionDuration]. *)
Lemma transformInRegion_hold (r : ZoomRegion) (t : R)
  (metadata : list MetaDataItem.t) (rec frame : Size.t) (st : EngineState)
  (initialPan livePan finalPan : Pan.t) :
  panTargets r t metadata rec frame = Normal (initialPan, livePan, finalPan) ->
  startTime r + transitionDuration r <= t ->
  t < startTime r + duration r - transitionDuration r ->
  let a := Rmax 0 (Rmin 1 (frameAlpha t st)) in
  transformInRegion r t metadata rec frame st =
  Normal (mkTransform (zoomLevel r)
            (lerp (previousPanX st) (Pan.tx livePan) a)
            (lerp (previousPanY st) (Pan.ty livePan) a)
            (regionOrigin r),
          mkState (lerp (previousPanX st) (Pan.tx livePan) a)
            (lerp (previousPanY st) (Pan.ty livePan) a) t).
Proof.
  intros Hpans H1 H2 a. unfold transformInRegion. rewrite Hpans. cbn [bind].
  rewrite (ltb_false t (startTime r + transitionDuration r) H1).
  rewrite andb_false_r.
  unfold Num.geb. rewrite (leb_true _ _ H1), (ltb_true _ _ H2).
  reflexivity.
Qed.

(** Phase 3 is what remains of the region: the code reaches it when neither
    earlier test holds, that is from both [startTime + transitionDuration]
    and [startTime + duration - transitionDuration] on. *)
Lemma transformInRegion_zoomOut (r : ZoomRegion) (t : R)
  (metadata : list MetaDataItem.t) (rec frame : Size.t) (st : EngineState)
  (initialPan livePan finalPan : Pan.t) (targetTx targetTy : R) :
  panTargets r t metadata rec frame = Normal (initialPan, livePan, finalPan) ->
  startTime r + transitionDuration r <= t ->
  startTime r + duration r - transitionDuration r <= t ->
  t <= startTime r + duration r ->
  let e := easingFn (easing r)
             ((t - (startTime r + duration r - transitionDuration r))
              / transitionDuration r) in
  zoomOutTarget r t e (lerp (zoomLevel r) 1 e) metadata rec frame finalPan
  = Normal (targetTx, targetTy) ->
  transformInRegion r t metadata rec frame st =
  Normal (mkTransform (lerp (zoomLevel r) 1 e)
            (lerp (previousPanX st) targetTx (fluidAlpha t e st))
            (lerp (previousPanY st) targetTy (fluidAlpha t e st))
            (regionOrigin r),
          mkState (lerp (previousPanX st) targetTx (fluidAlpha t e st))
            (lerp (previousPanY st) targetTy (fluidAlpha t e st)) t).
Proof.
  intros Hpans H1 H2 H3 e Htarget. unfold transformInRegion.
  rewrite Hpans. cbn [bind].
  rewrite (ltb_false t (startTime r + transitionDuration r) H1).
  rewrite andb_false_r.
  rewrite (ltb_false t (startTime r + duration r - transitionDuration r) H2).
  rewrite andb_false_r.
  unfold Num.geb. rewrite (leb_true _ _ H2), (leb_true _ _ H3).
  cbn [andb]. fold e. rewrite Htarget. reflexivity.
Qed.

Lemma calculateZoomTransform_active (t : R)
  (zoomRegions : list (string * ZoomRegion)) (metadata : list MetaDataItem.t)
  (rec frame : Size.t) (st : EngineState) (r : ZoomRegion) :
  findActiveRegion t zoomRegions = Some r ->
  calculateZoomTransform t zoomRegions metadata rec frame st =
  transformInRegion r t metadata rec frame (resetTracking (Some r) t st).
Proof. intros H. unfold calculateZoomTransform. rewrite H. reflexivity. Qed.

Lemma calculateZoomTransform_inactive (t : R)
  (zoomRegions : list (string * ZoomRegion)) (metadata : list MetaDataItem.t)
  (rec frame : Size.t) (st : EngineState) :
  findActiveRegion t zoomRegions = None ->
  calculateZoomTransform t zoomRegions metadata rec frame st =
  Normal (defaultTransform, st).
Proof. intros H. unfold calculateZoomTransform. rewrite H. reflexivity. Qed.

Lemma resetTracking_jump (r : ZoomRegion) (t : R) (st : EngineState) :
  Rabs (t - lastPanUpdateTime st) > 0.5 ->
  resetTracking (Some r) t st = mkState 0 0 (lastPanUpdateTime st).
Proof.
  intros H. unfold resetTracking, Num.gtb. cbn [isSome negb orb].
  rewrite ltb_true by lra. reflexivity.
Qed.

Lemma resetTracking_near (r : ZoomRegion) (t : R) (st : EngineState) :
  Rabs (t - lastPanUpdateTime st) <= 0.5 ->
  resetTracking (Some r) t st = st.
Proof.
  intros H. unfold resetTracking, Num.gtb. cbn [isSome negb orb].
  rewrite ltb_false by lra. reflexivity.
Qed.


End StateMachine.

(* ===================================================================== *)
(** ** C8: the smoother on a constant stream *)
(* ===================================================================== *)

Lemma search_loop_done (metadata : list MetaDataItem.t) (T : R)
  (lo hi res : Z) :
  (hi < lo)%Z -> search_loop metadata T lo hi res = Normal res.
Proof.
  intros H. rewrite search_loop_equation_1.
  destruct (Z_le_gt_dec lo hi); [lia | reflexivity].
Qed.

Lemma search_loop_go_right (metadata : list MetaDataItem.t) (T : R)
  (lo hi res mid : Z) (m : MetaDataItem.t) :
  (lo <= hi)%Z -> mid = ((lo + hi) / 2)%Z ->
  at_index metadata mid = Normal m -> MetaDataItem.timestamp m <= T ->
  search_loop metadata T lo hi res = search_loop metadata T (mid + 1) hi mid.
Proof.
  intros Hle -> Hm Hts. rewrite search_loop_equation_1.
  destruct (Z_le_gt_dec lo hi); [| lia]. cbv zeta. rewrite Hm.
  destruct (Rle_dec (MetaDataItem.timestamp m) T); [reflexivity | contradiction].
Qed.

Lemma search_loop_go_left (metadata : list MetaDataItem.t) (T : R)
  (lo hi res mid : Z) (m : MetaDataItem.t) :
  (lo <= hi)%Z -> mid = ((lo + hi) / 2)%Z ->
  at_index metadata mid = Normal m -> T < MetaDataItem.timestamp m ->
  search_loop metadata T lo hi res = search_loop metadata T lo (mid - 1) res.
Proof.
  intros Hle -> Hm Hts. rewrite search_loop_equation_1.
  destruct (Z_le_gt_dec lo hi); [| lia]. cbv zeta. rewrite Hm.
  destruct (Rle_dec (MetaDataItem.timestamp m) T); [lra | reflexivity].
Qed.

Lemma smoothing_loop_done (metadata : list MetaDataItem.t) (sf dz : R)
  (e i : Z) (sx sy : R) :
  (e < i)%Z -> smoothing_loop metadata sf dz e i sx sy = Normal (sx, sy).
Proof.
  intros H. rewrite smoothing_loop_equation_1.
  destruct (Z_le_gt_dec i e); [lia | reflexivity].
Qed.

Section ConstantStream.

Context {ext : Externals}.

(** On a time-ordered stream queried at a non-negative time with a
    non-negative look-back window, the anchor is at or before the end index,
    so the smoother only ever touches samples at or before the query time
    and the one lookahead sample. *)
Lemma smoother_constant_stream (metadata : list MetaDataItem.t)
  (T sf dz px py : R) :
  nondecreasing metadata ->
  0 <= T -> 0 <= SMOOTHING_WINDOW ->
  (exists j m, at_index metadata j = Normal m /\ MetaDataItem.timestamp m <= T) ->
  (forall j m, at_index metadata j = Normal m -> MetaDataItem.timestamp m <= T ->
               MetaDataItem.x m = px /\ MetaDataItem.y m = py) ->
  (forall e m, findLastMetadataIndex metadata T = Normal e ->
               at_index metadata (e + 1) = Normal m ->
               MetaDataItem.x m = px /\ MetaDataItem.y m = py) ->
  getSmoothedMousePosition metadata T sf dz = Normal (Some (Point.mk px py)).
Proof.
  intros Hsorted HT HW [j0 [m0 [Hm0 Hts0]]] Hconst Hnext.
  destruct (findLastMetadataIndex_sorted metadata T Hsorted)
    as [e [He [Her [Heb Hea]]]].
  assert (He0 : (0 <= e)%Z).
  { pose proof (at_index_Normal _ _ _ Hm0) as Hj0.
    destruct (Z_le_gt_dec 0 e) as [H | H]; [exact H | exfalso].
    specialize (Hea j0 m0 ltac:(lia) Hm0). lra. }
  set (T0 := Rmax 0 (T - SMOOTHING_WINDOW)).
  assert (HT0 : T0 <= T) by (subst T0; apply Rmax_lub; lra).
  destruct (findLastMetadataIndex_sorted metadata T0 Hsorted)
    as [s [Hs [Hsr [Hsb _]]]].
  assert (Hse : (s <= e)%Z).
  { destruct (Z_le_gt_dec s e) as [H | H]; [exact H | exfalso].
    destruct (at_index_in_bounds metadata s) as [ms Hms]; [lia |].
    specialize (Hsb s ms ltac:(lia) Hms).
    specialize (Hea s ms ltac:(lia) Hms). lra. }
  unfold getSmoothedMousePosition. rewrite He. cbn [bind].
  destruct (Z.ltb_spec e 0) as [Hneg | _]; [lia |].
  fold T0. rewrite Hs. cbn [bind].
  set (s' := if (s <? 0)%Z then 0%Z else s).
  assert (Hs' : (0 <= s' <= e)%Z)
    by (subst s'; destruct (Z.ltb_spec s 0); lia).
  rewrite Z.geb_leb.
  destruct (Z.leb_spec (array_length metadata) s') as [Hbad | _]; [lia |].
  destruct (at_index_in_bounds metadata s') as [anchor Hanchor]; [lia |].
  rewrite Hanchor. cbn [bind].
  destruct (Hconst s' anchor Hanchor) as [Hax Hay].
  { apply (Heb s' anchor); [lia | exact Hanchor]. }
  rewrite Hax, Hay.
  rewrite (smoothing_loop_constant metadata sf dz e px py (proj2 Her)
             (Z.to_nat (e + 1 - (s' + 1))) (s' + 1)%Z); try lia.
  2:{ intros j m Hj Hm. apply (Hconst j m Hm). apply (Heb j m); [lia | exact Hm]. }
  cbn [bind].
  destruct (Z.ltb_spec (e + 1) (array_length metadata)) as [Hlook | Hlast];
    [| reflexivity].
  destruct (at_index_in_bounds metadata (e + 1)) as [next Hnextm]; [lia |].
  destruct (at_index_in_bounds metadata e) as [last Hlastm]; [lia |].
  rewrite Hnextm, Hlastm. cbn [bind].
  destruct (Hnext e next He Hnextm) as [Hnx Hny].
  destruct (Num.gtb _ 0); [| reflexivity].
  rewrite Hnx, Hny, !lerp_same. reflexivity.
Qed.

End ConstantStream.

Lemma findLastMetadataIndex_unfold (metadata : list MetaDataItem.t) (T : R)
  (n : Z) :
  array_length metadata = n -> (0 < n)%Z ->
  findLastMetadataIndex metadata T = search_loop metadata T 0 (n - 1) (-1).
Proof.
  intros <- Hn. unfold findLastMetadataIndex.
  destruct (Z.eqb_spec (array_length metadata) 0); [lia | reflexivity].
Qed.

Lemma at_index_In (metadata : list MetaDataItem.t) (j : Z) (m : MetaDataItem.t) :
  at_index metadata j = Normal m -> In m metadata.
Proof.
  unfold at_index. destruct (j <? 0)%Z; [discriminate |].
  destruct (nth_error metadata (Z.to_nat j)) eqn:E; [| discriminate].
  intros H. injection H as <-. apply (nth_error_In _ _ E).
Qed.

Section ConstantStreamClaim.

Context {ext : Externals}.

(** C8 (amended).  In exact arithmetic the constant stream is a fixed point
    of the smoother.  On the recording timeline, that is for a sample
    sequence with non-decreasing timestamps, a query time [T >= 0] and a
    non-negative smoothing window, if at least one sample is at or before
    [T] and every sample at or before [T], as well as the one lookahead
    sample after the end index, has position [(px, py)], then
    [getSmoothedMousePosition] returns exactly [(px, py)], for every
    smoothing factor and dead-zone radius.  (In binary64 the result can be
    one rounding away, see [smoother_rounding_counterexample].) *)
Theorem smoother_fixed_point (metadata : list MetaDataItem.t)
  (T sf dz px py : R) :
  nondecreasing metadata ->
  0 <= T -> 0 <= SMOOTHING_WINDOW ->
  (exists j m, at_index metadata j = Normal m /\ MetaDataItem.timestamp m <= T) ->
  (forall j m, at_index metadata j = Normal m -> MetaDataItem.timestamp m <= T ->
               MetaDataItem.x m = px /\ MetaDataItem.y m = py) ->
  (forall e m, findLastMetadataIndex metadata T = Normal e ->
               at_index metadata (e + 1) = Normal m ->
               MetaDataItem.x m = px /\ MetaDataItem.y m = py) ->
  getSmoothedMousePosition metadata T sf dz = Normal (Some (Point.mk px py)).
Proof. apply smoother_constant_stream. Qed.

End ConstantStreamClaim.

Lemma resting_samples_constant (j : Z) (m : MetaDataItem.t) :
  at_index resting_samples j = Normal m ->
  MetaDataItem.x m = 7 /\ MetaDataItem.y m = 7.
Proof.
  intros Hm. apply at_index_In in Hm. cbn in Hm.
  destruct Hm as [<- | [<- | [<- | []]]]; split; reflexivity.
Qed.

(** C8 (amended) on a cursor resting at (7, 7), queried at time 1. *)
Lemma smoother_fixed_point_witness :
  @getSmoothedMousePosition example_externals resting_samples 1 0.5 5
  = Normal (Some (Point.mk 7 7)).
Proof.
  apply (@smoother_fixed_point example_externals resting_samples 1 0.5 5 7 7).
  - apply ordered_nondecreasing. cbn. repeat split; lra.
  - lra.
  - cbn. lra.
  - exists 0%Z, (MetaDataItem.mk 0 7 7). split; [reflexivity | cbn; lra].
  - intros j m Hm _. exact (resting_samples_constant j m Hm).
  - intros e m _ Hm. exact (resting_samples_constant (e + 1) m Hm).
Defined.

(* ===================================================================== *)
(** ** C5: the zoom-in phase *)
(* ===================================================================== *)

Section ZoomIn.

Context {ext : Externals}.

(** C5 (amended).  For a call in the zoom-in phase of the active region
    ([startTime <= t < startTime + transitionDuration]) in auto mode, with
    samples present and a positive recording width: the pan target is the
    bounded pan of the smoothed cursor position evaluated at the zoom-in end
    time [startTime + transitionDuration] (not at [t]); the returned
    translate is [lerp(0, target, e(p))] with
    [p = (t - startTime) / transitionDuration] and [e] the region's easing
    (the scale being [lerp(1, zoomLevel, e(p))]); and the carryover pan left
    by the call equals the returned translate. *)
Theorem zoom_in_fixed_target (t : R) (zoomRegions : list (string * ZoomRegion))
  (metadata : list MetaDataItem.t) (rec frame : Size.t) (st : EngineState)
  (r : ZoomRegion) :
  findActiveRegion t zoomRegions = Some r ->
  t < startTime r + transitionDuration r ->
  mode r = "auto"%string ->
  metadata <> [] ->
  0 < Size.width rec ->
  exists pos,
    getSmoothedMousePosition metadata (startTime r + transitionDuration r)
      SMOOTHING_FACTOR DEAD_ZONE = Normal pos /\
    let target :=
      calculateBoundedPan pos (getTransformOrigin (targetX r) (targetY r))
        (zoomLevel r) rec frame in
    let e := easingFn (easing r) ((t - startTime r) / transitionDuration r) in
    exists res st',
      calculateZoomTransform t zoomRegions metadata rec frame st
      = Normal (res, st') /\
      scale res = lerp 1 (zoomLevel r) e /\
      translateX res = lerp 0 (Pan.tx target) e /\
      translateY res = lerp 0 (Pan.ty target) e /\
      previousPanX st' = translateX res /\
      previousPanY st' = translateY res /\
      lastPanUpdateTime st' = t.
Proof.
  intros Hact Hin Hmode Hmd Hw.
  pose proof (findActiveRegion_Some t zoomRegions r Hact) as [Hstart _].
  destruct (panTargets_auto r t metadata rec frame
              (autoPan_true r metadata rec Hmode Hmd Hw))
    as [pIn [pLive [pOut [HIn [_ [_ Hpans]]]]]].
  exists pIn. split; [exact HIn |]. intros target e.
  rewrite (calculateZoomTransform_active t zoomRegions metadata rec frame st r Hact).
  rewrite (transformInRegion_zoomIn r t metadata rec frame _ _ _ _ Hpans Hstart Hin).
  eexists. eexists. split; [reflexivity |].
  cbn. repeat split; reflexivity.
Qed.

End ZoomIn.

(** A centred 2x auto region over [0, 10) with one-second transitions. *)
Lemma demo_region_active (t : R) (name mode easing : string) :
  0 <= t < 10 ->
  @findActiveRegion t [(name, demo_region mode easing)]
  = Some (demo_region mode easing).
Proof.
  intros [H0 H10]. unfold findActiveRegion, Object_values, inRegion. cbn.
  unfold Num.geb. rewrite leb_true by lra. rewrite ltb_true by lra.
  reflexivity.
Qed.

(** C5 (amended) half-way through the zoom-in of the demo region. *)
Lemma zoom_in_fixed_target_witness :
  exists pos,
    @getSmoothedMousePosition example_externals resting_samples (0 + 1)
      0.5 5 = Normal pos /\
    let target :=
      calculateBoundedPan pos (getTransformOrigin 0 0) 2
        (Size.mk 1920 1080) (Size.mk 1280 720) in
    let e := @easingFn example_externals "Linear" ((0.5 - 0) / 1) in
    exists res st',
      @calculateZoomTransform example_externals 0.5
        [("z1"%string, demo_region "auto" "Linear")] resting_samples
        (Size.mk 1920 1080) (Size.mk 1280 720) initialState
      = Normal (res, st') /\
      scale res = lerp 1 2 e /\
      translateX res = lerp 0 (Pan.tx target) e /\
      translateY res = lerp 0 (Pan.ty target) e /\
      previousPanX st' = translateX res /\
      previousPanY st' = translateY res /\
      lastPanUpdateTime st' = 0.5.
Proof.
  apply (@zoom_in_fixed_target example_externals 0.5
           [("z1"%string, demo_region "auto" "Linear")] resting_samples
           (Size.mk 1920 1080) (Size.mk 1280 720) initialState
           (demo_region "auto" "Linear")).
  - apply demo_region_active. lra.
  - cbn. lra.
  - reflexivity.
  - discriminate.
  - cbn. lra.
Defined.

(* ===================================================================== *)
(** ** C9: the seek reset *)
(* ===================================================================== *)

(** C9.  The code at the failing input.  The comment on the reset reads
    "If no region or big time jump, reset tracking" and the outer test is
    [!activeRegion || |t - last| > 0.5], but the assignments sit under an
    inner [if (activeRegion)]: on a call that finds no active region nothing
    is reset.  With no region at all, a stale pan of (5, 5) recorded at
    time 0 and a query at time 10 (a jump of 10 s), the tracking state is
    left as it was. *)
Lemma seek_reset_counterexample :
  Rabs (10 - lastPanUpdateTime (mkState 5 5 0)) > 0.5 /\
  resetTracking (@findActiveRegion 10 []) 10 (mkState 5 5 0) = mkState 5 5 0 /\
  @calculateZoomTransform example_externals 10 [] resting_samples
    (Size.mk 1920 1080) (Size.mk 1280 720) (mkState 5 5 0)
  = Normal (defaultTransform, mkState 5 5 0) /\
  previousPanX (mkState 5 5 0) <> 0.
Proof.
  split; [| split; [| split]].
  - cbn [lastPanUpdateTime]. unfold Rabs. destruct (Rcase_abs (10 - 0)); lra.
  - reflexivity.
  - reflexivity.
  - cbn. lra.
Qed.

Section SeekReset.

Context {ext : Externals}.

(** The path on which the reset does happen: a call that finds an active
    region and whose query time differs from the recorded time
    [lastPanUpdateTime] by more than 0.5 s, in either direction, resets the
    carried pan to (0, 0) before the transform is computed, and returns
    exactly what it returns from the neutral carried pan. *)
Lemma seek_resets_carried_pan (t : R)
  (zoomRegions : list (string * ZoomRegion)) (metadata : list MetaDataItem.t)
  (rec frame : Size.t) (st : EngineState) (r : ZoomRegion) :
  findActiveRegion t zoomRegions = Some r ->
  Rabs (t - lastPanUpdateTime st) > 0.5 ->
  resetTracking (findActiveRegion t zoomRegions) t st
  = mkState 0 0 (lastPanUpdateTime st) /\
  calculateZoomTransform t zoomRegions metadata rec frame st
  = transformInRegion r t metadata rec frame (mkState 0 0 (lastPanUpdateTime st)) /\
  calculateZoomTransform t zoomRegions metadata rec frame st
  = calculateZoomTransform t zoomRegions metadata rec frame
      (mkState 0 0 (lastPanUpdateTime st)).
Proof.
  intros Hact Hjump.
  rewrite !(calculateZoomTransform_active t zoomRegions metadata rec frame _ r Hact).
  rewrite Hact.
  rewrite (resetTracking_jump r t st Hjump).
  rewrite (resetTracking_jump r t (mkState 0 0 (lastPanUpdateTime st)) Hjump).
  repeat split; reflexivity.
Qed.

End SeekReset.

(** A backwards seek from time 7 to time 5 inside the demo region. *)
Example seek_resets_carried_pan_example :
  resetTracking
    (@findActiveRegion 5 [("z1"%string, demo_region "auto" "Linear")])
    5 (mkState 40 (-30) 7)
  = mkState 0 0 7 /\
  @calculateZoomTransform example_externals 5
    [("z1"%string, demo_region "auto" "Linear")] resting_samples
    (Size.mk 1920 1080) (Size.mk 1280 720) (mkState 40 (-30) 7)
  = @transformInRegion example_externals (demo_region "auto" "Linear") 5
      resting_samples (Size.mk 1920 1080) (Size.mk 1280 720) (mkState 0 0 7) /\
  @calculateZoomTransform example_externals 5
    [("z1"%string, demo_region "auto" "Linear")] resting_samples
    (Size.mk 1920 1080) (Size.mk 1280 720) (mkState 40 (-30) 7)
  = @calculateZoomTransform example_externals 5
      [("z1"%string, demo_region "auto" "Linear")] resting_samples
      (Size.mk 1920 1080) (Size.mk 1280 720) (mkState 0 0 7).
Proof.
  apply (@seek_resets_carried_pan example_externals 5
           [("z1"%string, demo_region "auto" "Linear")] resting_samples
           (Size.mk 1920 1080) (Size.mk 1280 720) (mkState 40 (-30) 7)
           (demo_region "auto" "Linear")).
  - apply demo_region_active. lra.
  - cbn [lastPanUpdateTime]. unfold Rabs. destruct (Rcase_abs (5 - 7)); lra.
Defined.

(** The consequence: a stale pan survives a seek through an inactive call.
    In the hold phase at time 5 the carried pan is (40, 0).  A call at time
    20, after the region, leaves the state as it is, recorded time
    included.  The next call, back in the region at time 5.016, is 14.984 s
    away from the previous call but 16 ms away from the recorded time: no
    reset, and the pan is smoothed from the stale value, translateX = 36. *)
Example stale_pan_survives_seek :
  exists res2 st2,
    @calculateZoomTransform example_externals 20
      [("z1"%string, demo_region "fixed" "Linear")] []
      (Size.mk 1920 1080) (Size.mk 1280 720) (mkState 40 0 5)
    = Normal (defaultTransform, mkState 40 0 5) /\
    @calculateZoomTransform example_externals 5.016
      [("z1"%string, demo_region "fixed" "Linear")] []
      (Size.mk 1920 1080) (Size.mk 1280 720) (mkState 40 0 5)
    = Normal (res2, st2) /\
    translateX res2 = 36.
Proof.
  set (r := demo_region "fixed" "Linear").
  assert (Hnone : @findActiveRegion 20 [("z1"%string, r)] = None).
  { unfold findActiveRegion, Object_values, inRegion. cbn.
    rewrite (ltb_false 20) by lra. rewrite andb_false_r. reflexivity. }
  assert (Hact : @findActiveRegion 5.016 [("z1"%string, r)] = Some r)
    by (apply demo_region_active; lra).
  assert (Hpans : @panTargets example_externals r 5.016 []
                    (Size.mk 1920 1080) (Size.mk 1280 720)
                  = Normal (Pan.mk 0 0, Pan.mk 0 0, Pan.mk 0 0))
    by (apply panTargets_off, autoPan_no_samples).
  eexists. eexists. split.
  { apply calculateZoomTransform_inactive. exact Hnone. }
  split.
  { rewrite (calculateZoomTransform_active _ _ _ _ _ _ _ Hact).
    rewrite resetTracking_near
      by (cbn [lastPanUpdateTime]; unfold Rabs;
          destruct (Rcase_abs (5.016 - 5)); lra).
    apply (@transformInRegion_hold example_externals r 5.016 []
             _ _ _ _ _ _ Hpans); cbn; lra. }
  cbn [translateX previousPanX Pan.tx].
  unfold frameAlpha, Num.gtb, PAN_SMOOTHING_FACTOR.
  cbn [lastPanUpdateTime]. rewrite ltb_true by lra.
  rewrite (Rmin_right 1) by lra. rewrite Rmax_right by lra.
  unfold lerp. lra.
Qed.

(* ===================================================================== *)
(** ** The zoom-out phase at eased progress 1 *)
(* ===================================================================== *)

Lemma cursorInfluence_one : cursorInfluence 1 = 0.
Proof. unfold cursorInfluence. rewrite leb_false by lra. reflexivity. Qed.

Lemma fluidAlpha_one (t : R) (st : EngineState) : fluidAlpha t 1 st = 1.
Proof. unfold fluidAlpha, lerp. ring. Qed.

Section ZoomOutEnd.

Context {ext : Externals}.

Lemma zoomOutTarget_at_one (r : ZoomRegion) (t cs : R)
  (metadata : list MetaDataItem.t) (rec frame : Size.t) (finalPan : Pan.t) :
  zoomOutTarget r t 1 cs metadata rec frame finalPan = Normal (0, 0).
Proof.
  destruct (autoPan r metadata rec) eqn:E.
  - destruct (zoomOutTarget_auto r t 1 cs metadata rec frame finalPan E)
      as [p [_ H]].
    rewrite H, cursorInfluence_one. do 2 f_equal; ring.
  - rewrite (zoomOutTarget_off r t 1 cs metadata rec frame finalPan E).
    rewrite !lerp_1. reflexivity.
Qed.

(** Phase 3 with eased progress 1, from any carried state. *)
Lemma zoom_out_closing_run (r : ZoomRegion) (t : R)
  (metadata : list MetaDataItem.t) (rec frame : Size.t) (st : EngineState) :
  startTime r + transitionDuration r <= t ->
  startTime r + duration r - transitionDuration r <= t ->
  t <= startTime r + duration r ->
  easingFn (easing r)
    ((t - (startTime r + duration r - transitionDuration r))
     / transitionDuration r) = 1 ->
  transformInRegion r t metadata rec frame st
  = Normal (mkTransform 1 0 0 (regionOrigin r), mkState 0 0 t).
Proof.
  intros H1 H2 H3 He.
  destruct (panTargets_total r t metadata rec frame) as [[[ip lp] fp] Hpans].
  pose proof (transformInRegion_zoomOut r t metadata rec frame st ip lp fp
                0 0 Hpans H1 H2 H3) as Hrun.
  cbv zeta in Hrun. rewrite He in Hrun.
  rewrite Hrun by apply zoomOutTarget_at_one.
  rewrite fluidAlpha_one, !lerp_1. reflexivity.
Qed.

End ZoomOutEnd.

(** A curve that reaches 1 half-way through the zoom-out, inside the
    region: the call at time 9.5 already returns scale 1 and translate 0. *)
Example zoom_out_early_curve :
  @calculateZoomTransform example_externals 9.5
    [("z1"%string, demo_region "auto" "Early")] resting_samples
    (Size.mk 1920 1080) (Size.mk 1280 720) (mkState 40 (-30) 9.484)
  = Normal (mkTransform 1 0 0 (regionOrigin (demo_region "auto" "Early")),
            mkState 0 0 9.5).
Proof.
  rewrite (@calculateZoomTransform_active example_externals 9.5 _ _ _ _ _
             (demo_region "auto" "Early"))
    by (apply demo_region_active; lra).
  apply zoom_out_closing_run.
  - cbn. lra.
  - cbn. lra.
  - cbn. lra.
  - cbn. unfold Rmin.
    destruct (Rle_dec 1 (2 * ((9.5 - (0 + 10 - 1)) / 1))); lra.
Qed.

(* ===================================================================== *)
(** ** C6: the pan target of the zoom-out phase *)
(* ===================================================================== *)

Section ZoomOutTarget.

Context {ext : Externals}.

(** What a zoom-out call computes in auto mode. *)
Lemma zoom_out_run (t : R) (zoomRegions : list (string * ZoomRegion))
  (metadata : list MetaDataItem.t) (rec frame : Size.t) (st : EngineState)
  (r : ZoomRegion) :
  findActiveRegion t zoomRegions = Some r ->
  startTime r + transitionDuration r <= t ->
  startTime r + duration r - transitionDuration r <= t ->
  mode r = "auto"%string ->
  metadata <> [] ->
  0 < Size.width rec ->
  let e := easingFn (easing r)
             ((t - (startTime r + duration r - transitionDuration r))
              / transitionDuration r) in
  let currentScale := lerp (zoomLevel r) 1 e in
  let st0 := resetTracking (Some r) t st in
  exists pLive,
    getSmoothedMousePosition metadata t SMOOTHING_FACTOR DEAD_ZONE
    = Normal pLive /\
    let dynamicPan :=
      calculateBoundedPan pLive (getTransformOrigin (targetX r) (targetY r))
        currentScale rec frame in
    (e <= 0.05 -> cursorInfluence e = 1 - e / 0.05) /\
    (0.05 < e -> cursorInfluence e = 0) /\
    (forall finalPan,
       zoomOutTarget r t e currentScale metadata rec frame finalPan
       = Normal (Pan.tx dynamicPan * cursorInfluence e,
                 Pan.ty dynamicPan * cursorInfluence e)) /\
    calculateZoomTransform t zoomRegions metadata rec frame st
    = Normal
        (mkTransform currentScale
           (lerp (previousPanX st0) (Pan.tx dynamicPan * cursorInfluence e)
              (fluidAlpha t e st0))
           (lerp (previousPanY st0) (Pan.ty dynamicPan * cursorInfluence e)
              (fluidAlpha t e st0))
           (regionOrigin r),
         mkState
           (lerp (previousPanX st0) (Pan.tx dynamicPan * cursorInfluence e)
              (fluidAlpha t e st0))
           (lerp (previousPanY st0) (Pan.ty dynamicPan * cursorInfluence e)
              (fluidAlpha t e st0))
           t).
Proof.
  intros Hact H1 H2 Hmode Hmd Hw e currentScale st0.
  pose proof (findActiveRegion_Some t zoomRegions r Hact) as [_ Hend].
  pose proof (autoPan_true r metadata rec Hmode Hmd Hw) as Hauto.
  destruct (getSmoothedMousePosition_Normal metadata t
              SMOOTHING_FACTOR DEAD_ZONE) as [pLive HLive].
  exists pLive. split; [exact HLive |]. intros dynamicPan.
  assert (Htarget : forall finalPan,
             zoomOutTarget r t e currentScale metadata rec frame finalPan
             = Normal (Pan.tx dynamicPan * cursorInfluence e,
                       Pan.ty dynamicPan * cursorInfluence e)).
  { intros fp. unfold zoomOutTarget. rewrite Hauto, HLive. reflexivity. }
  split; [| split; [| split; [exact Htarget |]]].
  - intros Hle. unfold cursorInfluence. rewrite (leb_true _ _ Hle). reflexivity.
  - intros Hgt. unfold cursorInfluence. rewrite (leb_false _ _ Hgt). reflexivity.
  - rewrite (calculateZoomTransform_active t zoomRegions metadata rec frame st r Hact).
    destruct (panTargets_total r t metadata rec frame) as [[[ip lp] fp] Hpans].
    apply (transformInRegion_zoomOut r t metadata rec frame st0 ip lp fp
             _ _ Hpans H1 H2 (Rlt_le _ _ Hend)).
    apply Htarget.
Qed.

End ZoomOutTarget.

Lemma resting_samples_smoothed (T : R) :
  0 <= T ->
  @getSmoothedMousePosition example_externals resting_samples T 0.5 5
  = Normal (Some (Point.mk 7 7)).
Proof.
  intros HT.
  apply (@smoother_constant_stream example_externals resting_samples T 0.5 5 7 7).
  - apply ordered_nondecreasing. cbn. repeat split; lra.
  - exact HT.
  - cbn. lra.
  - exists 0%Z, (MetaDataItem.mk 0 7 7). split; [reflexivity | cbn; lra].
  - intros j m Hm _. exact (resting_samples_constant j m Hm).
  - intros e m _ Hm. exact (resting_samples_constant (e + 1) m Hm).
Qed.

(** C6, as stated, fails for an easing that is not the identity.  With the
    curve [p * p], at raw progress 0.2 the eased progress is 0.04: the code
    applies the influence [1 - 0.04 / 0.05 = 0.2] to a non-zero bounded
    pan, where the raw progress (0.2 > 0.05) would give influence 0.  After
    a seek (alpha 1) the returned translate is that non-zero target. *)
Lemma zoom_out_influence_counterexample :
  let r := demo_region "auto" "Quadratic" in
  let rec := Size.mk 1920 1080 in
  let frame := Size.mk 1280 720 in
  let p := (9.2 - (0 + 10 - 1)) / 1 in
  let e := @easingFn example_externals "Quadratic" p in
  let dynamicPan :=
    calculateBoundedPan (Some (Point.mk 7 7)) (getTransformOrigin 0 0)
      (lerp 2 1 e) rec frame in
  p = 0.2 /\ e = 0.04 /\
  @getSmoothedMousePosition example_externals resting_samples 9.2 0.5 5
  = Normal (Some (Point.mk 7 7)) /\
  (forall finalPan,
     @zoomOutTarget example_externals r 9.2 e (lerp 2 1 e) resting_samples
       rec frame finalPan
     = Normal (Pan.tx dynamicPan * 0.2, Pan.ty dynamicPan * 0.2)) /\
  (exists res st',
     @calculateZoomTransform example_externals 9.2 [("z1"%string, r)]
       resting_samples rec frame initialState = Normal (res, st') /\
     translateX res = Pan.tx dynamicPan * 0.2) /\
  cursorInfluence p = 0 /\
  Pan.tx dynamicPan * 0.2 <> Pan.tx dynamicPan * cursorInfluence p.
Proof.
  intros r rec frame p e dynamicPan.
  assert (Hp : p = 0.2) by (subst p; lra).
  assert (He : e = 0.04) by (subst e; cbn; rewrite Hp; lra).
  assert (Hinf : cursorInfluence e = 0.2).
  { unfold cursorInfluence. rewrite leb_true by lra. rewrite He. lra. }
  assert (Hraw : cursorInfluence p = 0).
  { unfold cursorInfluence. rewrite leb_false by lra. reflexivity. }
  assert (Hpos : 0 < Pan.tx dynamicPan).
  { subst dynamicPan. rewrite calculateBoundedPan_Some. cbn [Pan.tx].
    eapply Rlt_le_trans; [| apply Rmax_r].
    rewrite He. unfold maxT, desiredT, lerp. cbn.
    apply Rmin_glb_lt; lra. }
  destruct (@zoom_out_run example_externals 9.2 [("z1"%string, r)]
              resting_samples rec frame initialState r)
    as [pLive [HLive [_ [_ [Htarget Hrun]]]]].
  { apply demo_region_active. lra. }
  { cbn. lra. }
  { cbn. lra. }
  { reflexivity. }
  { discriminate. }
  { cbn. lra. }
  change (@getSmoothedMousePosition example_externals resting_samples 9.2 0.5 5
          = Normal pLive) in HLive.
  rewrite resting_samples_smoothed in HLive by lra.
  injection HLive as <-.
  change (easingFn (easing r)
            ((9.2 - (startTime r + duration r - transitionDuration r))
             / transitionDuration r)) with e in Htarget, Hrun.
  change (lerp (zoomLevel r) 1 e) with (lerp 2 1 e) in Htarget, Hrun.
  fold dynamicPan in Htarget, Hrun.
  rewrite Hinf in Htarget, Hrun.
  repeat split.
  - exact Hp.
  - exact He.
  - apply resting_samples_smoothed. lra.
  - exact Htarget.
  - eexists. eexists. split; [exact Hrun |].
    cbn [translateX].
    assert (Ha : fluidAlpha 9.2 e (resetTracking (Some r) 9.2 initialState) = 1).
    { rewrite resetTracking_jump
        by (cbn [lastPanUpdateTime initialState]; unfold Rabs;
            destruct (Rcase_abs (9.2 - 0)); lra).
      unfold fluidAlpha, frameAlpha, Num.gtb, initialState.
      cbn [lastPanUpdateTime].
      rewrite ltb_true by lra.
      unfold PAN_SMOOTHING_FACTOR.
      rewrite (Rmin_left 1) by lra. rewrite Rmax_right by lra.
      unfold lerp. ring. }
    rewrite Ha, lerp_1. reflexivity.
  - exact Hraw.
  - rewrite Hraw. lra.
Qed.

Section ZoomOutTargetClaim.

Context {ext : Externals}.

(** C6 (amended).  During the zoom-out phase in auto mode, with samples and
    a positive recording width, the pan target equals the live bounded pan
    at [t] (solved at the current interpolated scale) multiplied by a
    cursor-influence factor that is [1 - e/0.05] when [e <= 0.05] and 0
    otherwise, where [e] is the EASED zoom-out progress
    [easing((t - zoomOutStart) / transitionDuration)]; the returned
    translate is the carried pan moved toward that target by the phase's
    alpha. *)
Theorem zoom_out_target_eased (t : R)
  (zoomRegions : list (string * ZoomRegion)) (metadata : list MetaDataItem.t)
  (rec frame : Size.t) (st : EngineState) (r : ZoomRegion) :
  findActiveRegion t zoomRegions = Some r ->
  startTime r + transitionDuration r <= t ->
  startTime r + duration r - transitionDuration r <= t ->
  mode r = "auto"%string ->
  metadata <> [] ->
  0 < Size.width rec ->
  let e := easingFn (easing r)
             ((t - (startTime r + duration r - transitionDuration r))
              / transitionDuration r) in
  let currentScale := lerp (zoomLevel r) 1 e in
  let st0 := resetTracking (Some r) t st in
  exists pLive,
    getSmoothedMousePosition metadata t SMOOTHING_FACTOR DEAD_ZONE
    = Normal pLive /\
    let dynamicPan :=
      calculateBoundedPan pLive (getTransformOrigin (targetX r) (targetY r))
        currentScale rec frame in
    (e <= 0.05 -> cursorInfluence e = 1 - e / 0.05) /\
    (0.05 < e -> cursorInfluence e = 0) /\
    (forall finalPan,
       zoomOutTarget r t e currentScale metadata rec frame finalPan
       = Normal (Pan.tx dynamicPan * cursorInfluence e,
                 Pan.ty dynamicPan * cursorInfluence e)) /\
    calculateZoomTransform t zoomRegions metadata rec frame st
    = Normal
        (mkTransform currentScale
           (lerp (previousPanX st0) (Pan.tx dynamicPan * cursorInfluence e)
              (fluidAlpha t e st0))
           (lerp (previousPanY st0) (Pan.ty dynamicPan * cursorInfluence e)
              (fluidAlpha t e st0))
           (regionOrigin r),
         mkState
           (lerp (previousPanX st0) (Pan.tx dynamicPan * cursorInfluence e)
              (fluidAlpha t e st0))
           (lerp (previousPanY st0) (Pan.ty dynamicPan * cursorInfluence e)
              (fluidAlpha t e st0))
           t).
Proof. apply zoom_out_run. Qed.

End ZoomOutTargetClaim.

(** C6 (amended) on the demo region with the quadratic curve, 0.2 s into
    the zoom-out. *)
Lemma zoom_out_target_eased_witness :
  let t := 9.2 in
  let r := demo_region "auto" "Quadratic" in
  let zoomRegions := [("z1"%string, r)] in
  let rec := Size.mk 1920 1080 in
  let frame := Size.mk 1280 720 in
  let st := mkState 40 (-30) 9.184 in
  let e := @easingFn example_externals (easing r)
             ((t - (startTime r + duration r - transitionDuration r))
              / transitionDuration r) in
  let currentScale := lerp (zoomLevel r) 1 e in
  let st0 := resetTracking (Some r) t st in
  exists pLive,
    @getSmoothedMousePosition example_externals resting_samples t
      (@SMOOTHING_FACTOR example_externals) (@DEAD_ZONE example_externals)
    = Normal pLive /\
    let dynamicPan :=
      calculateBoundedPan pLive (getTransformOrigin (targetX r) (targetY r))
        currentScale rec frame in
    (e <= 0.05 -> cursorInfluence e = 1 - e / 0.05) /\
    (0.05 < e -> cursorInfluence e = 0) /\
    (forall finalPan,
       @zoomOutTarget example_externals r t e currentScale resting_samples
         rec frame finalPan
       = Normal (Pan.tx dynamicPan * cursorInfluence e,
                 Pan.ty dynamicPan * cursorInfluence e)) /\
    @calculateZoomTransform example_externals t zoomRegions resting_samples
      rec frame st
    = Normal
        (mkTransform currentScale
           (lerp (previousPanX st0) (Pan.tx dynamicPan * cursorInfluence e)
              (fluidAlpha t e st0))
           (lerp (previousPanY st0) (Pan.ty dynamicPan * cursorInfluence e)
              (fluidAlpha t e st0))
           (regionOrigin r),
         mkState
           (lerp (previousPanX st0) (Pan.tx dynamicPan * cursorInfluence e)
              (fluidAlpha t e st0))
           (lerp (previousPanY st0) (Pan.ty dynamicPan * cursorInfluence e)
              (fluidAlpha t e st0))
           t).
Proof.
  intros t r zoomRegions rec frame st.
  apply (@zoom_out_target_eased example_externals t zoomRegions
           resting_samples rec frame st r).
  - apply demo_region_active. subst t. lra.
  - subst t. cbn. lra.
  - subst t. cbn. lra.
  - reflexivity.
  - discriminate.
  - cbn. lra.
Defined.

(* ===================================================================== *)
(** ** C1: calling twice at the same query time *)
(* ===================================================================== *)

Lemma frameAlpha_same_frame (t px py : R) :
  frameAlpha t (mkState px py t) = 0.
Proof.
  unfold frameAlpha, Num.gtb. cbn [lastPanUpdateTime].
  rewrite ltb_false by lra. reflexivity.
Qed.

Lemma clamp01_zero : Rmax 0 (Rmin 1 0) = 0.
Proof. rewrite Rmin_right by lra. apply Rmax_left. lra. Qed.

Lemma fluidAlpha_same_frame (t e px py : R) :
  fluidAlpha t e (mkState px py t) = e ^ 4.
Proof.
  unfold fluidAlpha. rewrite frameAlpha_same_frame, clamp01_zero.
  unfold lerp. ring.
Qed.

Lemma resetTracking_same_frame (r : ZoomRegion) (t px py : R) :
  resetTracking (Some r) t (mkState px py t) = mkState px py t.
Proof.
  apply resetTracking_near. cbn [lastPanUpdateTime].
  replace (t - t) with 0 by ring. rewrite Rabs_R0. lra.
Qed.

Section SameFrame.

Context {ext : Externals}.

(** The second of two calls at the same query time, phase by phase: the
    result is repeated with no active region, in the zoom-in phase and in
    the hold phase; in the zoom-out phase the translate moves by the
    convergence factor. *)
Lemma second_call (t : R) (zoomRegions : list (string * ZoomRegion))
  (metadata : list MetaDataItem.t) (rec frame : Size.t) (st : EngineState) :
  exists res1 st1 res2 st2,
    calculateZoomTransform t zoomRegions metadata rec frame st
    = Normal (res1, st1) /\
    calculateZoomTransform t zoomRegions metadata rec frame st1
    = Normal (res2, st2) /\
    scale res2 = scale res1 /\
    transformOrigin res2 = transformOrigin res1 /\
    (findActiveRegion t zoomRegions = None -> res2 = res1 /\ st2 = st1) /\
    (forall r, findActiveRegion t zoomRegions = Some r ->
       (t < startTime r + transitionDuration r \/
        t < startTime r + duration r - transitionDuration r ->
        res2 = res1 /\ st2 = st1) /\
       (startTime r + transitionDuration r <= t ->
        startTime r + duration r - transitionDuration r <= t ->
        let e := easingFn (easing r)
                   ((t - (startTime r + duration r - transitionDuration r))
                    / transitionDuration r) in
        exists initialPan livePan finalPan targetTx targetTy,
          panTargets r t metadata rec frame
          = Normal (initialPan, livePan, finalPan) /\
          zoomOutTarget r t e (lerp (zoomLevel r) 1 e) metadata rec frame
            finalPan = Normal (targetTx, targetTy) /\
          translateX res2 = lerp (translateX res1) targetTx (e ^ 4) /\
          translateY res2 = lerp (translateY res1) targetTy (e ^ 4))).
Proof.
  destruct (findActiveRegion t zoomRegions) as [r |] eqn:Hact.
  2:{ exists defaultTransform, st, defaultTransform, st.
      rewrite !(calculateZoomTransform_inactive t zoomRegions metadata rec frame _ Hact).
      repeat split; try reflexivity; intros r' Hr'; discriminate. }
  pose proof (findActiveRegion_Some t zoomRegions r Hact) as [Hstart Hend].
  destruct (panTargets_total r t metadata rec frame) as [[[ip lp] fp] Hpans].
  set (st0 := resetTracking (Some r) t st).
  destruct (Rlt_le_dec t (startTime r + transitionDuration r)) as [Hin | Hnin].
  { (* zoom-in *)
    pose proof (fun s => transformInRegion_zoomIn r t metadata rec frame s
                           ip lp fp Hpans Hstart Hin) as Hrun.
    cbv zeta in Hrun.
    eexists. eexists. eexists. eexists.
    split; [rewrite (calculateZoomTransform_active _ _ _ _ _ _ _ Hact);
            apply Hrun |].
    split; [rewrite (calculateZoomTransform_active _ _ _ _ _ _ _ Hact);
            apply Hrun |].
    split; [reflexivity |]. split; [reflexivity |].
    split; [intros Hc; discriminate |].
    intros r' Hr'. injection Hr' as <-. split.
    - intros _. split; reflexivity.
    - intros; exfalso; lra. }
  destruct (Rlt_le_dec t (startTime r + duration r - transitionDuration r))
    as [Hhold | Hout].
  { (* hold *)
    pose proof (fun s => transformInRegion_hold r t metadata rec frame s
                           ip lp fp Hpans Hnin Hhold) as Hrun.
    cbv zeta in Hrun.
    eexists. eexists. eexists. eexists.
    split; [rewrite (calculateZoomTransform_active _ _ _ _ _ _ _ Hact);
            apply Hrun |].
    split.
    { rewrite (calculateZoomTransform_active _ _ _ _ _ _ _ Hact).
      rewrite resetTracking_same_frame, Hrun.
      rewrite frameAlpha_same_frame, clamp01_zero, !lerp_0.
      cbn [previousPanX previousPanY]. reflexivity. }
    split; [reflexivity |]. split; [reflexivity |].
    split; [intros Hc; discriminate |].
    intros r' Hr'. injection Hr' as <-. split.
    - intros _. split; reflexivity.
    - intros; exfalso; lra. }
  (* zoom-out *)
  set (e := easingFn (easing r)
              ((t - (startTime r + duration r - transitionDuration r))
               / transitionDuration r)).
  destruct (zoomOutTarget_total r t e (lerp (zoomLevel r) 1 e) metadata rec
              frame fp) as [[ttx tty] Htarget].
  pose proof (fun s => transformInRegion_zoomOut r t metadata rec frame s
                         ip lp fp ttx tty Hpans Hnin Hout (Rlt_le _ _ Hend)
                         Htarget) as Hrun.
  eexists. eexists. eexists. eexists.
  split; [rewrite (calculateZoomTransform_active _ _ _ _ _ _ _ Hact);
          apply Hrun |].
  split.
  { rewrite (calculateZoomTransform_active _ _ _ _ _ _ _ Hact).
    rewrite resetTracking_same_frame, Hrun. fold e.
    rewrite fluidAlpha_same_frame.
    cbn [previousPanX previousPanY]. reflexivity. }
  split; [reflexivity |]. split; [reflexivity |].
  split; [intros Hc; discriminate |].
  intros r' Hr'. injection Hr' as <-. split.
  - intros [H | H]; exfalso; lra.
  - intros _ _. exists ip, lp, fp, ttx, tty.
    split; [exact Hpans |]. split; [exact Htarget |].
    split; reflexivity.
Qed.

End SameFrame.

(** C1.  The code at the failing input.  The hold phase guards the repeated
    call ("If delta is 0 (same frame), don't change") and the zoom-out
    phase copies that guard into [baseAlpha], but then blends the alpha
    toward 1 by [t^4], which is not 0 on a repeated call.  Fixed mode, no
    samples, linear easing, half-way through the zoom-out (eased progress
    0.5), a carried pan of (16, 0) recorded one 16 ms frame earlier: the
    first call returns translateX = 13.5 and leaves it as carried pan; the
    second call, with the same arguments, moves it again, by the
    convergence factor 0.5^4, and returns 12.65625. *)
Lemma same_frame_counterexample :
  exists res1 st1 res2 st2,
    @calculateZoomTransform example_externals 9.5
      [("z1"%string, demo_region "fixed" "Linear")] []
      (Size.mk 1920 1080) (Size.mk 1280 720) (mkState 16 0 9.484)
    = Normal (res1, st1) /\
    @calculateZoomTransform example_externals 9.5
      [("z1"%string, demo_region "fixed" "Linear")] []
      (Size.mk 1920 1080) (Size.mk 1280 720) st1
    = Normal (res2, st2) /\
    translateX res1 = 13.5 /\
    translateX res2 = 12.65625 /\
    res1 <> res2.
Proof.
  set (r := demo_region "fixed" "Linear").
  set (rec := Size.mk 1920 1080). set (frame := Size.mk 1280 720).
  assert (Hact : @findActiveRegion 9.5 [("z1"%string, r)] = Some r)
    by (apply demo_region_active; lra).
  assert (Hpans : @panTargets example_externals r 9.5 [] rec frame
                  = Normal (Pan.mk 0 0, Pan.mk 0 0, Pan.mk 0 0))
    by (apply panTargets_off, autoPan_no_samples).
  assert (He : @easingFn example_externals (easing r)
                 ((9.5 - (startTime r + duration r - transitionDuration r))
                  / transitionDuration r) = 0.5) by (cbn; lra).
  assert (Htarget : @zoomOutTarget example_externals r 9.5 0.5 (lerp (zoomLevel r) 1 0.5)
                      [] rec frame (Pan.mk 0 0) = Normal (0, 0)).
  { rewrite zoomOutTarget_off by apply autoPan_no_samples.
    cbn [Pan.tx Pan.ty]. rewrite lerp_same. reflexivity. }
  assert (Hrun : forall s,
             @transformInRegion example_externals r 9.5 [] rec frame s
             = Normal
                 (mkTransform (lerp (zoomLevel r) 1 0.5)
                    (lerp (previousPanX s) 0 (fluidAlpha 9.5 0.5 s))
                    (lerp (previousPanY s) 0 (fluidAlpha 9.5 0.5 s))
                    (regionOrigin r),
                  mkState
                    (lerp (previousPanX s) 0 (fluidAlpha 9.5 0.5 s))
                    (lerp (previousPanY s) 0 (fluidAlpha 9.5 0.5 s)) 9.5)).
  { intros s.
    pose proof (@transformInRegion_zoomOut example_externals r 9.5 [] rec
                  frame s (Pan.mk 0 0) (Pan.mk 0 0) (Pan.mk 0 0) 0 0 Hpans)
      as H.
    cbv zeta in H. rewrite He in H.
    apply H; try exact Htarget; cbn; lra. }
  assert (Hfirst : fluidAlpha 9.5 0.5 (mkState 16 0 9.484) = 0.15625).
  { unfold fluidAlpha, frameAlpha, Num.gtb, PAN_SMOOTHING_FACTOR.
    cbn [lastPanUpdateTime]. rewrite ltb_true by lra.
    rewrite (Rmin_right 1) by lra. rewrite Rmax_right by lra.
    unfold lerp. simpl pow. lra. }
  assert (Hsecond : forall px py, fluidAlpha 9.5 0.5 (mkState px py 9.5) = 0.0625).
  { intros px py. rewrite fluidAlpha_same_frame. simpl pow. lra. }
  eexists. eexists. eexists. eexists.
  split.
  { rewrite (calculateZoomTransform_active _ _ _ _ _ _ _ Hact).
    rewrite resetTracking_near
      by (cbn [lastPanUpdateTime]; unfold Rabs;
          destruct (Rcase_abs (9.5 - 9.484)); lra).
    apply Hrun. }
  split.
  { rewrite (calculateZoomTransform_active _ _ _ _ _ _ _ Hact).
    rewrite resetTracking_same_frame. apply Hrun. }
  cbn [translateX previousPanX previousPanY].
  rewrite Hfirst, (Hsecond (lerp 16 0 0.15625) (lerp 0 0 0.15625)).
  assert (E1 : lerp 16 0 0.15625 = 13.5) by (unfold lerp; lra).
  rewrite E1.
  assert (E2 : lerp 13.5 0 0.0625 = 12.65625) by (unfold lerp; lra).
  rewrite E2.
  split; [reflexivity |]. split; [reflexivity |].
  intros H. injection H as Hx Hy. lra.
Qed.

(* ===================================================================== *)
(** ** C2: degenerate geometry *)
(* ===================================================================== *)




Section DegenerateGeometry.

Context {ext : Externals}.



End DegenerateGeometry.


(* ===================================================================== *)
(** ** The engine in binary64: step budget, and two runs *)
(* ===================================================================== *)

Lemma binary64_at_index_steps (metadata : list Binary64.MetaDataItem.t)
  (i : Z) :
  Binary64.at_index metadata i <> Binary64.OutOfSteps.
Proof.
  unfold Binary64.at_index. destruct (i <? 0)%Z; [discriminate |].
  destruct (nth_error metadata (Z.to_nat i)); discriminate.
Qed.

(** The binary search halves an interval of at most [steps] indices: the
    budget is never exhausted. *)
Lemma binary64_search_loop_steps (steps : nat)
  (metadata : list Binary64.MetaDataItem.t) (T : PrimFloat.float)
  (l r res : Z) :
  (r - l + 1 <= Z.of_nat steps)%Z ->
  Binary64.search_loop steps metadata T l r res <> Binary64.OutOfSteps.
Proof.
  revert l r res.
  induction steps as [| n IH]; intros l r res Hn; cbn [Binary64.search_loop];
    destruct (Z.leb_spec l r) as [Hle | Hgt]; try discriminate; try lia.
  pose proof (midpoint_between l r Hle) as Hmid.
  pose proof (binary64_at_index_steps metadata ((l + r) / 2)) as Hat.
  destruct (Binary64.at_index metadata ((l + r) / 2));
    [| discriminate | contradiction].
  destruct (PrimFloat.leb _ T); apply IH; lia.
Qed.

Lemma binary64_search_loop_below (steps : nat)
  (metadata : list Binary64.MetaDataItem.t) (T : PrimFloat.float)
  (bound l r res k : Z) :
  (res <= bound)%Z -> (r <= bound)%Z ->
  Binary64.search_loop steps metadata T l r res = Binary64.Returns k ->
  (k <= bound)%Z.
Proof.
  revert l r res.
  induction steps as [| n IH]; intros l r res Hres Hr;
    cbn [Binary64.search_loop];
    destruct (Z.leb_spec l r) as [Hle | Hgt]; try discriminate;
    try (intros H; injection H as <-; exact Hres).
  pose proof (midpoint_between l r Hle) as Hmid.
  destruct (Binary64.at_index metadata ((l + r) / 2)); try discriminate.
  destruct (PrimFloat.leb _ T); apply IH; lia.
Qed.

Lemma binary64_findLastMetadataIndex_steps
  (metadata : list Binary64.MetaDataItem.t) (T : PrimFloat.float) :
  Binary64.findLastMetadataIndex metadata T <> Binary64.OutOfSteps /\
  forall k, Binary64.findLastMetadataIndex metadata T = Binary64.Returns k ->
            (k < Binary64.array_length metadata)%Z.
Proof.
  unfold Binary64.findLastMetadataIndex, Binary64.array_length.
  destruct (Z.eqb_spec (Z.of_nat (List.length metadata)) 0) as [E | E].
  - split; [discriminate |]. intros k H. injection H as <-. lia.
  - split; [apply binary64_search_loop_steps; lia |].
    intros k H.
    apply (binary64_search_loop_below _ _ _
             (Z.of_nat (List.length metadata) - 1)) in H; lia.
Qed.

(** The smoothing loop visits at most [endIndex + 1 - i] indices. *)
Lemma binary64_smoothing_loop_steps (steps : nat)
  (metadata : list Binary64.MetaDataItem.t) (sf dz : PrimFloat.float)
  (e i : Z) (sx sy : PrimFloat.float) :
  (e + 1 - i <= Z.of_nat steps)%Z ->
  Binary64.smoothing_loop steps metadata sf dz e i sx sy
  <> Binary64.OutOfSteps.
Proof.
  revert i sx sy.
  induction steps as [| n IH]; intros i sx sy Hn;
    cbn [Binary64.smoothing_loop];
    destruct (Z.leb_spec i e) as [Hle | Hgt]; try discriminate; try lia.
  pose proof (binary64_at_index_steps metadata i) as Hat.
  destruct (Binary64.at_index metadata i); [| discriminate | contradiction].
  cbv zeta. apply IH. lia.
Qed.

Lemma binary64_getSmoothedMousePosition_steps {ext : Binary64.Externals}
  (metadata : list Binary64.MetaDataItem.t) (T sf dz : PrimFloat.float) :
  Binary64.getSmoothedMousePosition metadata T sf dz <> Binary64.OutOfSteps.
Proof.
  unfold Binary64.getSmoothedMousePosition.
  destruct (binary64_findLastMetadataIndex_steps metadata T) as [HeS HeB].
  destruct (Binary64.findLastMetadataIndex metadata T) as [e | |];
    [| discriminate | contradiction].
  specialize (HeB e eq_refl). cbn [Binary64.bind].
  destruct (Z.ltb_spec e 0) as [_ | He0]; [discriminate |].
  set (T0 := Binary64.Math_max _ _).
  destruct (binary64_findLastMetadataIndex_steps metadata T0) as [HsS _].
  destruct (Binary64.findLastMetadataIndex metadata T0) as [s | |];
    [| discriminate | contradiction].
  cbn [Binary64.bind].
  set (s' := if (s <? 0)%Z then 0%Z else s).
  assert (Hs' : (0 <= s')%Z) by (subst s'; destruct (Z.ltb_spec s 0); lia).
  destruct (s' >=? Binary64.array_length metadata)%Z; [discriminate |].
  pose proof (binary64_at_index_steps metadata s') as Hat.
  destruct (Binary64.at_index metadata s') as [anchor | |];
    [| discriminate | contradiction].
  cbn [Binary64.bind].
  pose proof (binary64_smoothing_loop_steps (List.length metadata) metadata
                sf dz e (s' + 1) (Binary64.MetaDataItem.x anchor)
                (Binary64.MetaDataItem.y anchor)) as Hloop.
  unfold Binary64.array_length in HeB.
  destruct (Binary64.smoothing_loop (List.length metadata) metadata sf dz e
              (s' + 1) (Binary64.MetaDataItem.x anchor)
              (Binary64.MetaDataItem.y anchor)) as [[sx sy] | |];
    [| discriminate | exfalso; apply Hloop; [lia | reflexivity]].
  cbn [Binary64.bind].
  destruct (e + 1 <? Binary64.array_length metadata)%Z; [| discriminate].
  pose proof (binary64_at_index_steps metadata (e + 1)) as Hat1.
  destruct (Binary64.at_index metadata (e + 1)) as [next | |];
    [| discriminate | contradiction].
  cbn [Binary64.bind].
  pose proof (binary64_at_index_steps metadata e) as Hat2.
  destruct (Binary64.at_index metadata e) as [last | |];
    [| discriminate | contradiction].
  cbn [Binary64.bind]. cbv zeta.
  destruct (Binary64.gtb _ _); discriminate.
Qed.

(** The zoom-in call of [zoom_in_zero_width_counterexample] in real
    arithmetic, on the y axis, where nothing is divided by zero: the call
    returns translateY = 0 while the claimed value is 90. *)
Lemma zoom_in_zero_width_reals :
  exists res st',
    @calculateZoomTransform example_externals 0.5
      [("z1"%string, demo_region "auto" "Linear")] resting_samples
      (Size.mk 0 1080) (Size.mk 1280 720) initialState
    = Normal (res, st') /\
    translateY res = 0 /\
    @getSmoothedMousePosition example_externals resting_samples (0 + 1) 0.5 5
    = Normal (Some (Point.mk 7 7)) /\
    lerp 0
      (Pan.ty (calculateBoundedPan (Some (Point.mk 7 7))
                 (getTransformOrigin 0 0) 2
                 (Size.mk 0 1080) (Size.mk 1280 720)))
      (@easingFn example_externals "Linear" ((0.5 - 0) / 1))
    = 90.
Proof.
  set (r := demo_region "auto" "Linear").
  eexists. eexists. split.
  { rewrite (@calculateZoomTransform_active example_externals 0.5 _ _ _ _ _ r)
      by (apply demo_region_active; lra).
    apply (@transformInRegion_zoomIn example_externals r 0.5 resting_samples
             (Size.mk 0 1080) (Size.mk 1280 720) _
             (Pan.mk 0 0) (Pan.mk 0 0) (Pan.mk 0 0)).
    - apply panTargets_off, autoPan_no_width. cbn. lra.
    - cbn. lra.
    - cbn. lra. }
  cbn [translateY Pan.ty].
  split; [apply lerp_same |].
  split; [apply resting_samples_smoothed; lra |].
  rewrite calculateBoundedPan_Some.
  cbn [Pan.ty Point.x Point.y Size.width Size.height getTransformOrigin].
  unfold maxT, minT, desiredT.
  rewrite Rmin_left by lra. rewrite Rmax_right by lra.
  cbn. unfold lerp. lra.
Qed.

Section Binary64Runs.

Import PrimFloat.
Local Open Scope float_scope.

(** C5, as stated, fails when the recording width is zero (auto mode,
    samples present, zoom-in phase): the guard
    [recordingGeometry.width > 0] skips the pan computation, the target is
    (0, 0) and the call returns translate (0, 0), whereas the bounded pan
    of the smoothed cursor position at the zoom-in end time is not (0, 0),
    so that the claimed translate [lerp(0, targetPan, e(p))] is not the
    returned one.  In real arithmetic on the y axis (nothing is divided by
    zero there): 0 returned, 90 claimed.  In binary64 on both axes, where
    [x / 0] is [Infinity] and the x target clamps to [minT = -320]:
    (0, 0) returned, (-160, 90) claimed. *)
Lemma zoom_in_zero_width_counterexample :
  (exists res st',
     @calculateZoomTransform example_externals 0.5
       [("z1"%string, demo_region "auto" "Linear")] resting_samples
       (Size.mk 0 1080) (Size.mk 1280 720) initialState
     = Normal (res, st') /\
     translateY res = 0 /\
     @getSmoothedMousePosition example_externals resting_samples (0 + 1) 0.5 5
     = Normal (Some (Point.mk 7 7)) /\
     lerp 0
       (Pan.ty (calculateBoundedPan (Some (Point.mk 7 7))
                  (getTransformOrigin 0 0) 2
                  (Size.mk 0 1080) (Size.mk 1280 720)))
       (@easingFn example_externals "Linear" ((0.5 - 0) / 1))
     = 90)%R /\
  @Binary64.calculateZoomTransform Binary64.example_externals 0.5
    [("z1"%string, Binary64.demo_region "auto" "Linear")]
    Binary64.steady_samples
    (Binary64.Size.mk 0 1080) (Binary64.Size.mk 1280 720)
    Binary64.initialState
  = Binary64.Returns
      (Binary64.mkTransform 1.5 0 0 (Binary64.Percent 50 50),
       Binary64.mkState 0 0 0.5) /\
  exists pos,
    @Binary64.getSmoothedMousePosition Binary64.example_externals
      Binary64.steady_samples (0 + 1) 0.5 5
    = Binary64.Returns (Some pos) /\
    let target :=
      Binary64.calculateBoundedPan (Some pos)
        (Binary64.getTransformOrigin 0 0) 2
        (Binary64.Size.mk 0 1080) (Binary64.Size.mk 1280 720) in
    let e :=
      @Binary64.easingFn Binary64.example_externals "Linear"
        ((0.5 - 0) / 1) in
    Binary64.Pan.tx target = -320 /\
    Binary64.Pan.ty target = 180 /\
    Binary64.lerp 0 (Binary64.Pan.tx target) e = -160 /\
    Binary64.lerp 0 (Binary64.Pan.ty target) e = 90.
Proof.
  split; [exact zoom_in_zero_width_reals |].
  split; [vm_compute; reflexivity |].
  eexists. split; [vm_compute; reflexivity |].
  vm_compute. repeat split; reflexivity.
Qed.

(** C8, as stated, fails in binary64, the arithmetic the code runs in: on
    a cursor resting at (13, 13), sampled at times 0, 1 and 2 and queried
    at time 2 with smoothing factor 0.5 and dead zone 5, the one smoothing
    step computes [lerp(13, 13, 0.5 * 0.3) = 13 * 0.85 + 13 * 0.15], which
    rounds to 12.999999999999998.  And when no sample is at or before the
    query time (the same cursor recorded from time 1 on, queried at 0.5)
    there is no position to return: the result is [null]. *)
Lemma smoother_rounding_counterexample :
  (forall m, In m Binary64.steady_samples ->
     Binary64.MetaDataItem.x m = 13 /\ Binary64.MetaDataItem.y m = 13) /\
  @Binary64.getSmoothedMousePosition Binary64.example_externals
    Binary64.steady_samples 2 0.5 5
  = Binary64.Returns
      (Some (Binary64.Point.mk (Binary64.lerp 13 13 (0.5 * 0.3))
                               (Binary64.lerp 13 13 (0.5 * 0.3)))) /\
  Binary64.lerp 13 13 (0.5 * 0.3) = 12.999999999999998 /\
  (Binary64.lerp 13 13 (0.5 * 0.3) =? 13) = false /\
  (forall m, In m Binary64.late_samples ->
     Binary64.MetaDataItem.x m = 13 /\ Binary64.MetaDataItem.y m = 13) /\
  @Binary64.getSmoothedMousePosition Binary64.example_externals
    Binary64.late_samples 0.5 0.5 5
  = Binary64.Returns None.
Proof.
  split.
  { intros m [<- | [<- | [<- | []]]]; split; reflexivity. }
  split; [vm_compute; reflexivity |].
  split; [vm_compute; reflexivity |].
  split; [vm_compute; reflexivity |].
  split.
  { intros m [<- | [<- | []]]; split; reflexivity. }
  vm_compute. reflexivity.
Qed.

(** The guard of the pan computation tests the recording width only: with a
    recording of height 0 and a cursor on its top edge the normalised
    ordinate is [0 / 0], and the y pan is NaN. *)
Example zero_height_is_not_guarded :
  is_nan
    (Binary64.Pan.ty
       (Binary64.calculateBoundedPan (Some (Binary64.Point.mk 13 0))
          (Binary64.getTransformOrigin 0 0) 2
          (Binary64.Size.mk 1920 0) (Binary64.Size.mk 1280 720)))
  = true.
Proof. vm_compute. reflexivity. Qed.

End Binary64Runs.

(* ===================================================================== *)
(** ** Further properties of the temporal index and the smoother *)
(* ===================================================================== *)

(** X1.  On a time-ordered sample sequence the temporal index is monotone
    in the query time: a later query never yields an earlier index. *)
Theorem findLastMetadataIndex_monotone (metadata : list MetaDataItem.t)
  (T1 T2 : R) :
  nondecreasing metadata -> T1 <= T2 ->
  exists i1 i2,
    findLastMetadataIndex metadata T1 = Normal i1 /\
    findLastMetadataIndex metadata T2 = Normal i2 /\
    (i1 <= i2)%Z.
Proof.
  intros Hsorted HT.
  destruct (findLastMetadataIndex_sorted metadata T1 Hsorted)
    as [i1 [H1 [Hr1 [Hb1 _]]]].
  destruct (findLastMetadataIndex_sorted metadata T2 Hsorted)
    as [i2 [H2 [Hr2 [_ Ha2]]]].
  exists i1, i2. split; [exact H1 |]. split; [exact H2 |].
  destruct (Z_le_gt_dec i1 i2) as [Hle | Hgt]; [exact Hle | exfalso].
  destruct (at_index_in_bounds metadata i1) as [m Hm]; [lia |].
  specialize (Hb1 i1 m ltac:(lia) Hm).
  specialize (Ha2 i1 m ltac:(lia) Hm). lra.
Qed.

Lemma findLastMetadataIndex_monotone_witness :
  exists i1 i2,
    findLastMetadataIndex tie_samples 0.5 = Normal i1 /\
    findLastMetadataIndex tie_samples 1.5 = Normal i2 /\
    (i1 <= i2)%Z.
Proof.
  apply (findLastMetadataIndex_monotone tie_samples 0.5 1.5).
  - apply ordered_nondecreasing. cbn. repeat split; lra.
  - lra.
Defined.


Section SmootherRange.

Context {ext : Externals}.

(** X2.  On a time-ordered sample sequence the smoother answers [null]
    exactly when no sample has a timestamp at or before the target time (in
    particular on an empty sequence), and a position otherwise; it never
    throws. *)
Theorem smoother_null_iff_no_sample (metadata : list MetaDataItem.t)
  (T sf dz : R) :
  nondecreasing metadata ->
  (getSmoothedMousePosition metadata T sf dz = Normal None <->
   ~ exists j m, at_index metadata j = Normal m /\ MetaDataItem.timestamp m <= T) /\
  ((exists j m, at_index metadata j = Normal m /\ MetaDataItem.timestamp m <= T) ->
   exists p, getSmoothedMousePosition metadata T sf dz = Normal (Some p)).
Proof.
  intros Hsorted.
  destruct (findLastMetadataIndex_sorted metadata T Hsorted)
    as [e [He [Her [Heb Hea]]]].
  destruct (getSmoothedMousePosition_total metadata T sf dz)
    as [e' [He' Hcase]].
  rewrite He in He'. injection He' as <-.
  assert (Hsome : (exists j m, at_index metadata j = Normal m /\
                               MetaDataItem.timestamp m <= T) -> (0 <= e)%Z).
  { intros [j [m [Hm Hts]]].
    pose proof (at_index_Normal _ _ _ Hm) as Hj.
    destruct (Z_le_gt_dec 0 e) as [H | H]; [exact H | exfalso].
    specialize (Hea j m ltac:(lia) Hm). lra. }
  split; [split |].
  - intros Hnull Hex. specialize (Hsome Hex).
    destruct Hcase as [[-> _] | [_ [p Hp]]]; [lia |].
    rewrite Hp in Hnull. discriminate.
  - intros Hnone.
    destruct Hcase as [[_ H] | [Hr _]]; [exact H | exfalso].
    destruct (at_index_in_bounds metadata e Hr) as [m Hm].
    apply Hnone. exists e, m. split; [exact Hm |].
    apply (Heb e m); [lia | exact Hm].
  - intros Hex. specialize (Hsome Hex).
    destruct Hcase as [[-> _] | [_ Hp]]; [lia | exact Hp].
Qed.


End SmootherRange.

Lemma smoother_null_iff_no_sample_witness :
  (@getSmoothedMousePosition example_externals tie_samples (-1) 0.5 5
   = Normal None <->
   ~ exists j m, at_index tie_samples j = Normal m /\
                 MetaDataItem.timestamp m <= -1) /\
  ((exists j m, at_index tie_samples j = Normal m /\
                MetaDataItem.timestamp m <= -1) ->
   exists p, @getSmoothedMousePosition example_externals tie_samples (-1) 0.5 5
             = Normal (Some p)).
Proof.
  apply (@smoother_null_iff_no_sample example_externals tie_samples (-1) 0.5 5).
  apply ordered_nondecreasing. cbn. repeat split; lra.
Defined.


(* ------------------------------------------------------------------- *)
(** *** Samples recorded later do not change the answer *)

Lemma array_length_app (md extra : list MetaDataItem.t) :
  array_length (md ++ extra) = (array_length md + array_length extra)%Z.
Proof. unfold array_length. rewrite length_app. lia. Qed.

Lemma at_index_app (md extra : list MetaDataItem.t) (j : Z) :
  (j < array_length md)%Z -> at_index (md ++ extra) j = at_index md j.
Proof.
  intros Hj. unfold at_index, array_length in *.
  destruct (Z.ltb_spec j 0); [reflexivity |].
  rewrite nth_error_app1 by lia. reflexivity.
Qed.

Lemma nondecreasing_app_l (md extra : list MetaDataItem.t) :
  nondecreasing (md ++ extra) -> nondecreasing md.
Proof.
  intros H i j a b Hij Ha Hb.
  pose proof (at_index_Normal _ _ _ Ha) as Hi.
  pose proof (at_index_Normal _ _ _ Hb) as Hj.
  apply (H i j a b Hij); rewrite at_index_app by lia; assumption.
Qed.

(** The index found in a prefix is the index found in the whole sequence,
    as soon as the prefix holds the sample after it. *)
Lemma findLastMetadataIndex_app (md extra : list MetaDataItem.t) (T : R) (e : Z) :
  nondecreasing (md ++ extra) ->
  findLastMetadataIndex md T = Normal e ->
  (e + 1 < array_length md)%Z ->
  findLastMetadataIndex (md ++ extra) T = Normal e.
Proof.
  intros Hsorted He Hlook.
  destruct (findLastMetadataIndex_sorted md T (nondecreasing_app_l md extra Hsorted))
    as [e' [He' [Hr [Hb Ha]]]].
  rewrite He in He'. injection He' as <-.
  destruct (findLastMetadataIndex_sorted (md ++ extra) T Hsorted)
    as [i [Hi [Hir [Hib Hia]]]].
  rewrite Hi. f_equal.
  destruct (at_index_in_bounds md (e + 1)) as [next Hnext]; [lia |].
  pose proof (Ha (e + 1)%Z next ltac:(lia) Hnext) as Hnt.
  assert (Hup : (i < e + 1)%Z).
  { destruct (Z_lt_ge_dec i (e + 1)) as [H | H]; [exact H | exfalso].
    assert (Hn2 : at_index (md ++ extra) (e + 1) = Normal next)
      by (rewrite at_index_app by lia; exact Hnext).
    specialize (Hib (e + 1)%Z next ltac:(lia) Hn2). lra. }
  assert (Hlow : (e <= i)%Z).
  { destruct (Z_le_gt_dec e i) as [H | H]; [exact H | exfalso].
    destruct (at_index_in_bounds md e) as [m Hm]; [lia |].
    assert (Hm2 : at_index (md ++ extra) e = Normal m)
      by (rewrite at_index_app by lia; exact Hm).
    specialize (Hb e m ltac:(lia) Hm).
    specialize (Hia e m ltac:(lia) Hm2). lra. }
  lia.
Qed.

Lemma smoothing_loop_app (md extra : list MetaDataItem.t) (sf dz : R) (e : Z) :
  (e < array_length md)%Z ->
  forall (n : nat) (i : Z) (sx sy : R),
    (Z.to_nat (e + 1 - i) <= n)%nat ->
    smoothing_loop (md ++ extra) sf dz e i sx sy
    = smoothing_loop md sf dz e i sx sy.
Proof.
  intros He.
  induction n as [| n IH]; intros i sx sy Hn;
    rewrite (smoothing_loop_equation_1 (md ++ extra)),
            (smoothing_loop_equation_1 md);
    destruct (Z_le_gt_dec i e) as [Hle | Hgt]; try reflexivity.
  - lia.
  - rewrite at_index_app by lia.
    destruct (at_index md i) as [m |]; [| reflexivity].
    cbv zeta. apply IH. lia.
Qed.

Section Causality.

Context {ext : Externals}.

(** X4.  The smoother is causal up to its one lookahead sample: on a
    time-ordered sequence, for a query time [T >= 0] and a non-negative
    window, once the sequence holds the sample that follows the last one at
    or before [T], appending any further samples leaves the smoothed
    position at [T] unchanged. *)
Theorem smoother_ignores_later_samples (md extra : list MetaDataItem.t)
  (T sf dz : R) (e : Z) :
  nondecreasing (md ++ extra) ->
  0 <= T -> 0 <= SMOOTHING_WINDOW ->
  findLastMetadataIndex md T = Normal e ->
  (e + 1 < array_length md)%Z ->
  getSmoothedMousePosition (md ++ extra) T sf dz
  = getSmoothedMousePosition md T sf dz.
Proof.
  intros Hsorted HT HW He Hlook.
  pose proof (nondecreasing_app_l md extra Hsorted) as Hmd.
  pose proof (array_length_nonneg extra) as Hex.
  unfold getSmoothedMousePosition.
  rewrite (findLastMetadataIndex_app md extra T e Hsorted He Hlook), He.
  cbn [bind].
  destruct (Z.ltb_spec e 0) as [Hneg | Hpos]; [reflexivity |].
  set (T0 := Rmax 0 (T - SMOOTHING_WINDOW)).
  assert (HT0 : T0 <= T) by (subst T0; apply Rmax_lub; lra).
  destruct (findLastMetadataIndex_sorted md T0 Hmd) as [s [Hs [Hsr [Hsb _]]]].
  destruct (findLastMetadataIndex_sorted md T Hmd) as [e' [He' [_ [_ Hea]]]].
  rewrite He in He'. injection He' as <-.
  assert (Hse : (s <= e)%Z).
  { destruct (Z_le_gt_dec s e) as [H | H]; [exact H | exfalso].
    destruct (at_index_in_bounds md s) as [ms Hms]; [lia |].
    specialize (Hsb s ms ltac:(lia) Hms).
    specialize (Hea s ms ltac:(lia) Hms). lra. }
  rewrite (findLastMetadataIndex_app md extra T0 s Hsorted Hs) by lia.
  rewrite Hs. cbn [bind].
  set (s' := if (s <? 0)%Z then 0%Z else s).
  assert (Hs' : (0 <= s' <= e)%Z)
    by (subst s'; destruct (Z.ltb_spec s 0); lia).
  rewrite !Z.geb_leb, array_length_app.
  destruct (Z.leb_spec (array_length md + array_length extra) s'); [lia |].
  destruct (Z.leb_spec (array_length md) s'); [lia |].
  rewrite at_index_app by lia.
  destruct (at_index md s') as [anchor |]; [| reflexivity].
  cbn [bind].
  rewrite (smoothing_loop_app md extra sf dz e ltac:(lia)
             (Z.to_nat (e + 1 - (s' + 1)))) by lia.
  destruct (smoothing_loop md sf dz e (s' + 1) _ _) as [[sx sy] |];
    [| reflexivity].
  cbn [bind].
  destruct (Z.ltb_spec (e + 1) (array_length md + array_length extra)); [| lia].
  destruct (Z.ltb_spec (e + 1) (array_length md)); [| lia].
  rewrite !at_index_app by lia. reflexivity.
Qed.

End Causality.

Lemma smoother_ignores_later_samples_witness :
  @getSmoothedMousePosition example_externals
    ([MetaDataItem.mk 0 10 10; MetaDataItem.mk 1 20 20]
     ++ [MetaDataItem.mk 1 30 30; MetaDataItem.mk 2 40 40]) 0.5 0.5 5
  = @getSmoothedMousePosition example_externals
      [MetaDataItem.mk 0 10 10; MetaDataItem.mk 1 20 20] 0.5 0.5 5.
Proof.
  apply (@smoother_ignores_later_samples example_externals
           [MetaDataItem.mk 0 10 10; MetaDataItem.mk 1 20 20]
           [MetaDataItem.mk 1 30 30; MetaDataItem.mk 2 40 40] 0.5 0.5 5 0%Z).
  - apply ordered_nondecreasing. cbn. repeat split; lra.
  - lra.
  - cbn. lra.
  - rewrite (findLastMetadataIndex_unfold
               [MetaDataItem.mk 0 10 10; MetaDataItem.mk 1 20 20] _ 2 eq_refl)
      by lia.
    rewrite (search_loop_go_right _ _ 0 1 (-1) 0 (MetaDataItem.mk 0 10 10))
      by (reflexivity || lia || (cbn; lra)).
    rewrite (search_loop_go_left _ _ 1 1 0 1 (MetaDataItem.mk 1 20 20))
      by (reflexivity || lia || (cbn; lra)).
    apply search_loop_done. lia.
  - cbn. lia.
Defined.

(* ===================================================================== *)
(** ** Further properties of the state machine *)
(* ===================================================================== *)

Lemma fluidAlpha_range (t e : R) (st : EngineState) :
  0 <= e <= 1 -> 0 <= fluidAlpha t e st <= 1.
Proof.
  intros He. unfold fluidAlpha.
  apply lerp_between; [apply pow4_range; exact He | apply clamp01_range | lra].
Qed.

Lemma cursorInfluence_range (e : R) : 0 <= e -> 0 <= cursorInfluence e <= 1.
Proof.
  intros He. unfold cursorInfluence, Num.leb.
  destruct (Rle_dec e 0.05); lra.
Qed.

Lemma cursorInfluence_zero : cursorInfluence 0 = 1.
Proof. unfold cursorInfluence. rewrite leb_true by lra. lra. Qed.

Section Phases.

Context {ext : Externals}.

(** An active call runs exactly one of the three phases; the closing
    [else] of the phase cascade is never reached. *)
Lemma active_call_cases (t : R) (zoomRegions : list (string * ZoomRegion))
  (metadata : list MetaDataItem.t) (rec frame : Size.t) (st : EngineState)
  (r : ZoomRegion) :
  findActiveRegion t zoomRegions = Some r ->
  let st0 := resetTracking (Some r) t st in
  let zoomInEnd := startTime r + transitionDuration r in
  let zoomOutStart := startTime r + duration r - transitionDuration r in
  exists initialPan livePan finalPan,
    panTargets r t metadata rec frame = Normal (initialPan, livePan, finalPan) /\
    ((t < zoomInEnd /\
      let e := easingFn (easing r) ((t - startTime r) / transitionDuration r) in
      calculateZoomTransform t zoomRegions metadata rec frame st =
      Normal (mkTransform (lerp 1 (zoomLevel r) e)
                (lerp 0 (Pan.tx initialPan) e) (lerp 0 (Pan.ty initialPan) e)
                (regionOrigin r),
              mkState (lerp 0 (Pan.tx initialPan) e)
                (lerp 0 (Pan.ty initialPan) e) t)) \/
     (zoomInEnd <= t < zoomOutStart /\
      let a := Rmax 0 (Rmin 1 (frameAlpha t st0)) in
      calculateZoomTransform t zoomRegions metadata rec frame st =
      Normal (mkTransform (zoomLevel r)
                (lerp (previousPanX st0) (Pan.tx livePan) a)
                (lerp (previousPanY st0) (Pan.ty livePan) a)
                (regionOrigin r),
              mkState (lerp (previousPanX st0) (Pan.tx livePan) a)
                (lerp (previousPanY st0) (Pan.ty livePan) a) t)) \/
     (zoomInEnd <= t /\ zoomOutStart <= t /\ 0 < transitionDuration r /\
      let e := easingFn (easing r) ((t - zoomOutStart) / transitionDuration r) in
      exists targetTx targetTy,
        zoomOutTarget r t e (lerp (zoomLevel r) 1 e) metadata rec frame finalPan
        = Normal (targetTx, targetTy) /\
        calculateZoomTransform t zoomRegions metadata rec frame st =
        Normal (mkTransform (lerp (zoomLevel r) 1 e)
                  (lerp (previousPanX st0) targetTx (fluidAlpha t e st0))
                  (lerp (previousPanY st0) targetTy (fluidAlpha t e st0))
                  (regionOrigin r),
                mkState (lerp (previousPanX st0) targetTx (fluidAlpha t e st0))
                  (lerp (previousPanY st0) targetTy (fluidAlpha t e st0)) t))).
Proof.
  intros Hact st0 zoomInEnd zoomOutStart.
  pose proof (findActiveRegion_Some t zoomRegions r Hact) as [Hstart Hend].
  destruct (panTargets_total r t metadata rec frame) as [[[ip lp] fp] Hpans].
  exists ip, lp, fp. split; [exact Hpans |].
  rewrite (calculateZoomTransform_active _ _ _ _ _ _ _ Hact). fold st0.
  destruct (Rlt_le_dec t zoomInEnd) as [Hin | Hnin].
  { left. split; [exact Hin |].
    apply (transformInRegion_zoomIn r t metadata rec frame st0 _ _ _ Hpans
             Hstart Hin). }
  destruct (Rlt_le_dec t zoomOutStart) as [Hhold | Hout].
  { right; left. split; [split; assumption |].
    apply (transformInRegion_hold r t metadata rec frame st0 _ _ _ Hpans
             Hnin Hhold). }
  right; right. subst zoomInEnd zoomOutStart.
  split; [exact Hnin |]. split; [exact Hout |]. split; [lra |].
  intros e.
  destruct (zoomOutTarget_total r t e (lerp (zoomLevel r) 1 e) metadata rec
              frame fp) as [[ttx tty] Htarget].
  exists ttx, tty. split; [exact Htarget |].
  apply (transformInRegion_zoomOut r t metadata rec frame st0 _ _ _ ttx tty
           Hpans Hnin Hout (Rlt_le _ _ Hend) Htarget).
Qed.

(** X5.  Bookkeeping of the carryover state.  Whenever a call returns: if
    it found an active region, it has stored the returned translate as the
    new carried pan and the query time as the new recorded time, and it
    reports the region's pivot; if it found none, it returns the identity
    transform and leaves the state untouched (neither the pan nor the
    recorded time moves). *)
Theorem carryover_bookkeeping (t : R)
  (zoomRegions : list (string * ZoomRegion)) (metadata : list MetaDataItem.t)
  (rec frame : Size.t) (st : EngineState)
  (res : TransformResult) (st' : EngineState) :
  calculateZoomTransform t zoomRegions metadata rec frame st
  = Normal (res, st') ->
  (forall r, findActiveRegion t zoomRegions = Some r ->
     previousPanX st' = translateX res /\
     previousPanY st' = translateY res /\
     lastPanUpdateTime st' = t /\
     transformOrigin res = regionOrigin r) /\
  (findActiveRegion t zoomRegions = None ->
     res = defaultTransform /\ st' = st).
Proof.
  intros Hcall.
  destruct (findActiveRegion t zoomRegions) as [r |] eqn:Hact.
  2:{ rewrite (calculateZoomTransform_inactive _ _ _ _ _ _ Hact) in Hcall.
      injection Hcall as <- <-.
      split; [intros r Hr; discriminate |].
      intros _. split; reflexivity. }
  destruct (active_call_cases t zoomRegions metadata rec frame st r Hact)
    as [ip [lp [fp [_ [[_ Hrun] | [[_ Hrun] | [_ [_ [_ Hrun]]]]]]]]];
    cbv zeta in Hrun.
  3: destruct Hrun as [ttx [tty [_ Hrun]]].
  all: rewrite Hrun in Hcall; injection Hcall as <- <-;
    split; [| intros Hc; discriminate];
    intros r' Hr'; injection Hr' as <-;
    cbn; repeat split; reflexivity.
Qed.

End Phases.

(** X5 on a call half-way through the zoom-in of the demo region, in fixed
    mode and without samples. *)
Lemma carryover_bookkeeping_witness :
  let r := demo_region "fixed" "Linear" in
  let zoomRegions := [("z1"%string, r)] in
  let e := @easingFn example_externals "Linear" ((0.5 - 0) / 1) in
  let res := mkTransform (lerp 1 2 e) (lerp 0 0 e) (lerp 0 0 e)
               (regionOrigin r) in
  let st' := mkState (lerp 0 0 e) (lerp 0 0 e) 0.5 in
  (forall r', @findActiveRegion 0.5 zoomRegions = Some r' ->
     previousPanX st' = translateX res /\
     previousPanY st' = translateY res /\
     lastPanUpdateTime st' = 0.5 /\
     transformOrigin res = regionOrigin r') /\
  (@findActiveRegion 0.5 zoomRegions = None ->
     res = defaultTransform /\ st' = initialState).
Proof.
  intros r zoomRegions e res st'.
  apply (@carryover_bookkeeping example_externals 0.5 zoomRegions []
           (Size.mk 1920 1080) (Size.mk 1280 720) initialState res st').
  rewrite (@calculateZoomTransform_active example_externals 0.5 _ _ _ _ _ r)
    by (apply demo_region_active; lra).
  apply (@transformInRegion_zoomIn example_externals r 0.5 []
           (Size.mk 1920 1080) (Size.mk 1280 720) _
           (Pan.mk 0 0) (Pan.mk 0 0) (Pan.mk 0 0)).
  - apply panTargets_off, autoPan_no_samples.
  - cbn. lra.
  - cbn. lra.
Defined.

(* ===================================================================== *)
(** ** C7: convergence of the zoom-out *)
(* ===================================================================== *)




Section ZoomOutConvergence.

Context {ext : Externals}.

(** The pan target of the zoom-out is (0, 0) once the eased progress has
    passed 0.05: in auto mode the cursor influence is 0, and otherwise the
    three pan targets are (0, 0) from the start. *)
Lemma zoom_out_target_released (r : ZoomRegion) (t e cs : R)
  (metadata : list MetaDataItem.t) (rec frame : Size.t) :
  exists initialPan livePan finalPan targetTx targetTy,
    panTargets r t metadata rec frame = Normal (initialPan, livePan, finalPan) /\
    zoomOutTarget r t e cs metadata rec frame finalPan
    = Normal (targetTx, targetTy) /\
    (0.05 < e -> targetTx = 0 /\ targetTy = 0).
Proof.
  destruct (autoPan r metadata rec) eqn:Hauto.
  - destruct (panTargets_auto r t metadata rec frame Hauto)
      as [pIn [pLive [pOut [_ [_ [_ Hpans]]]]]].
    destruct (zoomOutTarget_auto r t e cs metadata rec frame
                (calculateBoundedPan pOut
                   (getTransformOrigin (targetX r) (targetY r))
                   (zoomLevel r) rec frame) Hauto) as [p [_ Htarget]].
    eexists. eexists. eexists. eexists. eexists.
    split; [exact Hpans |]. split; [exact Htarget |].
    intros He. unfold cursorInfluence. rewrite (leb_false _ _ He).
    split; ring.
  - exists (Pan.mk 0 0), (Pan.mk 0 0), (Pan.mk 0 0), 0, 0.
    split; [apply panTargets_off; exact Hauto |].
    split; [| intros _; split; reflexivity].
    rewrite (zoomOutTarget_off r t e cs metadata rec frame _ Hauto).
    cbn [Pan.tx Pan.ty]. rewrite lerp_same. reflexivity.
Qed.


End ZoomOutConvergence.


(** The same call evaluated: eased progress 0.5, clamped frame alpha 0.1,
    alpha [lerp(0.1, 1, 0.0625) = 0.15625], so the carried pan (40, -30)
    moves to (33.75, -25.3125) on its way to the target (0, 0), at scale
    1.5. *)
Example zoom_out_half_way :
  @calculateZoomTransform example_externals 9.5
    [("z1"%string, demo_region "auto" "Linear")] resting_samples
    (Size.mk 1920 1080) (Size.mk 1280 720) (mkState 40 (-30) 9.484)
  = Normal (mkTransform 1.5 33.75 (-25.3125)
              (regionOrigin (demo_region "auto" "Linear")),
            mkState 33.75 (-25.3125) 9.5).
Proof.
  set (r := demo_region "auto" "Linear").
  set (st := mkState 40 (-30) 9.484).
  assert (Hact : @findActiveRegion 9.5 [("z1"%string, r)] = Some r)
    by (apply demo_region_active; lra).
  destruct (@zoom_out_target_released example_externals r 9.5 0.5
              (lerp (zoomLevel r) 1 0.5) resting_samples
              (Size.mk 1920 1080) (Size.mk 1280 720))
    as [ip [lp [fp [ttx [tty [Hpans [Htarget Hreleased]]]]]]].
  destruct Hreleased as [Hx Hy]; [lra |]. subst ttx tty.
  rewrite (calculateZoomTransform_active _ _ _ _ _ _ _ Hact).
  rewrite resetTracking_near
    by (cbn [lastPanUpdateTime st]; unfold Rabs;
        destruct (Rcase_abs (9.5 - 9.484)); lra).
  pose proof (@transformInRegion_zoomOut example_externals r 9.5
                resting_samples (Size.mk 1920 1080) (Size.mk 1280 720) st
                ip lp fp 0 0 Hpans) as Hrun.
  cbv zeta in Hrun.
  assert (He : @easingFn example_externals (easing r)
                 ((9.5 - (startTime r + duration r - transitionDuration r))
                  / transitionDuration r) = 0.5) by (cbn; lra).
  rewrite He in Hrun.
  rewrite Hrun; [| cbn; lra | cbn; lra | cbn; lra | exact Htarget].
  assert (Halpha : fluidAlpha 9.5 0.5 st = 0.15625).
  { unfold fluidAlpha, frameAlpha, Num.gtb, PAN_SMOOTHING_FACTOR.
    cbn [lastPanUpdateTime st]. rewrite ltb_true by lra.
    rewrite (Rmin_right 1) by lra. rewrite Rmax_right by lra.
    unfold lerp. simpl pow. lra. }
  rewrite Halpha. cbn [previousPanX previousPanY st zoomLevel r demo_region].
  replace (lerp 2 1 0.5) with 1.5 by (unfold lerp; lra).
  replace (lerp 40 0 0.15625) with 33.75 by (unfold lerp; lra).
  replace (lerp (-30) 0 0.15625) with (-25.3125) by (unfold lerp; lra).
  reflexivity.
Qed.

Lemma progress_range (t t0 d : R) :
  t0 <= t -> t < t0 + d -> 0 <= (t - t0) / d <= 1.
Proof.
  intros H0 H1. assert (Hd : 0 < d) by lra.
  assert (Hi : 0 < / d) by (apply Rinv_0_lt_compat; exact Hd).
  unfold Rdiv. split.
  - apply Rmult_le_pos; lra.
  - apply (Rmult_le_reg_r d); [exact Hd |].
    rewrite Rmult_assoc, Rinv_l by lra. lra.
Qed.

Lemma lerp_scale_range (z e : R) :
  1 <= z -> 0 <= e <= 1 -> 1 <= lerp 1 z e <= z /\ 1 <= lerp z 1 e <= z.
Proof. intros Hz He. unfold lerp. split; split; nra. Qed.

Lemma maxT_mono_zoom (p d s z : R) :
  0 <= p -> 0 <= d -> 1 <= s <= z -> maxT p d s <= maxT p d z.
Proof.
  intros Hp Hd [Hs Hz]. unfold maxT, Rdiv.
  assert (Hinv : / z <= / s) by (apply Rinv_le_contravar; lra).
  assert (Hpd : 0 <= p * d) by (apply Rmult_le_pos; assumption).
  replace (p * d * (s - 1) * / s) with (p * d * (1 - / s)) by (field; lra).
  replace (p * d * (z - 1) * / z) with (p * d * (1 - / z)) by (field; lra).
  apply Rmult_le_compat_l; lra.
Qed.

Lemma minT_as_maxT (p d z : R) : minT p d z = - maxT (1 - p) d z.
Proof. unfold minT, maxT, Rdiv. ring. Qed.

Lemma calculateBoundedPan_envelope (mousePos : option Point.t)
  (origin : Point.t) (zoom : R) (rec frame : Size.t) :
  0 <= Point.x origin <= 1 -> 0 <= Point.y origin <= 1 -> 1 <= zoom ->
  0 <= Size.width frame -> 0 <= Size.height frame ->
  (minT (Point.x origin) (Size.width frame) zoom
   <= Pan.tx (calculateBoundedPan mousePos origin zoom rec frame)
   <= maxT (Point.x origin) (Size.width frame) zoom) /\
  (minT (Point.y origin) (Size.height frame) zoom
   <= Pan.ty (calculateBoundedPan mousePos origin zoom rec frame)
   <= maxT (Point.y origin) (Size.height frame) zoom).
Proof.
  intros [Hx0 Hx1] [Hy0 Hy1] Hz Hfw Hfh.
  pose proof (maxT_nonneg (Point.x origin) (Size.width frame) zoom Hx0 Hfw Hz).
  pose proof (minT_nonpos (Point.x origin) (Size.width frame) zoom Hx1 Hfw Hz).
  pose proof (maxT_nonneg (Point.y origin) (Size.height frame) zoom Hy0 Hfh Hz).
  pose proof (minT_nonpos (Point.y origin) (Size.height frame) zoom Hy1 Hfh Hz).
  destruct mousePos as [pos |].
  - rewrite calculateBoundedPan_Some. cbn [Pan.tx Pan.ty].
    split; apply clamp_between; lra.
  - cbn. lra.
Qed.

Section Envelope.

Context {ext : Externals}.

Variable r : ZoomRegion.
Variable frame : Size.t.

Hypothesis zoom_ge_1 : 1 <= zoomLevel r.
Hypothesis targetX_range : -0.5 <= targetX r <= 0.5.
Hypothesis targetY_range : -0.5 <= targetY r <= 0.5.
Hypothesis frame_width_nonneg : 0 <= Size.width frame.
Hypothesis frame_height_nonneg : 0 <= Size.height frame.

Lemma envelope_contains_zero : in_envelope r frame 0 0.
Proof.
  unfold in_envelope.
  pose proof (maxT_nonneg (targetX r + 0.5) (Size.width frame) (zoomLevel r)).
  pose proof (minT_nonpos (targetX r + 0.5) (Size.width frame) (zoomLevel r)).
  pose proof (maxT_nonneg (targetY r + 0.5) (Size.height frame) (zoomLevel r)).
  pose proof (minT_nonpos (targetY r + 0.5) (Size.height frame) (zoomLevel r)).
  lra.
Qed.

Lemma envelope_lerp (ax ay bx by_ a : R) :
  0 <= a <= 1 ->
  in_envelope r frame ax ay -> in_envelope r frame bx by_ ->
  in_envelope r frame (lerp ax bx a) (lerp ay by_ a).
Proof.
  intros Ha [Hax Hay] [Hbx Hby]. split; apply lerp_between; assumption.
Qed.

Lemma envelope_bounded_pan (mousePos : option Point.t) (s : R) (rec : Size.t) :
  1 <= s <= zoomLevel r ->
  in_envelope r frame
    (Pan.tx (calculateBoundedPan mousePos
               (getTransformOrigin (targetX r) (targetY r)) s rec frame))
    (Pan.ty (calculateBoundedPan mousePos
               (getTransformOrigin (targetX r) (targetY r)) s rec frame)).
Proof.
  intros Hs.
  destruct (calculateBoundedPan_envelope mousePos
              (getTransformOrigin (targetX r) (targetY r)) s rec frame)
    as [Hx Hy]; cbn [getTransformOrigin Point.x Point.y]; try lra.
  cbn [getTransformOrigin Point.x Point.y] in Hx, Hy.
  pose proof (maxT_mono_zoom (targetX r + 0.5) (Size.width frame) s
                (zoomLevel r) ltac:(lra) frame_width_nonneg Hs).
  pose proof (maxT_mono_zoom (1 - (targetX r + 0.5)) (Size.width frame) s
                (zoomLevel r) ltac:(lra) frame_width_nonneg Hs).
  pose proof (maxT_mono_zoom (targetY r + 0.5) (Size.height frame) s
                (zoomLevel r) ltac:(lra) frame_height_nonneg Hs).
  pose proof (maxT_mono_zoom (1 - (targetY r + 0.5)) (Size.height frame) s
                (zoomLevel r) ltac:(lra) frame_height_nonneg Hs).
  unfold in_envelope. rewrite !minT_as_maxT in *. lra.
Qed.

Lemma envelope_panTargets (t : R) (metadata : list MetaDataItem.t)
  (rec : Size.t) (ip lp fp : Pan.t) :
  panTargets r t metadata rec frame = Normal (ip, lp, fp) ->
  in_envelope r frame (Pan.tx ip) (Pan.ty ip) /\
  in_envelope r frame (Pan.tx lp) (Pan.ty lp) /\
  in_envelope r frame (Pan.tx fp) (Pan.ty fp).
Proof.
  intros Hpans.
  destruct (autoPan r metadata rec) eqn:E.
  - destruct (panTargets_auto r t metadata rec frame E)
      as [a [b [c [_ [_ [_ H]]]]]].
    rewrite H in Hpans. injection Hpans as <- <- <-.
    repeat split; apply envelope_bounded_pan; lra.
  - rewrite (panTargets_off r t metadata rec frame E) in Hpans.
    injection Hpans as <- <- <-. cbn [Pan.tx Pan.ty].
    repeat split; apply envelope_contains_zero.
Qed.

Lemma envelope_zoomOutTarget (t e : R) (metadata : list MetaDataItem.t)
  (rec : Size.t) (fp : Pan.t) (ttx tty : R) :
  0 <= e <= 1 ->
  in_envelope r frame (Pan.tx fp) (Pan.ty fp) ->
  zoomOutTarget r t e (lerp (zoomLevel r) 1 e) metadata rec frame fp
  = Normal (ttx, tty) ->
  in_envelope r frame ttx tty.
Proof.
  intros He Hfp Htarget.
  destruct (autoPan r metadata rec) eqn:E.
  - destruct (zoomOutTarget_auto r t e (lerp (zoomLevel r) 1 e) metadata rec
                frame fp E) as [p [_ H]].
    rewrite H in Htarget. injection Htarget as <- <-.
    pose proof (cursorInfluence_range e (proj1 He)) as Hinf.
    pose proof (envelope_bounded_pan p (lerp (zoomLevel r) 1 e) rec
                  (proj2 (lerp_scale_range (zoomLevel r) e zoom_ge_1 He)))
      as Hdyn.
    pose proof (envelope_lerp 0 0 _ _ (cursorInfluence e) Hinf
                  envelope_contains_zero Hdyn) as Hl.
    unfold lerp in Hl.
    rewrite !Rmult_0_l, !Rplus_0_l in Hl. exact Hl.
  - rewrite (zoomOutTarget_off r t e _ metadata rec frame fp E) in Htarget.
    injection Htarget as <- <-.
    apply envelope_lerp; [exact He | exact Hfp | apply envelope_contains_zero].
Qed.

Lemma envelope_resetTracking (t : R) (st : EngineState) :
  in_envelope r frame (previousPanX st) (previousPanY st) ->
  in_envelope r frame (previousPanX (resetTracking (Some r) t st))
    (previousPanY (resetTracking (Some r) t st)).
Proof.
  intros H. unfold resetTracking. cbn [isSome negb orb].
  destruct (Num.gtb (Rabs (t - lastPanUpdateTime st)) 0.5);
    [apply envelope_contains_zero | exact H].
Qed.

End Envelope.

Section EnvelopeInvariant.

Context {ext : Externals}.

(** X6.  With a zoom level of at least 1 and an easing that maps [0, 1]
    into [0, 1], every call that finds an active region returns a scale
    between 1 and the region's zoom level. *)
Theorem scale_between_one_and_zoom (t : R)
  (zoomRegions : list (string * ZoomRegion)) (metadata : list MetaDataItem.t)
  (rec frame : Size.t) (st : EngineState) (r : ZoomRegion) :
  findActiveRegion t zoomRegions = Some r ->
  1 <= zoomLevel r ->
  (forall q, 0 <= q <= 1 -> 0 <= easingFn (easing r) q <= 1) ->
  exists res st',
    calculateZoomTransform t zoomRegions metadata rec frame st
    = Normal (res, st') /\
    1 <= scale res <= zoomLevel r.
Proof.
  intros Hact Hz Heasing.
  pose proof (findActiveRegion_Some t zoomRegions r Hact) as [Hstart Hend].
  destruct (active_call_cases t zoomRegions metadata rec frame st r Hact)
    as [ip [lp [fp [_ [[Hin Hrun] | [[_ Hrun] | [_ [Hout [Htd Hrun]]]]]]]]];
    cbv zeta in Hrun.
  - eexists; eexists; split; [exact Hrun |]. cbn [scale].
    apply lerp_scale_range; [exact Hz |].
    apply Heasing, progress_range; lra.
  - eexists; eexists; split; [exact Hrun |]. cbn [scale]. lra.
  - destruct Hrun as [ttx [tty [_ Hrun]]].
    eexists; eexists; split; [exact Hrun |]. cbn [scale].
    apply lerp_scale_range; [exact Hz |].
    apply Heasing, progress_range; lra.
Qed.

(** X7.  The pan envelope is an invariant of the engine.  For a region with
    zoom level at least 1 and target point in [-0.5, 0.5]^2, a frame of
    non-negative size, a positive recording height and an easing that maps
    [0, 1] into [0, 1]: if the carried pan lies in the region's envelope
    [[minT, maxT]] (per axis, at the region's zoom level), then the
    translate returned by a call that finds the region active, and the
    carried pan it leaves, lie in that envelope too, in all three phases. *)
Theorem pan_stays_in_envelope (t : R)
  (zoomRegions : list (string * ZoomRegion)) (metadata : list MetaDataItem.t)
  (rec frame : Size.t) (st : EngineState) (r : ZoomRegion) :
  findActiveRegion t zoomRegions = Some r ->
  1 <= zoomLevel r ->
  -0.5 <= targetX r <= 0.5 -> -0.5 <= targetY r <= 0.5 ->
  0 <= Size.width frame -> 0 <= Size.height frame ->
  0 < Size.height rec ->
  (forall q, 0 <= q <= 1 -> 0 <= easingFn (easing r) q <= 1) ->
  in_envelope r frame (previousPanX st) (previousPanY st) ->
  exists res st',
    calculateZoomTransform t zoomRegions metadata rec frame st
    = Normal (res, st') /\
    in_envelope r frame (translateX res) (translateY res) /\
    in_envelope r frame (previousPanX st') (previousPanY st').
Proof.
  intros Hact Hz Htx Hty Hfw Hfh _ Heasing Hst.
  pose proof (findActiveRegion_Some t zoomRegions r Hact) as [Hstart Hend].
  pose proof (envelope_resetTracking r frame Hz Htx Hty Hfw Hfh t st Hst) as Hst0.
  pose proof (envelope_contains_zero r frame Hz Htx Hty Hfw Hfh) as Hzero.
  destruct (active_call_cases t zoomRegions metadata rec frame st r Hact)
    as [ip [lp [fp [Hpans [[Hin Hrun] | [[_ Hrun] | [_ [Hout [Htd Hrun]]]]]]]]];
    cbv zeta in Hrun;
    destruct (envelope_panTargets r frame Hz Htx Hty Hfw Hfh t metadata rec
                ip lp fp Hpans) as [Hip [Hlp Hfp]].
  - eexists; eexists; split; [exact Hrun |].
    cbn [translateX translateY previousPanX previousPanY].
    assert (He : 0 <= easingFn (easing r)
                        ((t - startTime r) / transitionDuration r) <= 1)
      by (apply Heasing, progress_range; lra).
    split; apply envelope_lerp; assumption.
  - eexists; eexists; split; [exact Hrun |].
    cbn [translateX translateY previousPanX previousPanY].
    split; apply envelope_lerp; try assumption; apply clamp01_range.
  - destruct Hrun as [ttx [tty [Htarget Hrun]]].
    eexists; eexists; split; [exact Hrun |].
    cbn [translateX translateY previousPanX previousPanY].
    assert (He : 0 <= easingFn (easing r)
                        ((t - (startTime r + duration r - transitionDuration r))
                         / transitionDuration r) <= 1)
      by (apply Heasing, progress_range; lra).
    pose proof (envelope_zoomOutTarget r frame Hz Htx Hty Hfw Hfh t _ metadata
                  rec fp ttx tty He Hfp Htarget) as Htgt.
    split; apply envelope_lerp; try assumption; apply fluidAlpha_range; exact He.
Qed.

End EnvelopeInvariant.

Lemma scale_between_one_and_zoom_witness :
  exists res st',
    @calculateZoomTransform example_externals 0.5
      [("z1"%string, demo_region "auto" "Quadratic")] resting_samples
      (Size.mk 1920 1080) (Size.mk 1280 720) initialState
    = Normal (res, st') /\
    1 <= scale res <= zoomLevel (demo_region "auto" "Quadratic").
Proof.
  apply (@scale_between_one_and_zoom example_externals 0.5
           [("z1"%string, demo_region "auto" "Quadratic")] resting_samples
           (Size.mk 1920 1080) (Size.mk 1280 720) initialState
           (demo_region "auto" "Quadratic")).
  - apply demo_region_active. lra.
  - cbn. lra.
  - intros q Hq. cbn. nra.
Defined.

Lemma pan_stays_in_envelope_witness :
  exists res st',
    @calculateZoomTransform example_externals 5
      [("z1"%string, demo_region "auto" "Quadratic")] resting_samples
      (Size.mk 1920 1080) (Size.mk 1280 720) (mkState 100 (-50) 4.984)
    = Normal (res, st') /\
    in_envelope (demo_region "auto" "Quadratic") (Size.mk 1280 720)
      (translateX res) (translateY res) /\
    in_envelope (demo_region "auto" "Quadratic") (Size.mk 1280 720)
      (previousPanX st') (previousPanY st').
Proof.
  apply (@pan_stays_in_envelope example_externals 5
           [("z1"%string, demo_region "auto" "Quadratic")] resting_samples
           (Size.mk 1920 1080) (Size.mk 1280 720) (mkState 100 (-50) 4.984)
           (demo_region "auto" "Quadratic")).
  - apply demo_region_active. lra.
  - cbn. lra.
  - cbn. lra.
  - cbn. lra.
  - cbn. lra.
  - cbn. lra.
  - cbn. lra.
  - intros q Hq. cbn. nra.
  - unfold in_envelope, minT, maxT. cbn. lra.
Defined.

Section Continuity.

Context {ext : Externals}.

(** X8.  No jump from hold to zoom-out.  At the first instant of the
    zoom-out phase ([t = startTime + duration - transitionDuration], with
    [0 < transitionDuration <= duration / 2]), if the easing maps 0 to 0,
    the call returns exactly what the hold-phase formula gives at that
    instant: the scale is the zoom level, and the translate is the carried
    pan moved toward the live pan target by the clamped frame alpha. *)
Theorem zoom_out_starts_as_hold (zoomRegions : list (string * ZoomRegion))
  (metadata : list MetaDataItem.t) (rec frame : Size.t) (st : EngineState)
  (r : ZoomRegion) :
  let t := startTime r + duration r - transitionDuration r in
  findActiveRegion t zoomRegions = Some r ->
  0 < transitionDuration r ->
  2 * transitionDuration r <= duration r ->
  easingFn (easing r) 0 = 0 ->
  let st0 := resetTracking (Some r) t st in
  let a := Rmax 0 (Rmin 1 (frameAlpha t st0)) in
  exists initialPan livePan finalPan,
    panTargets r t metadata rec frame = Normal (initialPan, livePan, finalPan) /\
    calculateZoomTransform t zoomRegions metadata rec frame st =
    Normal (mkTransform (zoomLevel r)
              (lerp (previousPanX st0) (Pan.tx livePan) a)
              (lerp (previousPanY st0) (Pan.ty livePan) a)
              (regionOrigin r),
            mkState (lerp (previousPanX st0) (Pan.tx livePan) a)
              (lerp (previousPanY st0) (Pan.ty livePan) a) t).
Proof.
  intros t Hact Htd Hhalf He0 st0 a.
  destruct (active_call_cases t zoomRegions metadata rec frame st r Hact)
    as [ip [lp [fp [Hpans [[Hin _] | [[[_ Hhold] _] | [_ [_ [_ Hrun]]]]]]]]].
  { exfalso. subst t. lra. }
  { exfalso. subst t. lra. }
  exists ip, lp, fp. split; [exact Hpans |].
  cbv zeta in Hrun. fold t st0 in Hrun.
  replace ((t - t) / transitionDuration r) with 0 in Hrun
    by (unfold Rdiv; ring).
  rewrite He0 in Hrun.
  destruct Hrun as [ttx [tty [Htarget Hrun]]].
  rewrite Hrun.
  assert (Hfa : fluidAlpha t 0 st0 = a)
    by (unfold fluidAlpha, lerp; subst a; ring).
  rewrite Hfa, lerp_0.
  assert (Htgt : ttx = Pan.tx lp /\ tty = Pan.ty lp).
  { rewrite lerp_0 in Htarget.
    destruct (autoPan r metadata rec) eqn:E.
    - destruct (panTargets_auto r t metadata rec frame E)
        as [pIn [pLive [pOut [_ [HLive [_ H]]]]]].
      rewrite H in Hpans. injection Hpans as _ <- _.
      destruct (zoomOutTarget_auto r t 0 (zoomLevel r) metadata rec frame fp E)
        as [pLive' [HLive' H']].
      rewrite HLive in HLive'. injection HLive' as <-.
      rewrite H' in Htarget. rewrite cursorInfluence_zero in Htarget.
      injection Htarget as <- <-. split; ring.
    - rewrite (panTargets_off r t metadata rec frame E) in Hpans.
      injection Hpans as _ <- <-.
      rewrite (zoomOutTarget_off r t 0 _ metadata rec frame _ E) in Htarget.
      rewrite !lerp_0 in Htarget. injection Htarget as <- <-.
      split; reflexivity. }
  destruct Htgt as [-> ->]. reflexivity.
Qed.

End Continuity.

Lemma zoom_out_starts_as_hold_witness :
  let r := demo_region "auto" "Quadratic" in
  let zoomRegions := [("z1"%string, r)] in
  let rec := Size.mk 1920 1080 in
  let frame := Size.mk 1280 720 in
  let st := mkState 100 (-50) 8.984 in
  let t := startTime r + duration r - transitionDuration r in
  let st0 := resetTracking (Some r) t st in
  let a := Rmax 0 (Rmin 1 (frameAlpha t st0)) in
  exists initialPan livePan finalPan,
    @panTargets example_externals r t resting_samples rec frame
    = Normal (initialPan, livePan, finalPan) /\
    @calculateZoomTransform example_externals t zoomRegions resting_samples
      rec frame st =
    Normal (mkTransform (zoomLevel r)
              (lerp (previousPanX st0) (Pan.tx livePan) a)
              (lerp (previousPanY st0) (Pan.ty livePan) a)
              (regionOrigin r),
            mkState (lerp (previousPanX st0) (Pan.tx livePan) a)
              (lerp (previousPanY st0) (Pan.ty livePan) a) t).
Proof.
  intros r zoomRegions rec frame st.
  apply (@zoom_out_starts_as_hold example_externals zoomRegions
           resting_samples rec frame st r).
  - apply demo_region_active. cbn. lra.
  - cbn. lra.
  - cbn. lra.
  - cbn. lra.
Defined.

(* ------------------------------------------------------------------- *)
(** *** Region selection *)

Lemma inRegion_spec (t : R) (r : ZoomRegion) :
  inRegion t r = true <-> startTime r <= t < startTime r + duration r.
Proof.
  unfold inRegion. rewrite andb_true_iff, geb_spec, ltb_spec. tauto.
Qed.

(** X9.  Region selection is first-match over the enumeration order, on the
    closed-open interval [[startTime, startTime + duration)]: the selected
    region is the first entry whose interval contains the query time, even
    when later entries contain it too; no region is selected exactly when no
    entry's interval contains the query time. *)
Theorem first_containing_region_wins (t : R)
  (zoomRegions : list (string * ZoomRegion)) :
  (forall before k r after,
     zoomRegions = before ++ (k, r) :: after ->
     (forall k' r', In (k', r') before ->
        ~ (startTime r' <= t < startTime r' + duration r')) ->
     startTime r <= t < startTime r + duration r ->
     findActiveRegion t zoomRegions = Some r) /\
  (findActiveRegion t zoomRegions = None <->
   forall k r, In (k, r) zoomRegions ->
     ~ (startTime r <= t < startTime r + duration r)).
Proof.
  split.
  - intros before k r after -> Hbefore Hin.
    unfold findActiveRegion, Object_values.
    induction before as [| [k0 r0] before IH]; cbn.
    + apply inRegion_spec in Hin. rewrite Hin. reflexivity.
    + destruct (inRegion t r0) eqn:E.
      * exfalso. apply (Hbefore k0 r0); [left; reflexivity |].
        apply inRegion_spec. exact E.
      * apply IH. intros k' r' Hk'. apply (Hbefore k' r'). right. exact Hk'.
  - unfold findActiveRegion, Object_values. split.
    + intros Hnone k r Hk Hin.
      apply inRegion_spec in Hin.
      pose proof (find_none _ _ Hnone r) as H.
      rewrite H in Hin; [discriminate |].
      apply in_map_iff. exists (k, r). split; [reflexivity | exact Hk].
    + intros Hall.
      destruct (find (inRegion t) (map snd zoomRegions)) as [r |] eqn:E;
        [exfalso | reflexivity].
      apply find_some in E. destruct E as [Hr Hin].
      apply in_map_iff in Hr. destruct Hr as [[k r'] [Heq Hk]].
      cbn in Heq. subst r'.
      apply (Hall k r Hk). apply inRegion_spec. exact Hin.
Qed.

(* ------------------------------------------------------------------- *)
(** *** Sessions without cursor-following regions *)

Section NoAutoPan.

Context {ext : Externals}.

Lemma autoPan_not_auto (r : ZoomRegion) (metadata : list MetaDataItem.t)
  (rec : Size.t) :
  mode r <> "auto"%string -> autoPan r metadata rec = false.
Proof.
  intros H. unfold autoPan.
  destruct (String.eqb_spec (mode r) "auto"); [contradiction | reflexivity].
Qed.

(** One call with the guard off, from a carried pan of (0, 0). *)
Lemma guard_off_call (t : R) (zoomRegions : list (string * ZoomRegion))
  (metadata : list MetaDataItem.t) (rec frame : Size.t) (st : EngineState) :
  (forall r, findActiveRegion t zoomRegions = Some r ->
             autoPan r metadata rec = false) ->
  previousPanX st = 0 -> previousPanY st = 0 ->
  exists res st',
    calculateZoomTransform t zoomRegions metadata rec frame st
    = Normal (res, st') /\
    translateX res = 0 /\ translateY res = 0 /\
    previousPanX st' = 0 /\ previousPanY st' = 0.
Proof.
  intros Hoff Hx Hy.
  destruct (findActiveRegion t zoomRegions) as [r |] eqn:Hact.
  2:{ exists defaultTransform, st.
      rewrite (calculateZoomTransform_inactive _ _ _ _ _ _ Hact).
      repeat split; try assumption; reflexivity. }
  specialize (Hoff r eq_refl).
  assert (Hst0 : previousPanX (resetTracking (Some r) t st) = 0 /\
                 previousPanY (resetTracking (Some r) t st) = 0).
  { unfold resetTracking. cbn [isSome negb orb].
    destruct (Num.gtb _ 0.5); cbn; split; (reflexivity || assumption). }
  destruct Hst0 as [Hx0 Hy0].
  destruct (active_call_cases t zoomRegions metadata rec frame st r Hact)
    as [ip [lp [fp [Hpans [[_ Hrun] | [[_ Hrun] | [_ [_ [_ Hrun]]]]]]]]];
    cbv zeta in Hrun;
    rewrite (panTargets_off r t metadata rec frame Hoff) in Hpans;
    injection Hpans as <- <- <-.
  - eexists; eexists; split; [exact Hrun |].
    cbn. rewrite !lerp_same. repeat split; reflexivity.
  - eexists; eexists; split; [exact Hrun |].
    cbn. rewrite Hx0, Hy0, !lerp_same. repeat split; reflexivity.
  - destruct Hrun as [ttx [tty [Htarget Hrun]]].
    rewrite (zoomOutTarget_off r t _ _ metadata rec frame _ Hoff) in Htarget.
    cbn [Pan.tx Pan.ty] in Htarget. rewrite !lerp_same in Htarget.
    injection Htarget as <- <-.
    eexists; eexists; split; [exact Hrun |].
    cbn. rewrite Hx0, Hy0, !lerp_same. repeat split; reflexivity.
Qed.

(** X10.  A session that has no samples, or whose regions are all in a mode
    other than "auto", never pans: starting from the initial state, every
    call of any sequence of calls (any query times, in any order) returns
    normally with translate (0, 0), and the carried pan stays (0, 0). *)
Theorem session_without_auto_never_pans (times : list R)
  (zoomRegions : list (string * ZoomRegion)) (metadata : list MetaDataItem.t)
  (rec frame : Size.t) :
  metadata = [] \/
  (forall k r, In (k, r) zoomRegions -> mode r <> "auto"%string) ->
  exists results st',
    successiveCalls times zoomRegions metadata rec frame initialState
    = Normal (results, st') /\
    List.length results = List.length times /\
    Forall (fun res => translateX res = 0 /\ translateY res = 0) results /\
    previousPanX st' = 0 /\ previousPanY st' = 0.
Proof.
  intros Hsession.
  assert (Hoff : forall t r, findActiveRegion t zoomRegions = Some r ->
                             autoPan r metadata rec = false).
  { intros t r Hact. destruct Hsession as [-> | Hmodes].
    - apply autoPan_no_samples.
    - apply autoPan_not_auto.
      unfold findActiveRegion, Object_values in Hact.
      apply find_some in Hact. destruct Hact as [Hr _].
      apply in_map_iff in Hr. destruct Hr as [[k r'] [Heq Hk]].
      cbn in Heq. subst r'. apply (Hmodes k r Hk). }
  assert (Hgen : forall st, previousPanX st = 0 -> previousPanY st = 0 ->
            exists results st',
              successiveCalls times zoomRegions metadata rec frame st
              = Normal (results, st') /\
              List.length results = List.length times /\
              Forall (fun res => translateX res = 0 /\ translateY res = 0)
                results /\
              previousPanX st' = 0 /\ previousPanY st' = 0).
  { induction times as [| t rest IH]; intros st Hx Hy.
    - exists [], st. cbn. repeat split; try assumption. constructor.
    - destruct (guard_off_call t zoomRegions metadata rec frame st
                  (Hoff t) Hx Hy) as [res [st1 [Hrun [Hrx [Hry [Hx1 Hy1]]]]]].
      destruct (IH st1 Hx1 Hy1) as [results [st2 [Hrest [Hlen [Hall [Hx2 Hy2]]]]]].
      exists (res :: results), st2. cbn [successiveCalls].
      rewrite Hrun. cbn [bind]. rewrite Hrest. cbn [bind].
      split; [reflexivity |]. split; [cbn; lia |].
      split; [constructor; [split; assumption | exact Hall] |].
      split; assumption. }
  apply Hgen; reflexivity.
Qed.

End NoAutoPan.

Lemma session_without_auto_never_pans_witness :
  exists results st',
    @successiveCalls example_externals [0.5; 5; 9.5; 2; 12]
      [("z1"%string, demo_region "fixed" "Quadratic")] resting_samples
      (Size.mk 1920 1080) (Size.mk 1280 720) initialState
    = Normal (results, st') /\
    List.length results = List.length [0.5; 5; 9.5; 2; 12] /\
    Forall (fun res => translateX res = 0 /\ translateY res = 0) results /\
    previousPanX st' = 0 /\ previousPanY st' = 0.
Proof.
  apply (@session_without_auto_never_pans example_externals
           [0.5; 5; 9.5; 2; 12]
           [("z1"%string, demo_region "fixed" "Quadratic")] resting_samples
           (Size.mk 1920 1080) (Size.mk 1280 720)).
  right. intros k r [H | []]. injection H as _ <-. cbn. discriminate.
Defined.

(* ------------------------------------------------------------------- *)
(** *** The bounded pan follows the cursor *)

Lemma clamp_monotone (lo hi u v : R) :
  u <= v -> Rmax lo (Rmin hi u) <= Rmax lo (Rmin hi v).
Proof.
  intros H. apply Rle_max_compat_l, Rle_min_compat_l. exact H.
Qed.

Lemma desiredT_antitone (n1 n2 pivot dim zoom : R) :
  0 < zoom -> 0 <= dim -> n1 <= n2 ->
  desiredT n2 pivot dim zoom <= desiredT n1 pivot dim zoom.
Proof.
  intros Hz Hd Hn. unfold desiredT, Rdiv.
  assert (Hi : 0 < / zoom) by (apply Rinv_0_lt_compat; exact Hz).
  apply Rmult_le_compat_r; [lra |].
  apply Rmult_le_compat_r; [exact Hd |]. nra.
Qed.

(** X11.  The bounded pan follows the cursor: for a positive zoom level,
    positive recording dimensions and a frame of non-negative size, moving
    the cursor to the right (down) never increases the x (y) pan, so the
    view never moves against the cursor. *)
Theorem bounded_pan_follows_cursor (p1 p2 origin : Point.t) (zoom : R)
  (rec frame : Size.t) :
  0 < zoom ->
  0 < Size.width rec -> 0 < Size.height rec ->
  0 <= Size.width frame -> 0 <= Size.height frame ->
  (Point.x p1 <= Point.x p2 ->
   Pan.tx (calculateBoundedPan (Some p2) origin zoom rec frame)
   <= Pan.tx (calculateBoundedPan (Some p1) origin zoom rec frame)) /\
  (Point.y p1 <= Point.y p2 ->
   Pan.ty (calculateBoundedPan (Some p2) origin zoom rec frame)
   <= Pan.ty (calculateBoundedPan (Some p1) origin zoom rec frame)).
Proof.
  intros Hz Hrw Hrh Hfw Hfh.
  rewrite !calculateBoundedPan_Some. cbn [Pan.tx Pan.ty].
  split; intros H; apply clamp_monotone, desiredT_antitone; try assumption;
    unfold Rdiv; apply Rmult_le_compat_r; try exact H;
    left; apply Rinv_0_lt_compat; assumption.
Qed.

Lemma bounded_pan_follows_cursor_witness :
  (Point.x (Point.mk 100 900) <= Point.x (Point.mk 1800 200) ->
   Pan.tx (calculateBoundedPan (Some (Point.mk 1800 200)) (Point.mk 0.5 0.5) 2
             (Size.mk 1920 1080) (Size.mk 1280 720))
   <= Pan.tx (calculateBoundedPan (Some (Point.mk 100 900)) (Point.mk 0.5 0.5) 2
                (Size.mk 1920 1080) (Size.mk 1280 720))) /\
  (Point.y (Point.mk 100 900) <= Point.y (Point.mk 1800 200) ->
   Pan.ty (calculateBoundedPan (Some (Point.mk 1800 200)) (Point.mk 0.5 0.5) 2
             (Size.mk 1920 1080) (Size.mk 1280 720))
   <= Pan.ty (calculateBoundedPan (Some (Point.mk 100 900)) (Point.mk 0.5 0.5) 2
                (Size.mk 1920 1080) (Size.mk 1280 720))).
Proof.
  apply (bounded_pan_follows_cursor (Point.mk 100 900) (Point.mk 1800 200)
           (Point.mk 0.5 0.5) 2 (Size.mk 1920 1080) (Size.mk 1280 720));
    cbn; lra.
Defined.

(* ===================================================================== *)
(** ** The renderer: layout of the frame *)
(* ===================================================================== *)

Lemma falsy_positive (v : R) : 0 < v -> falsy v = false.
Proof. intros H. unfold falsy. destruct (Req_dec_T v 0); [lra | reflexivity]. Qed.

Lemma div_pos (a b : R) : 0 < a -> 0 < b -> 0 < a / b.
Proof.
  intros Ha Hb. unfold Rdiv. apply Rmult_lt_0_compat; [exact Ha |].
  apply Rinv_0_lt_compat. exact Hb.
Qed.

Lemma div_mul_cancel (a b : R) : b <> 0 -> a / b * b = a.
Proof. intros Hb. field. exact Hb. Qed.

(** X12.  Letterboxing.  For a positive output size, a padding of at least
    0 and below 50 (percent) and positive video dimensions, [render] lays
    out a frame that has positive size and the aspect ratio of the video,
    fits within the padded area and fills it along one axis, and is centred
    in the output. *)
Theorem frameLayout_letterbox (padding outputWidth outputHeight : R)
  (videoDimensions : Size.t) :
  0 < outputWidth -> 0 < outputHeight ->
  0 <= padding < 50 ->
  0 < Size.width videoDimensions -> 0 < Size.height videoDimensions ->
  let availableWidth := outputWidth * (1 - 2 * (padding / 100)) in
  let availableHeight := outputHeight * (1 - 2 * (padding / 100)) in
  exists layout,
    frameLayout padding outputWidth outputHeight videoDimensions = Some layout /\
    0 < frameContentWidth layout /\ 0 < frameContentHeight layout /\
    frameContentWidth layout * Size.height videoDimensions
    = frameContentHeight layout * Size.width videoDimensions /\
    frameContentWidth layout <= availableWidth /\
    frameContentHeight layout <= availableHeight /\
    (frameContentWidth layout = availableWidth \/
     frameContentHeight layout = availableHeight) /\
    frameX layout + frameContentWidth layout + frameX layout = outputWidth /\
    frameY layout + frameContentHeight layout + frameY layout = outputHeight /\
    0 <= frameX layout /\ 0 <= frameY layout.
Proof.
  intros Hw Hh Hp Hvw Hvh aw ah.
  assert (Haw : 0 < aw) by (subst aw; apply Rmult_lt_0_compat; lra).
  assert (Hah : 0 < ah) by (subst ah; apply Rmult_lt_0_compat; lra).
  assert (Haw' : aw <= outputWidth) by (subst aw; nra).
  assert (Hah' : ah <= outputHeight) by (subst ah; nra).
  set (ar := Size.width videoDimensions / Size.height videoDimensions).
  assert (Har : 0 < ar) by (apply div_pos; assumption).
  assert (Harh : ar * Size.height videoDimensions = Size.width videoDimensions)
    by (apply div_mul_cancel; lra).
  unfold frameLayout.
  rewrite (falsy_positive _ Hvw), (falsy_positive _ Hvh). cbn [orb].
  fold aw ah ar. unfold Num.gtb.
  destruct (Rlt_dec ar (aw / ah)) as [Hwide | Hnarrow].
  - rewrite (ltb_true _ _ Hwide).
    assert (Hfit : ah * ar < aw).
    { apply (Rmult_lt_compat_r ah) in Hwide; [| exact Hah].
      rewrite div_mul_cancel in Hwide by lra. lra. }
    eexists. split; [reflexivity |]. cbn.
    repeat split; try lra; try nra; right; reflexivity.
  - rewrite ltb_false by lra.
    assert (Hle : aw / ah <= ar) by lra.
    assert (Hfit : aw / ar <= ah).
    { apply (Rmult_le_reg_r ar); [exact Har |].
      rewrite div_mul_cancel by lra.
      apply (Rmult_le_compat_r ah) in Hle; [| lra].
      rewrite div_mul_cancel in Hle by lra. lra. }
    assert (Hpos : 0 < aw / ar) by (apply div_pos; assumption).
    assert (Hasp : aw / ar * Size.width videoDimensions
                   = aw * Size.height videoDimensions).
    { rewrite <- Harh. field. lra. }
    eexists. split; [reflexivity |]. cbn.
    repeat split; try lra; left; reflexivity.
Qed.

Lemma frameLayout_letterbox_witness :
  let availableWidth := 1920 * (1 - 2 * (10 / 100)) in
  let availableHeight := 1080 * (1 - 2 * (10 / 100)) in
  exists layout,
    frameLayout 10 1920 1080 (Size.mk 1280 1024) = Some layout /\
    0 < frameContentWidth layout /\ 0 < frameContentHeight layout /\
    frameContentWidth layout * Size.height (Size.mk 1280 1024)
    = frameContentHeight layout * Size.width (Size.mk 1280 1024) /\
    frameContentWidth layout <= availableWidth /\
    frameContentHeight layout <= availableHeight /\
    (frameContentWidth layout = availableWidth \/
     frameContentHeight layout = availableHeight) /\
    frameX layout + frameContentWidth layout + frameX layout = 1920 /\
    frameY layout + frameContentHeight layout + frameY layout = 1080 /\
    0 <= frameX layout /\ 0 <= frameY layout.
Proof.
  apply (frameLayout_letterbox 10 1920 1080 (Size.mk 1280 1024)); cbn; lra.
Defined.

(* ===================================================================== *)
(** ** The renderer: the webcam box *)
(* ===================================================================== *)

(** X13.  Scale to cover.  For positive webcam and rectangle dimensions the
    webcam sprite keeps the aspect ratio of the webcam picture, is at least
    as wide and as high as the rectangle and matches it along one axis, and
    is centred on it (the overflow is split evenly between both sides). *)
Theorem webcamCover_covers (wWidth wHeight rectWidth rectHeight : R) :
  0 < wWidth -> 0 < wHeight -> 0 < rectWidth -> 0 < rectHeight ->
  let sprite := webcamCover wWidth wHeight rectWidth rectHeight in
  spriteWidth sprite * wHeight = spriteHeight sprite * wWidth /\
  rectWidth <= spriteWidth sprite /\ rectHeight <= spriteHeight sprite /\
  (spriteWidth sprite = rectWidth \/ spriteHeight sprite = rectHeight) /\
  spriteX sprite <= 0 /\ spriteY sprite <= 0 /\
  spriteX sprite + spriteWidth sprite + spriteX sprite = rectWidth /\
  spriteY sprite + spriteHeight sprite + spriteY sprite = rectHeight.
Proof.
  intros Hw Hh Hrw Hrh sprite. subst sprite. unfold webcamCover.
  set (war := wWidth / wHeight). set (tar := rectWidth / rectHeight).
  assert (Hwar : 0 < war) by (apply div_pos; assumption).
  assert (Hwarh : war * wHeight = wWidth) by (apply div_mul_cancel; lra).
  assert (Htarh : tar * rectHeight = rectWidth) by (apply div_mul_cancel; lra).
  unfold Num.gtb.
  destruct (Rlt_dec tar war) as [Hwide | Hnarrow].
  - rewrite (ltb_true _ _ Hwide). cbn.
    assert (Hge : rectWidth < rectHeight * war) by nra.
    repeat split; try lra; try nra; right; reflexivity.
  - rewrite ltb_false by lra. cbn.
    assert (Hle : war <= tar) by lra.
    assert (Hpos : 0 < rectWidth / war) by (apply div_pos; assumption).
    assert (Hmul : rectWidth / war * war = rectWidth)
      by (apply div_mul_cancel; lra).
    assert (Hge : rectHeight <= rectWidth / war).
    { apply (Rmult_le_reg_r war); [exact Hwar |]. rewrite Hmul. nra. }
    repeat split; try lra; try nra; left; reflexivity.
Qed.

Lemma webcamCover_covers_witness :
  let sprite := webcamCover 1280 720 300 300 in
  spriteWidth sprite * 720 = spriteHeight sprite * 1280 /\
  300 <= spriteWidth sprite /\ 300 <= spriteHeight sprite /\
  (spriteWidth sprite = 300 \/ spriteHeight sprite = 300) /\
  spriteX sprite <= 0 /\ spriteY sprite <= 0 /\
  spriteX sprite + spriteWidth sprite + spriteX sprite = 300 /\
  spriteY sprite + spriteHeight sprite + spriteY sprite = 300.
Proof.
  apply (webcamCover_covers 1280 720 300 300); lra.
Defined.

Section WebcamSize.

Context {ext : Externals}.

(** X14.  The webcam size follows the zoom.  With [scaleOnZoom] set, at
    every call that finds an active region the interpolated webcam size and
    the scale returned by the engine sit at the same fraction of their
    ranges: [(scale - 1) * (sizeOnZoom - size)
    = (webcamSize - size) * (zoomLevel - 1)], in zoom-in, hold and zoom-out
    alike (the renderer and the engine split the region into the same
    phases and ease them with the same curve).  Without an active region,
    or with [scaleOnZoom] unset, the webcam size is [size]. *)
Theorem webcam_size_follows_zoom (webcamStyles : WebcamStyles) (t : R)
  (zoomRegions : list (string * ZoomRegion)) (metadata : list MetaDataItem.t)
  (rec frame : Size.t) (st : EngineState) :
  exists res st',
    calculateZoomTransform t zoomRegions metadata rec frame st
    = Normal (res, st') /\
    (forall r, findActiveRegion t zoomRegions = Some r ->
       scaleOnZoom webcamStyles = true ->
       (scale res - 1) * (sizeOnZoom webcamStyles - size webcamStyles)
       = (webcamSizePercent webcamStyles t zoomRegions - size webcamStyles)
         * (zoomLevel r - 1)) /\
    (findActiveRegion t zoomRegions = None \/ scaleOnZoom webcamStyles = false ->
       webcamSizePercent webcamStyles t zoomRegions = size webcamStyles).
Proof.
  destruct (findActiveRegion t zoomRegions) as [r |] eqn:Hact.
  2:{ exists defaultTransform, st.
      rewrite (calculateZoomTransform_inactive _ _ _ _ _ _ Hact).
      split; [reflexivity |]. split; [intros r Hr; discriminate |].
      intros _. unfold webcamSizePercent. rewrite Hact.
      destruct (scaleOnZoom webcamStyles); apply lerp_0. }
  pose proof (findActiveRegion_Some t zoomRegions r Hact) as [Hstart Hend].
  assert (Hoff : scaleOnZoom webcamStyles = false ->
                 webcamSizePercent webcamStyles t zoomRegions
                 = size webcamStyles).
  { intros H. unfold webcamSizePercent. rewrite H. apply lerp_0. }
  destruct (active_call_cases t zoomRegions metadata rec frame st r Hact)
    as [ip [lp [fp [_ [[Hin Hrun] | [[[Hnin Hhold] Hrun] | [Hnin [Hout [_ Hrun]]]]]]]]];
    cbv zeta in Hrun.
  3: destruct Hrun as [ttx [tty [_ Hrun]]].
  all: eexists; eexists; split; [exact Hrun |];
    split; [| intros [Hc | Hc]; [discriminate | exact (Hoff Hc)]];
    intros r' Hr' Hon; injection Hr' as <-;
    unfold webcamSizePercent; rewrite Hon, Hact; cbn [scale].
  - rewrite (ltb_true _ _ Hin). unfold lerp. ring.
  - rewrite (ltb_false _ _ Hnin). unfold Num.geb.
    rewrite leb_false by lra. unfold lerp. ring.
  - rewrite (ltb_false _ _ Hnin). unfold Num.geb.
    rewrite (leb_true _ _ Hout). unfold lerp. ring.
Qed.

End WebcamSize.

(* ===================================================================== *)
(** ** The renderer: click ripples and the cursor *)
(* ===================================================================== *)

Lemma pop_In {A : Type} (l : list A) (a : A) : pop l = Some a -> In a l.
Proof.
  unfold pop. intros H. apply in_rev.
  destruct (rev l) as [| b rest]; [discriminate |].
  cbn in H. injection H as ->. left. reflexivity.
Qed.

Section Clicks.

Context {ext : Externals}.

(** X15.  Click ripples stay in range.  If the fallback easing maps [0, 1]
    into [0, 1] and the ripple size is not negative, every ripple that
    [render] draws has an opacity in [0, 1] and a radius between 0 and
    [clickRippleSize]; and it is drawn for a pressed click that happened at
    or before the current time and less than [clickRippleDuration] ago. *)
Theorem click_ripples_in_range (cursorStyles : CursorStyles)
  (recordingGeometry : option Size.t) (metadata : list InputEvent.t)
  (t fcw fch : R) :
  (forall q, 0 <= q <= 1 -> 0 <= EASING_Balanced q <= 1) ->
  0 <= clickRippleSize cursorStyles ->
  Forall
    (fun ripple =>
       0 <= rippleOpacity ripple <= 1 /\
       0 <= rippleRadius ripple <= clickRippleSize cursorStyles /\
       exists click,
         In click metadata /\ isPressedClick click = true /\
         MetaDataItem.timestamp (InputEvent.item click) <= t
         < MetaDataItem.timestamp (InputEvent.item click)
           + clickRippleDuration cursorStyles)
    (clickRipples cursorStyles recordingGeometry metadata t fcw fch).
Proof.
  intros Heasing Hsize. unfold clickRipples.
  destruct (clickRippleEffect cursorStyles); [| constructor].
  destruct recordingGeometry as [rg |]; [| constructor].
  apply Forall_forall. intros ripple Hin.
  apply in_map_iff in Hin. destruct Hin as [click [<- Hclick]].
  apply filter_In in Hclick. destruct Hclick as [Hmem Hpred].
  apply andb_prop in Hpred. destruct Hpred as [Hpred Hlt].
  apply andb_prop in Hpred. destruct Hpred as [Hpressed Hge].
  apply geb_spec in Hge. apply ltb_spec in Hlt.
  cbn [rippleOpacity rippleRadius].
  pose proof (Heasing _ (progress_range t _ _ Hge Hlt)) as He.
  split; [lra |]. split; [nra |].
  exists click. repeat split; assumption.
Qed.

(** X16.  The click-scale of the cursor stays in range.  If
    [clickScaleAmount <= 1] and the chosen easing maps [0, 1] into [0, 1],
    the scale applied to the cursor sprite lies between [clickScaleAmount]
    and 1; it is exactly 1 when the effect is off or no pressed click
    happened within the last [clickScaleDuration]. *)
Theorem cursor_click_scale_in_range (cursorStyles : CursorStyles)
  (metadata : list InputEvent.t) (t : R) :
  clickScaleAmount cursorStyles <= 1 ->
  (forall q, 0 <= q <= 1 ->
             0 <= easingFn (clickScaleEasing cursorStyles) q <= 1) ->
  clickScaleAmount cursorStyles
  <= cursorClickScale cursorStyles metadata t <= 1 /\
  (clickScaleEffect cursorStyles = false \/
   (forall e, In e metadata -> isPressedClick e = true ->
              ~ (t - clickScaleDuration cursorStyles
                 < MetaDataItem.timestamp (InputEvent.item e) <= t)) ->
   cursorClickScale cursorStyles metadata t = 1).
Proof.
  intros Hamount Heasing. unfold cursorClickScale.
  destruct (clickScaleEffect cursorStyles);
    [| split; [lra | intros _; reflexivity]].
  destruct (pop _) as [click |] eqn:Hpop.
  2:{ split; [lra | intros _; reflexivity]. }
  apply pop_In in Hpop. apply filter_In in Hpop.
  destruct Hpop as [Hmem Hpred].
  apply andb_prop in Hpred. destruct Hpred as [Hpred Hgt].
  apply andb_prop in Hpred. destruct Hpred as [Hpressed Hle].
  apply leb_spec in Hle. apply gtb_spec in Hgt.
  split.
  - assert (Hprog : 0 <= (t - MetaDataItem.timestamp (InputEvent.item click))
                         / clickScaleDuration cursorStyles <= 1)
      by (apply progress_range; lra).
    pose proof (Heasing _ Hprog) as He.
    set (e := easingFn (clickScaleEasing cursorStyles) _) in *.
    assert (Hsin : 0 <= sin (e * PI) <= 1).
    { pose proof PI_RGT_0 as Hpi. split.
      - apply sin_ge_0; nra.
      - apply (SIN_bound (e * PI)). }
    nra.
  - intros [Hc | Hnone]; [discriminate | exfalso].
    apply (Hnone click Hmem Hpressed). lra.
Qed.

Lemma at_index_map_item (metadata : list InputEvent.t) (i : Z)
  (event : InputEvent.t) :
  (0 <= i)%Z -> nth_error metadata (Z.to_nat i) = Some event ->
  at_index (map InputEvent.item metadata) i = Normal (InputEvent.item event).
Proof.
  intros Hi H. unfold at_index.
  destruct (Z.ltb_spec i 0); [lia |].
  rewrite nth_error_map, H. reflexivity.
Qed.

(** X17.  The cursor is shown for a fresh latest sample only.  On a
    time-ordered sample sequence, [render] never fails while looking up the
    cursor, and whenever it shows the cursor sprite: a recording geometry is
    present and [showCursor] is set; the sample it draws is the last one at
    or before the current time (no later index holds a sample at or before
    it) and is less than 0.1 s old; its cursor bitmap is present with a
    positive width; the sprite is positioned at the sample's position
    scaled from the recording to the frame, pivots on the bitmap's hotspot
    and carries the click scale. *)
Theorem cursor_shown_for_fresh_latest_sample (cursorStyles : CursorStyles)
  (recordingGeometry : option Size.t)
  (cursorBitmapsToRender : string -> option CursorData)
  (metadata : list InputEvent.t) (t fcw fch : R) :
  nondecreasing (map InputEvent.item metadata) ->
  exists outcome,
    cursorSprite cursorStyles recordingGeometry cursorBitmapsToRender
      metadata t fcw fch = Normal outcome /\
    forall draw, outcome = Some draw ->
      showCursor cursorStyles = true /\
      exists rg i event key cursorData,
        recordingGeometry = Some rg /\
        nth_error metadata i = Some event /\
        MetaDataItem.timestamp (InputEvent.item event) <= t
        < MetaDataItem.timestamp (InputEvent.item event) + 0.1 /\
        (forall j later, nth_error metadata j = Some later ->
           MetaDataItem.timestamp (InputEvent.item later) <= t ->
           (j <= i)%nat) /\
        InputEvent.cursorImageKey event = Some key /\
        cursorBitmapsToRender key = Some cursorData /\
        imageBitmap cursorData = true /\ 0 < cursorWidth cursorData /\
        draw = mkCursorDraw
                 (MetaDataItem.x (InputEvent.item event) / Size.width rg * fcw)
                 (MetaDataItem.y (InputEvent.item event) / Size.height rg * fch)
                 (xhot cursorData) (yhot cursorData)
                 (cursorClickScale cursorStyles metadata t).
Proof.
  intros Hsorted.
  destruct (findLastMetadataIndex_sorted (map InputEvent.item metadata) t Hsorted)
    as [i [Hi [Hr [Hb Ha]]]].
  unfold cursorSprite. rewrite Hi. cbn [bind].
  destruct (showCursor cursorStyles) eqn:Hshow;
    [| eexists; split; [reflexivity | intros d Hd; discriminate]].
  cbn [andb].
  destruct (Z.gtb_spec i (-1)) as [Hpos | Hneg];
    [| eexists; split; [reflexivity | intros d Hd; discriminate]].
  destruct recordingGeometry as [rg |];
    [| eexists; split; [reflexivity | intros d Hd; discriminate]].
  destruct (nth_error metadata (Z.to_nat i)) as [event |] eqn:Hevent;
    [| eexists; split; [reflexivity | intros d Hd; discriminate]].
  pose proof (at_index_map_item metadata i event ltac:(lia) Hevent) as Hat.
  pose proof (Hb i _ ltac:(lia) Hat) as Hts.
  destruct (Rlt_dec (t - MetaDataItem.timestamp (InputEvent.item event)) 0.1)
    as [Hfresh | Hold].
  2:{ rewrite ltb_false by lra.
      eexists; split; [reflexivity | intros d Hd; discriminate]. }
  rewrite (ltb_true _ _ Hfresh).
  destruct (InputEvent.cursorImageKey event) as [key |] eqn:Hkey;
    [| eexists; split; [reflexivity | intros d Hd; discriminate]].
  destruct (cursorBitmapsToRender key) as [cd |] eqn:Hcd;
    [| eexists; split; [reflexivity | intros d Hd; discriminate]].
  destruct (imageBitmap cd) eqn:Hbitmap;
    [| eexists; split; [reflexivity | intros d Hd; discriminate]].
  cbn [andb]. unfold Num.gtb.
  destruct (Rlt_dec 0 (cursorWidth cd)) as [Hwidth | Hnowidth].
  2:{ rewrite ltb_false by lra.
      eexists; split; [reflexivity | intros d Hd; discriminate]. }
  rewrite (ltb_true _ _ Hwidth).
  eexists. split; [reflexivity |].
  intros d Hd. injection Hd as <-. split; [reflexivity |].
  exists rg, (Z.to_nat i), event, key, cd.
  repeat split; try assumption; try lra.
  intros j later Hlater Hlts.
  destruct (le_gt_dec j (Z.to_nat i)) as [Hle | Hgt]; [exact Hle | exfalso].
  assert (Hat' : at_index (map InputEvent.item metadata) (Z.of_nat j)
                 = Normal (InputEvent.item later)).
  { apply at_index_map_item; [lia |]. rewrite Nat2Z.id. exact Hlater. }
  specialize (Ha (Z.of_nat j) _ ltac:(lia) Hat'). lra.
Qed.

End Clicks.

Lemma balanced_example_range (q : R) :
  0 <= q <= 1 -> 0 <= q * q * (3 - 2 * q) <= 1.
Proof.
  intros [H0 H1]. split.
  - apply Rmult_le_pos; [apply Rmult_le_pos; lra | lra].
  - assert (0 <= (1 - q) * (1 - q) * (2 * q + 1))
      by (apply Rmult_le_pos; [apply Rmult_le_pos; lra | lra]).
    lra.
Qed.

Lemma click_ripples_in_range_witness :
  Forall
    (fun ripple =>
       0 <= rippleOpacity ripple <= 1 /\
       0 <= rippleRadius ripple <= clickRippleSize demo_cursorStyles /\
       exists click,
         In click click_events /\ isPressedClick click = true /\
         MetaDataItem.timestamp (InputEvent.item click) <= 1.2
         < MetaDataItem.timestamp (InputEvent.item click)
           + clickRippleDuration demo_cursorStyles)
    (@clickRipples example_externals demo_cursorStyles
       (Some (Size.mk 1920 1080)) click_events 1.2 1280 720).
Proof.
  apply (@click_ripples_in_range example_externals demo_cursorStyles
           (Some (Size.mk 1920 1080)) click_events 1.2 1280 720).
  - intros q Hq. cbn. apply balanced_example_range. exact Hq.
  - cbn. lra.
Defined.

Lemma cursor_click_scale_in_range_witness :
  clickScaleAmount demo_cursorStyles
  <= @cursorClickScale example_externals demo_cursorStyles click_events 1.2
  <= 1 /\
  (clickScaleEffect demo_cursorStyles = false \/
   (forall e, In e click_events -> isPressedClick e = true ->
              ~ (1.2 - clickScaleDuration demo_cursorStyles
                 < MetaDataItem.timestamp (InputEvent.item e) <= 1.2)) ->
   @cursorClickScale example_externals demo_cursorStyles click_events 1.2 = 1).
Proof.
  apply (@cursor_click_scale_in_range example_externals demo_cursorStyles
           click_events 1.2).
  - cbn. lra.
  - intros q Hq. cbn. exact Hq.
Defined.

Lemma cursor_shown_for_fresh_latest_sample_witness :
  exists outcome,
    @cursorSprite example_externals demo_cursorStyles
      (Some (Size.mk 1920 1080)) demo_bitmaps click_events 1.05 1280 720
    = Normal outcome /\
    forall draw, outcome = Some draw ->
      showCursor demo_cursorStyles = true /\
      exists rg i event key cursorData,
        Some (Size.mk 1920 1080) = Some rg /\
        nth_error click_events i = Some event /\
        MetaDataItem.timestamp (InputEvent.item event) <= 1.05
        < MetaDataItem.timestamp (InputEvent.item event) + 0.1 /\
        (forall j later, nth_error click_events j = Some later ->
           MetaDataItem.timestamp (InputEvent.item later) <= 1.05 ->
           (j <= i)%nat) /\
        InputEvent.cursorImageKey event = Some key /\
        demo_bitmaps key = Some cursorData /\
        imageBitmap cursorData = true /\ 0 < cursorWidth cursorData /\
        draw = mkCursorDraw
                 (MetaDataItem.x (InputEvent.item event) / Size.width rg * 1280)
                 (MetaDataItem.y (InputEvent.item event) / Size.height rg * 720)
                 (xhot cursorData) (yhot cursorData)
                 (@cursorClickScale example_externals demo_cursorStyles
                    click_events 1.05).
Proof.
  apply (@cursor_shown_for_fresh_latest_sample example_externals
           demo_cursorStyles (Some (Size.mk 1920 1080)) demo_bitmaps
           click_events 1.05 1280 720).
  apply ordered_nondecreasing. cbn. repeat split; lra.
Defined.

(* ===================================================================== *)
(** ** Further properties of the phases *)
(* ===================================================================== *)


Section HoldAndStart.

Context {ext : Externals}.



End HoldAndStart.


